(** * Ride dispatch: maps-service /multi-eta, rides-service and dispatcher-worker

    A shallow embedding of the dispatch path of the cab booking services:
    - [services/maps-service/server.js]     (GET /multi-eta),
    - [services/rides-service/server.js]    (computeDispatch, POST /offers/start,
      POST /ack-offer, GET /get-fare, POST /create, POST /confirm,
      GET /start-ride),
    - [services/dispatcher-worker/worker.js] (the offer job).

    Mongo collections are finite maps from document ids to records, the
    Redis cache is a finite map from keys to values with an expiry instant,
    and the HTTP calls a handler awaits are answers supplied by its caller. *)

From Stdlib Require Import ZArith QArith Qround Lia Lqa DecimalString.
From stdpp Require Import base option list gmap strings.

Local Open Scope Z_scope.

(** The integers among the JavaScript numbers. *)
Coercion inject_Z : Z >-> Q.

(** ** maps-service: GET /multi-eta *)

Module Maps.

(** The JSON payload [{ durations, bestIndex }]; [None] is JSON [null]. *)
Record EtaPayload := mkEta {
  durations : list (option Z);
  bestIndex : Z
}.

(** [d => (d <= Number(boundSec) ? d : null)] *)
Definition boundEntry (boundSec : Z) (d : option Z) : option Z :=
  match d with
  | Some x => if x <=? boundSec then Some x else None
  | None => None
  end.

(** [typeof boundSec !== 'undefined' ? durations.map(...) : durations] *)
Definition filterBound (boundSec : option Z) (durs : list (option Z))
  : list (option Z) :=
  match boundSec with
  | Some b => boundEntry b <$> durs
  | None => durs
  end.

(** The reducer
    [(best, d, i) => (d !== null && (best < 0 || d < filtered[best]) ? i : best)].
    A number compared with [null] is compared with 0; compared with
    [undefined] (an index out of range) the test is false. *)
Definition bestStep (filtered : list (option Z)) (best : Z) (i : nat)
    (d : option Z) : Z :=
  match d with
  | None => best
  | Some x =>
      if best <? 0 then Z.of_nat i
      else match filtered !! Z.to_nat best with
           | Some (Some y) => if x <? y then Z.of_nat i else best
           | Some None => if x <? 0 then Z.of_nat i else best
           | None => best
           end
  end.

(** [Array.prototype.reduce] with the element index, from index [i] on. *)
Fixpoint reduceFrom (filtered : list (option Z)) (i : nat)
    (rest : list (option Z)) (best : Z) : Z :=
  match rest with
  | [] => best
  | d :: rest' => reduceFrom filtered (S i) rest' (bestStep filtered best i d)
  end.

Definition bestIndexOf (filtered : list (option Z)) : Z :=
  reduceFrom filtered 0 filtered (-1).

(** Lines 134-137 and 148-151: filter by the bound, then pick the best. *)
Definition etaPayload (boundSec : option Z) (durs : list (option Z))
  : EtaPayload :=
  let filtered := filterBound boundSec durs in
  mkEta filtered (bestIndexOf filtered).

(** What the handler finds around it: the configuration gates and the
    answers of the services it awaits. *)
Record MapsEnv := mkMapsEnv {
  useMock : bool;                         (* useMock() *)
  cached : option EtaPayload;             (* redis.get(cacheKey), when it hits *)
  routingTable : option (option (list (option Z)));
    (* ROUTING_BASE_URL unset | table request failed | row[0] of each row *)
  googleMatrix : option (list Z)
    (* status 'OK' with the duration values, or no usable answer *)
}.

Inductive MapsResponse :=
| Json (p : EtaPayload)
| Status (code : Z).

(** GET /multi-eta. [sources] is the list after [split(';').filter(Boolean)];
    [sourcesGiven] and [destinationGiven] are the truthiness of the two
    query parameters. *)
Definition multiEta (env : MapsEnv) (sourcesGiven destinationGiven : bool)
    (sources : list string) (boundSec : option Z) : MapsResponse :=
  if negb sourcesGiven || negb destinationGiven then Status 400
  else match cached env with
  | Some p => Json p
  | None =>
    match routingTable env with
    | None =>
        if useMock env then Json (mkEta ((λ _, Some 300) <$> sources) 0)
        else match googleMatrix env with
             | Some vals => Json (etaPayload boundSec (Some <$> vals))
             | None => Status 500
             end
    | Some None => Status 500
    | Some (Some col) => Json (etaPayload boundSec col)
    end
  end.

End Maps.

(** ** The shared data model (the Mongoose schemas of rides-service) *)

(** [candidates[].status], enum
    ['pending','offered','ack','timeout','rejected','skipped','assigned']. *)
Inductive CandStatus :=
| CPending | COffered | CAck | CTimeout | CRejected | CSkipped | CAssigned.

(** [dispatch.status], enum ['pending','assigned','completed','cancelled']. *)
Inductive DispatchStatus := DPending | DAssigned | DCompleted | DCancelled.

(** [ride.status], enum
    ['pending','accepted','ongoing','completed','cancelled']. *)
Inductive RideStatus :=
| RPending | RAccepted | ROngoing | RCompleted | RCancelled.

#[global] Instance CandStatus_eq_dec : EqDecision CandStatus.
Proof. solve_decision. Defined.
#[global] Instance DispatchStatus_eq_dec : EqDecision DispatchStatus.
Proof. solve_decision. Defined.
#[global] Instance RideStatus_eq_dec : EqDecision RideStatus.
Proof. solve_decision. Defined.

Record Candidate := mkCandidate {
  captainId : nat;
  socketId : option string;
  etaSec : option Z;
  candStatus : CandStatus
}.

Record Dispatch := mkDispatch {
  dispatchUser : nat;
  dispatchPickup : string;
  dispatchDestination : string;
  vehicleType : option string;
  candidates : list Candidate;
  currentIndex : nat;
  rideId : option nat;
  dispatchStatus : DispatchStatus
}.

Record Ride := mkRide {
  rideUser : nat;
  rideCaptain : option nat;
  ridePickup : string;
  rideDestination : string;
  fare : Q;                     (* a JavaScript number *)
  rideStatus : RideStatus;
  otp : string
}.

(** A user or captain document as rides-service reads it: its schemas for
    these collections are not strict, so the stored password comes along. *)
Record Account := mkAccount {
  accountSocketId : option string;
  accountPassword : option string;
  accountStatus : option string
}.

(** A captain as [Captain.find(query).lean()] returns it; [capCoords] is
    ["lat,lon"] when [location.coordinates] is an array. *)
Record CaptainDoc := mkCaptainDoc {
  capId : nat;
  capSocketId : option string;
  capCoords : option string
}.

(** A populated user or captain inside a serialized ride. *)
Record AccountOut := mkAccountOut {
  outAccountId : nat;
  outSocketId : option string;
  outPassword : option string
}.

(** A reference field of a serialized document: the bare id, or the
    document [populate] put in its place. *)
Inductive Ref :=
| RefId (id : nat)
| RefDoc (a : AccountOut).

(** [ride.toObject()]; [outOtp] is present only when the query selected it. *)
Record RideOut := mkRideOut {
  outId : nat;
  outUser : option Ref;
  outCaptain : option Ref;
  outPickup : string;
  outDestination : string;
  outFare : Q;
  outStatus : RideStatus;
  outOtp : option string
}.

(** The bodies posted to the socket service's /emit (or published on the
    Redis 'events' channel). *)
Inductive EventData :=
| OfferData (dispatchId captain : nat) (pickup destination : string)
    (eta : option Z)
| OfferAcceptedData (dispatchId ride : nat)
| RideAssignedData (ride : nat)
| RideData (out : RideOut).

Record Emit := mkEmit {
  emitTo : option string;
  emitEvent : string;
  emitData : EventData
}.

(** A job on the 'ride_offers' queue. *)
Record Job := mkJob {
  jobDispatchId : option nat;
  jobAckSec : option Z
}.

(** What other requests do to the store while the worker awaits. The
    handler of POST /ack-offer awaits twice, for its read and for its
    write: [AckOffer] is a request whose read and write fall into the same
    await of the worker; [AckWrite] is the write alone, of a request whose
    read was served at an earlier await of the worker and found the
    dispatch pending and the captain at [idx]. *)
Inductive ExtAction :=
| AckOffer (dispatchId captain : nat) (accepted : bool)
| CancelDispatch (dispatchId : nat)
| AckWrite (dispatchId idx : nat) (accepted : bool).

(** One await of the worker: the time that passes beyond the awaited
    delay (milliseconds) and the requests served meanwhile. *)
Record Tick := mkTick {
  lag : nat;
  served : list ExtAction
}.

Inductive TraceItem :=
| Emitted (e : Emit)
| Served (a : ExtAction).

(** The response the rides-service cached for an idempotency key. *)
Record CreateOut := mkCreateOut {
  createdRide : RideOut;
  createdSurge : Q
}.

Record World := mkWorld {
  dispatches : gmap nat Dispatch;
  rides : gmap nat Ride;
  users : gmap nat Account;
  captains : gmap nat Account;
  redisKeys : gmap string (CreateOut * Z);   (* value, expiry instant (ms) *)
  offersQueue : list Job;
  trace : list TraceItem;
  clock : Z;                                 (* Date.now(), milliseconds *)
  concurrent : list Tick
}.

Definition setDispatches (f : gmap nat Dispatch → gmap nat Dispatch)
    (w : World) : World :=
  mkWorld (f (dispatches w)) (rides w) (users w) (captains w) (redisKeys w)
    (offersQueue w) (trace w) (clock w) (concurrent w).

Definition setRides (f : gmap nat Ride → gmap nat Ride) (w : World) : World :=
  mkWorld (dispatches w) (f (rides w)) (users w) (captains w) (redisKeys w)
    (offersQueue w) (trace w) (clock w) (concurrent w).

Definition setCaptains (f : gmap nat Account → gmap nat Account)
    (w : World) : World :=
  mkWorld (dispatches w) (rides w) (users w) (f (captains w)) (redisKeys w)
    (offersQueue w) (trace w) (clock w) (concurrent w).

Definition setRedisKeys
    (f : gmap string (CreateOut * Z) → gmap string (CreateOut * Z))
    (w : World) : World :=
  mkWorld (dispatches w) (rides w) (users w) (captains w) (f (redisKeys w))
    (offersQueue w) (trace w) (clock w) (concurrent w).

Definition enqueue (j : Job) (w : World) : World :=
  mkWorld (dispatches w) (rides w) (users w) (captains w) (redisKeys w)
    (offersQueue w ++ [j]) (trace w) (clock w) (concurrent w).

Definition record (t : TraceItem) (w : World) : World :=
  mkWorld (dispatches w) (rides w) (users w) (captains w) (redisKeys w)
    (offersQueue w) (trace w ++ [t]) (clock w) (concurrent w).

Definition advance (ms : Z) (w : World) : World :=
  mkWorld (dispatches w) (rides w) (users w) (captains w) (redisKeys w)
    (offersQueue w) (trace w) (clock w + ms) (concurrent w).

Definition setConcurrent (ts : list Tick) (w : World) : World :=
  mkWorld (dispatches w) (rides w) (users w) (captains w) (redisKeys w)
    (offersQueue w) (trace w) (clock w) ts.

(** The events posted so far, in order. *)
Definition emitted (w : World) : list Emit :=
  omap (λ t, match t with Emitted e => Some e | Served _ => None end) (trace w).

(** [$set: { 'candidates.<i>.status': s }] on one dispatch document. The
    handlers and the worker use it with an index of the stored array (the
    result of [findIndex], or an index of the array read when the job
    started, whose length never changes); beyond the array MongoDB would pad
    it, which is left out: here the update does nothing there. *)
Definition setCandStatus (i : nat) (s : CandStatus) (d : Dispatch) : Dispatch :=
  mkDispatch (dispatchUser d) (dispatchPickup d) (dispatchDestination d)
    (vehicleType d)
    (alter (λ c, mkCandidate (captainId c) (socketId c) (etaSec c) s) i
       (candidates d))
    (currentIndex d) (rideId d) (dispatchStatus d).

Definition setCurrentIndex (i : nat) (d : Dispatch) : Dispatch :=
  mkDispatch (dispatchUser d) (dispatchPickup d) (dispatchDestination d)
    (vehicleType d) (candidates d) i (rideId d) (dispatchStatus d).

Definition setDispatchStatus (s : DispatchStatus) (d : Dispatch) : Dispatch :=
  mkDispatch (dispatchUser d) (dispatchPickup d) (dispatchDestination d)
    (vehicleType d) (candidates d) (currentIndex d) (rideId d) s.

Definition setRideId (r : nat) (d : Dispatch) : Dispatch :=
  mkDispatch (dispatchUser d) (dispatchPickup d) (dispatchDestination d)
    (vehicleType d) (candidates d) (currentIndex d) (Some r) (dispatchStatus d).

(** [Model.updateOne({ _id }, update)] / [findByIdAndUpdate]: a missing
    document is left missing. *)
Definition updateDispatch (id : nat) (f : Dispatch → Dispatch) (w : World)
    : World :=
  setDispatches (alter f id) w.

(** ** rides-service *)

Inductive Response (A : Type) :=
| Reply (code : Z) (body : A)
| Failure (code : Z) (message : string).
Arguments Reply {A} code body.
Arguments Failure {A} code message.

(** *** POST /ack-offer (lines 342-359) *)

(** [d.candidates.findIndex(c => String(c.captainId) === String(captainId))],
    [None] standing for -1. *)
Fixpoint findIndexFrom (i : nat) (captain : nat) (cs : list Candidate)
    : option nat :=
  match cs with
  | [] => None
  | c :: cs' =>
      if decide (captainId c = captain) then Some i
      else findIndexFrom (S i) captain cs'
  end.

Definition findIndex (captain : nat) (cs : list Candidate) : option nat :=
  findIndexFrom 0 captain cs.

Definition ackOffer (dispatchId captain : nat) (accepted : bool) (w : World)
    : Response bool * World :=
  match dispatches w !! dispatchId with
  | None => (Failure 404 "Dispatch not pending", w)
  | Some d =>
      if decide (dispatchStatus d = DPending) then
        match findIndex captain (candidates d) with
        | None => (Failure 404 "Captain not in candidates", w)
        | Some idx =>
            (Reply 200 true,
             updateDispatch dispatchId
               (setCandStatus idx (if accepted then CAck else CRejected)) w)
        end
      else (Failure 404 "Dispatch not pending", w)
  end.

(** The two awaits of that handler, apart. The read (line 349) with the
    tests of lines 350-352: the index the write will use, or nothing when
    the request is answered 404. *)
Definition ackRead (dispatchId captain : nat) (w : World) : option nat :=
  match dispatches w !! dispatchId with
  | None => None
  | Some d =>
      if decide (dispatchStatus d = DPending) then
        findIndex captain (candidates d)
      else None
  end.

(** The write (line 354), [updateOne({ _id: dispatchId }, { $set })]: the
    filter names the document only, so the status the dispatch has by then
    is not tested. *)
Definition ackWrite (dispatchId idx : nat) (accepted : bool) (w : World)
    : World :=
  updateDispatch dispatchId
    (setCandStatus idx (if accepted then CAck else CRejected)) w.

(** Modelled from the spec: cancelDispatch, of which src/ has no endpoint
    ("sets outcome=cancelled if outcome=pending", 409 if already terminal,
    404 when the dispatch is unknown). *)
Definition cancelDispatch (dispatchId : nat) (w : World)
    : Response bool * World :=
  match dispatches w !! dispatchId with
  | None => (Failure 404 "unknown", w)
  | Some d =>
      if decide (dispatchStatus d = DPending) then
        (Reply 200 true,
         updateDispatch dispatchId (setDispatchStatus DCancelled) w)
      else (Failure 409 "already terminal", w)
  end.

(** *** computeDispatch (lines 148-209) *)

(** The answers computeDispatch awaits. *)
Record Upstream := mkUpstream {
  (* parseLatLon(pickup), else GET /get-coordinates; [None] when that throws *)
  resolvePickup : string → option string;
  (* Captain.find(query).limit(limit).lean() for (vehicle type, centre,
     $maxDistance, limit) *)
  findCaptains : option string → string → Q → Z → list CaptainDoc;
  (* GET /multi-eta through requestWithRetry for (sources, destination,
     boundSec); [None] when the retries are exhausted *)
  multiEtaCall : list string → string → option Z → option Maps.EtaPayload;
  (* ML_BASE_URL unset, or for entry i the calibratedDuration when it is a
     number *)
  calibrate : option (nat → option Z → option Z)
}.

Record DispatchPlan := mkPlan {
  planLatLon : string;
  planCaptains : list CaptainDoc;
  planDurations : list (option Z);
  planBestIndex : Z;
  (* the boundSec of each multi-eta request made, in order *)
  planEtaCalls : list (option Z)
}.

(** [if (vt === 'moto') vt = 'motorcycle'] *)
Definition normalizeVehicle (vt : option string) : option string :=
  match vt with
  | Some s => if String.eqb s "moto" then Some "motorcycle"%string else Some s
  | None => None
  end.

(** [Math.max(1, Number(radiusKm) * 1000)] *)
Definition maxDistance (radiusKm : Q) : Q :=
  if Qle_bool 1 (radiusKm * 1000) then (radiusKm * 1000)%Q else 1%Q.

(** [durations.map((d, i) => typeof calibrated[i] === 'number' ? calibrated[i] : d)] *)
Definition applyCalibration (ml : nat → option Z → option Z)
    (durs : list (option Z)) : list (option Z) :=
  imap (λ i d, match ml i d with Some c => Some c | None => d end) durs.

(** The optional ML step (lines 189-199): calibrate, then recompute
    bestIndex with the reducer of /multi-eta. *)
Definition calibrated (up : Upstream) (p : Maps.EtaPayload) : Maps.EtaPayload :=
  match calibrate up with
  | Some ml =>
      let durs := applyCalibration ml (Maps.durations p) in
      Maps.mkEta durs (Maps.bestIndexOf durs)
  | None => p
  end.

(** [durations.every(d => d === null)] *)
Definition allNull (durs : list (option Z)) : bool :=
  forallb (λ d, match d with None => true | Some _ => false end) durs.

Definition computeDispatch (up : Upstream) (pickup : string) (radiusKm : Q)
    (limit : Z) (boundSec : option Z) (vt0 : option string)
    : option DispatchPlan :=
  let vt := normalizeVehicle vt0 in
  latLon ← resolvePickup up pickup;
  let caps := findCaptains up vt latLon (maxDistance radiusKm) limit in
  match caps with
  | [] => Some (mkPlan latLon [] [] (-1) [])
  | _ =>
    let sources := omap capCoords caps in
    match sources with
    | [] => Some (mkPlan latLon [] [] (-1) [])
    | _ =>
      r ← multiEtaCall up sources latLon boundSec;
      let r1 := calibrated up r in
      match boundSec with
      | Some _ =>
          if (Maps.bestIndex r1 =? -1) || allNull (Maps.durations r1) then
            r2 ← multiEtaCall up sources latLon None;
            Some (mkPlan latLon caps (Maps.durations r2) (Maps.bestIndex r2)
                    [boundSec; None])
          else
            Some (mkPlan latLon caps (Maps.durations r1) (Maps.bestIndex r1)
                    [boundSec])
      | None =>
          Some (mkPlan latLon caps (Maps.durations r1) (Maps.bestIndex r1)
                  [boundSec])
      end
    end
  end.

(** *** POST /offers/start (lines 212-260) *)

Record StartRequest := mkStartRequest {
  startAuth : option nat;             (* auth(token): decoded._id, or it throws *)
  startPickup : string;
  startDestination : string;
  startVehicleType : option string;
  startRadiusKm : option Q;
  startLimit : option Z;
  startBoundSec : option Z;
  startAckSec : option Z;
  startIdempotencyKey : option string (* the Idempotency-Key header *)
}.

Record StartReply := mkStartReply {
  replyDispatchId : nat;
  replyCandidates : nat;
  replyCurrentIndex : nat;
  replyAckSec : Z
}.

(** [Number(x || dflt)] for a numeric body field. *)
Definition orDefaultZ (x : option Z) (dflt : Z) : Z :=
  match x with
  | Some n => if n =? 0 then dflt else n
  | None => dflt
  end.

Definition orDefaultQ (x : option Q) (dflt : Q) : Q :=
  match x with
  | Some q => if Qeq_bool q 0 then dflt else q
  | None => dflt
  end.

(** [captains.map((c, i) => ({ captainId, socketId, etaSec: durations[i] ?? null,
    status: 'pending' }))] *)
Definition buildCandidates (caps : list CaptainDoc) (durs : list (option Z))
    : list Candidate :=
  imap (λ i c, mkCandidate (capId c) (capSocketId c)
                 (default None (durs !! i)) CPending) caps.

(** [Math.max(0, bestIndex || 0)] *)
Definition startIndex (bestIndex : Z) : nat := Z.to_nat (Z.max 0 bestIndex).

(** [queueConfigured] is whether REDIS_URL is set, so that [offersQueue]
    exists. *)
Definition offersStart (up : Upstream) (queueConfigured : bool)
    (req : StartRequest) (w : World) : Response StartReply * World :=
  match startAuth req with
  | None => (Failure 500 "Unauthorized", w)
  | Some uid =>
    let radiusKm := orDefaultQ (startRadiusKm req) 5 in
    let limit := orDefaultZ (startLimit req) 5 in
    let ackSec := orDefaultZ (startAckSec req) 30 in
    let vt := normalizeVehicle (startVehicleType req) in
    match computeDispatch up (startPickup req) radiusKm limit
            (startBoundSec req) vt with
    | None => (Failure 500 "upstream", w)
    | Some plan =>
      match planCaptains plan with
      | [] => (Failure 404 "No captains nearby", w)
      | caps =>
        let cands := buildCandidates caps (planDurations plan) in
        let id := fresh (dom (dispatches w)) in
        let doc := mkDispatch uid (startPickup req) (startDestination req) vt
                     cands (startIndex (planBestIndex plan)) None DPending in
        let w1 := setDispatches (insert id doc) w in
        let w2 := if queueConfigured
                  then enqueue (mkJob (Some id) (Some ackSec)) w1 else w1 in
        (Reply 201 (mkStartReply id (length cands) (currentIndex doc) ackSec),
         w2)
      end
    end
  end.

(** *** GET /get-fare (lines 412-431) and POST /create (lines 443-470) *)

Inductive Vehicle := Auto | Car | Moto.

Definition vehicleOf (s : string) : option Vehicle :=
  if String.eqb s "auto" then Some Auto
  else if String.eqb s "car" then Some Car
  else if String.eqb s "moto" then Some Moto
  else None.

Definition baseFare (v : Vehicle) : Q :=
  match v with Auto => 30 | Car => 50 | Moto => 20 end.

Definition perKmRate (v : Vehicle) : Q :=
  match v with Auto => 10 | Car => 15 | Moto => 8 end.

Definition perMinuteRate (v : Vehicle) : Q :=
  match v with Auto => 2 | Car => 3 | Moto => 3 # 2 end.

(** [Math.round]: the nearest integer, halves rounded up.

    The code computes fares in IEEE doubles, the model in exact rationals.
    The two can differ by one where the exact product lies on a half
    (170 x 1.15 is 195.5 exactly and 195.49999999999997 in doubles), so
    nothing below states the exact value of a fare computed from a
    distance, a duration and a factor: the statements are about sign and
    order, which rounding keeps, about equality of two evaluations of the
    same expression, and about entries of an answer taken as given. *)
Definition mathRound (x : Q) : Z := Qfloor (x + (1 # 2)).

(** [base[vt] + (distance.value/1000)*perKm[vt] + (duration.value/60)*perMinute[vt]] *)
Definition rawFare (v : Vehicle) (distance duration : Z) : Q :=
  (baseFare v + (inject_Z distance / 1000) * perKmRate v
   + (inject_Z duration / 60) * perMinuteRate v)%Q.

Definition fareFor (v : Vehicle) (distance duration : Z) (surge : Q) : Z :=
  mathRound (rawFare v distance duration * surge).

(** The answers the fare handlers await. *)
Record FareEnv := mkFareEnv {
  (* GET /get-distance-time: (distance.value, duration.value); [None] when
     the retries are exhausted *)
  distanceTime : string → string → option (Z * Z);
  (* GET /surge/factor: [Number(r.data?.factor)] when the call succeeds
     and that number is finite (a null factor is the number 0); [None]
     when the call throws or the number is not finite *)
  surgeAnswer : string → option Q
}.

(** [getSurgeFactor]: 1.0 when the call throws or the factor is no finite
    number. *)
Definition getSurgeFactor (env : FareEnv) (pickup : string) : Q :=
  default 1%Q (surgeAnswer env pickup).

Record FareTable := mkFareTable {
  fareAuto : Z;
  fareCar : Z;
  fareMoto : Z;
  fareSurge : Q
}.

Definition getFare (env : FareEnv) (pickup destination : string)
    : Response FareTable :=
  match distanceTime env pickup destination with
  | None => Failure 500 "distance"
  | Some (dist, dur) =>
      let surge := getSurgeFactor env pickup in
      Reply 200 (mkFareTable (fareFor Auto dist dur surge)
                   (fareFor Car dist dur surge) (fareFor Moto dist dur surge)
                   surge)
  end.

(** Decimal rendering of an id, standing for [String(objectId)]. *)
Definition idString (n : nat) : string :=
  NilEmpty.string_of_uint (Nat.to_uint n).

(** [s.padStart(n, '0')] *)
Definition padStart (n : nat) (s : string) : string :=
  String.concat EmptyString (replicate (n - String.length s) "0"%string) +:+ s.

(** [getOtp(num)] on the draw [r = Math.floor(Math.random() * 10 ** num)]. *)
Definition getOtp (num : nat) (r : nat) : string :=
  padStart num (idString r).

Record CreateRequest := mkCreateRequest {
  createAuth : option nat;
  createPickup : string;
  createDestination : string;
  createVehicleType : string;
  createIdempotencyKey : option string
}.

(** [getIdemKey]: the client key verbatim when the header is non-empty,
    otherwise the digest of the request body, computed by [fingerprint]. *)
Definition getIdemKey (fingerprint : string → string → string → string)
    (req : CreateRequest) (userId : nat) : string :=
  let pre := ("idem:rides:create:" +:+ idString userId +:+ ":")%string in
  match createIdempotencyKey req with
  | Some k =>
      if String.eqb k EmptyString then
        pre +:+ fingerprint (createPickup req) (createDestination req)
                  (createVehicleType req)
      else pre +:+ k
  | None =>
      pre +:+ fingerprint (createPickup req) (createDestination req)
                (createVehicleType req)
  end.

(** [redis.get(key)]: the value, unless the key has expired. *)
Definition redisGet (key : string) (w : World) : option CreateOut :=
  match redisKeys w !! key with
  | Some (v, expiry) => if clock w <? expiry then Some v else None
  | None => None
  end.

(** [redis.setex(key, seconds, value)] *)
Definition redisSetex (key : string) (seconds : Z) (v : CreateOut) (w : World)
    : World :=
  setRedisKeys (insert key (v, clock w + seconds * 1000)) w.

(** [ride.toObject()] of a document whose references are not populated. *)
Definition toObjectPlain (id : nat) (r : Ride) : RideOut :=
  mkRideOut id (Some (RefId (rideUser r))) (RefId <$> rideCaptain r)
    (ridePickup r) (rideDestination r) (fare r) (rideStatus r) (Some (otp r)).

(** [redisConfigured] is whether [redisPub] exists; [draw] is the random
    draw behind the OTP. *)
Definition create (fingerprint : string → string → string → string)
    (env : FareEnv) (redisConfigured : bool) (draw : nat)
    (req : CreateRequest) (w : World) : Response CreateOut * World :=
  match createAuth req with
  | None => (Failure 500 "Unauthorized", w)
  | Some uid =>
    let key := getIdemKey fingerprint req uid in
    match (if redisConfigured then redisGet key w else None) with
    | Some hit => (Reply 201 hit, w)
    | None =>
      match distanceTime env (createPickup req) (createDestination req) with
      | None => (Failure 500 "distance", w)
      | Some (dist, dur) =>
        let surge := getSurgeFactor env (createPickup req) in
        match vehicleOf (createVehicleType req) with
        | None => (Failure 500 "Cast to Number failed", w)
        | Some v =>
          let ride := mkRide uid None (createPickup req)
                        (createDestination req)
                        (inject_Z (fareFor v dist dur surge))
                        RPending (getOtp 6 draw) in
          let id := fresh (dom (rides w)) in
          let w1 := setRides (insert id ride) w in
          let out := mkCreateOut (toObjectPlain id ride) surge in
          let w2 := if redisConfigured then redisSetex key 3600 out w1
                    else w1 in
          (Reply 201 out, w2)
        end
      end
    end
  end.

(** *** POST /confirm (lines 472-492) and GET /start-ride (lines 494-517) *)

(** [populate(path)]: the referenced document, or null when it is missing. *)
Definition populate (coll : gmap nat Account) (ref : option nat)
    : option Ref :=
  id ← ref;
  a ← coll !! id;
  Some (RefDoc (mkAccountOut id (accountSocketId a) (accountPassword a))).

(** [Ride.findById(id).populate('user').populate('captain')], with
    [.select('+otp')] when [withOtp]: the schema declares the field
    [select: false], so a query leaves it out unless asked. *)
Definition findRidePopulated (withOtp : bool) (id : nat) (w : World)
    : option RideOut :=
  r ← rides w !! id;
  Some (mkRideOut id (populate (users w) (Some (rideUser r)))
          (populate (captains w) (rideCaptain r))
          (ridePickup r) (rideDestination r) (fare r) (rideStatus r)
          (if withOtp then Some (otp r) else None)).

(** [if (x && x.password) delete x.password] *)
Definition dropPassword (x : option Ref) : option Ref :=
  match x with
  | Some (RefDoc a) =>
      Some (RefDoc (mkAccountOut (outAccountId a) (outSocketId a) None))
  | other => other
  end.

Definition sanitize (out : RideOut) : RideOut :=
  mkRideOut (outId out) (dropPassword (outUser out))
    (dropPassword (outCaptain out)) (outPickup out) (outDestination out)
    (outFare out) (outStatus out) (outOtp out).

(** [out.user.socketId]; reading it throws when [out.user] is null. *)
Definition userSocket (out : RideOut) : option (option string) :=
  match outUser out with
  | Some (RefDoc a) => Some (outSocketId a)
  | Some (RefId _) => Some None
  | None => None
  end.

Definition setRideStatus (s : RideStatus) (r : Ride) : Ride :=
  mkRide (rideUser r) (rideCaptain r) (ridePickup r) (rideDestination r)
    (fare r) s (otp r).

Definition setRideCaptain (c : nat) (r : Ride) : Ride :=
  mkRide (rideUser r) (Some c) (ridePickup r) (rideDestination r)
    (fare r) (rideStatus r) (otp r).

Definition confirm (auth : option nat) (ride : nat) (w : World)
    : Response RideOut * World :=
  match auth with
  | None => (Failure 500 "Unauthorized", w)
  | Some captain =>
    let w1 := setRides
                (alter (λ r, setRideCaptain captain (setRideStatus RAccepted r))
                   ride) w in
    match findRidePopulated true ride w1 with
    | None => (Failure 500 "Cannot read properties of null", w1)
    | Some doc =>
      let out := sanitize doc in
      match userSocket out with
      | None => (Failure 500 "Cannot read properties of null", w1)
      | Some sock =>
          (Reply 200 out,
           record (Emitted (mkEmit sock "ride-confirmed" (RideData out))) w1)
      end
    end
  end.

Definition startRide (auth : option nat) (ride : nat) (givenOtp : string)
    (w : World) : Response RideOut * World :=
  match auth with
  | None => (Failure 500 "Unauthorized", w)
  | Some _ =>
    match findRidePopulated true ride w with
    | None => (Failure 404 "Ride not found", w)
    | Some doc =>
      if decide (outStatus doc = RAccepted) then
        if decide (outOtp doc = Some givenOtp) then
          let w1 := setRides (alter (setRideStatus ROngoing) ride) w in
          let out := sanitize doc in
          match userSocket out with
          | None => (Failure 500 "Cannot read properties of null", w1)
          | Some sock =>
              (Reply 200 out,
               record (Emitted (mkEmit sock "ride-started" (RideData out))) w1)
          end
        else (Failure 400 "Invalid OTP", w)
      else (Failure 400 "Ride not accepted", w)
    end
  end.

(** ** dispatcher-worker: the offer job (worker.js lines 32-102) *)

(** One step of another client's request, served while the worker awaits:
    a whole request, or the write of an /ack-offer whose read was served
    before, so that steps of the worker (its commit among them) can fall
    between the two. *)
Definition serve (a : ExtAction) (w : World) : World :=
  record (Served a)
    match a with
    | AckOffer d c accepted => (ackOffer d c accepted w).2
    | CancelDispatch d => (cancelDispatch d w).2
    | AckWrite d idx accepted => ackWrite d idx accepted w
    end.

(** Every [await] of the worker lets the next tick happen: time passes and
    the requests of that tick are served, in order. *)
Definition await (w : World) : World :=
  match concurrent w with
  | [] => w
  | t :: ts =>
      foldl (λ w' a, serve a w') (advance (Z.of_nat (lag t)) (setConcurrent ts w))
        (served t)
  end.

(** [await new Promise(r => setTimeout(r, ms))] *)
Definition sleep (ms : Z) (w : World) : World := await (advance ms w).

(** [await axios.post(`${socketBase}/emit`, e)] inside try/catch. *)
Definition emit (e : Emit) (w : World) : World := record (Emitted e) (await w).

(** What the worker process finds around it. *)
Record WorkerEnv := mkWorkerEnv {
  offerAckSecEnv : option Z;                 (* process.env.OFFER_ACK_SEC *)
  getFareCall : string → string → option FareTable;
    (* GET rides-service /get-fare: the body, or [None] when the call throws *)
  otpDraw : nat                              (* Math.floor(Math.random() * 1000000) *)
}.

(** [Number(jobAckSec || process.env.OFFER_ACK_SEC || 30)] *)
Definition ackSecOf (env : WorkerEnv) (job : Job) : Z :=
  let fromEnv := default 30 (offerAckSecEnv env) in
  match jobAckSec job with
  | Some n => if n =? 0 then fromEnv else n
  | None => fromEnv
  end.

Inductive Waited := SawAck | WindowElapsed | Stopped.

(** The ack wait loop (lines 52-60). Each round reads the dispatch and
    sleeps one second, so [fuel] rounds cover a window of [fuel] seconds. *)
Fixpoint waitForAck (fuel : nat) (id i : nat) (started ackSec : Z) (w : World)
    : option (Waited * World) :=
  if clock w - started <? ackSec * 1000 then
    match fuel with
    | O => None
    | S fuel' =>
        let w1 := await w in
        match dispatches w1 !! id with
        | None => Some (Stopped, w1)
        | Some cur =>
            if decide (dispatchStatus cur = DPending) then
              match candidates cur !! i with
              | Some cand =>
                  if decide (candStatus cand = CAck) then Some (SawAck, w1)
                  else waitForAck fuel' id i started ackSec (sleep 1000 w1)
              | None => waitForAck fuel' id i started ackSec (sleep 1000 w1)
              end
            else Some (Stopped, w1)
        end
    end
  else Some (WindowElapsed, w).

(** [fr.data?.[vt] || 0] with
    [vt = vehicleType === 'motorcycle' ? 'moto' : (vehicleType || 'car')]. *)
Definition workerVehicle (vt : option string) : string :=
  match vt with
  | Some s =>
      if String.eqb s "motorcycle" then "moto"%string
      else if String.eqb s EmptyString then "car"%string else s
  | None => "car"%string
  end.

(** [fr.data?.[vt] || 0]: the entry of the /get-fare body under the key
    [vt], looked up verbatim. The body has the four keys auto, car, moto
    and surge, so under the key surge the entry is the surge factor; under
    a key it does not have the entry is [undefined], which counts as 0, as
    does an entry 0. (A key that names a member every object inherits,
    such as constructor or toString, has a function for its value and no
    number; the fares of the model are numbers and these keys are left
    out of it.) *)
Definition fareOfTable (vt : string) (t : FareTable) : Q :=
  if String.eqb vt "auto" then inject_Z (fareAuto t)
  else if String.eqb vt "car" then inject_Z (fareCar t)
  else if String.eqb vt "moto" then inject_Z (fareMoto t)
  else if String.eqb vt "surge" then fareSurge t
  else 0.

(** Lines 67-72: 0 when the call throws. *)
Definition workerFare (env : WorkerEnv) (cur : Dispatch) : Q :=
  match getFareCall env (dispatchPickup cur) (dispatchDestination cur) with
  | Some t => fareOfTable (workerVehicle (vehicleType cur)) t
  | None => 0
  end.

Definition setAccountStatus (s : string) (a : Account) : Account :=
  mkAccount (accountSocketId a) (accountPassword a) (Some s).

Inductive Exit := NoOp | Aborted | Assigned | Exhausted | Threw.

(** The acked branch (lines 62-91). *)
Definition commitAssignment (env : WorkerEnv) (id i : nat) (w : World)
    : Exit * World :=
  let w1 := await w in                                        (* findById *)
  match dispatches w1 !! id with
  | None => (Threw, w1)
  | Some cur =>
    let w2 := await w1 in                                     (* get-fare *)
    let fare := workerFare env cur in
    match candidates cur !! i with
    | None => (Threw, w2)
    | Some cand =>
      let w3 := await w2 in                                   (* Captain.updateOne *)
      let w4 := setCaptains (alter (setAccountStatus "inactive") (captainId cand)) w3 in
      let w5 := await w4 in                                   (* Ride.create *)
      let ride := mkRide (dispatchUser cur) (Some (captainId cand))
                    (dispatchPickup cur) (dispatchDestination cur) fare
                    RAccepted (getOtp 6 (otpDraw env)) in
      let rid := fresh (dom (rides w5)) in
      let w6 := setRides (insert rid ride) w5 in
      let w7 := updateDispatch id
                  (λ d, setCandStatus i CAssigned
                          (setRideId rid
                             (setCurrentIndex i (setDispatchStatus DAssigned d))))
                  (await w6) in                               (* findByIdAndUpdate *)
      let w8 := emit (mkEmit (socketId cand) "ride-offer-accepted"
                        (OfferAcceptedData id rid)) w7 in
      let w9 := await w8 in                                   (* User.findById *)
      match users w9 !! dispatchUser cur with
      | Some u =>
          match accountSocketId u with
          | Some s =>
              if String.eqb s EmptyString then (Assigned, w9)
              else (Assigned,
                    emit (mkEmit (Some s) "ride-assigned" (RideAssignedData rid))
                      w9)
          | None => (Assigned, w9)
          end
      | None => (Assigned, w9)
      end
    end
  end.

(** The else branch (lines 93-96): mark timeout and move to the next. *)
Definition markTimeout (id i : nat) (w : World) : World :=
  updateDispatch id (λ d, setCurrentIndex (S i) (setCandStatus i CTimeout d))
    (await w).

(** Line 101, after the loop: no candidate accepted. *)
Definition noCandidateAccepted (id : nat) (w : World) : World :=
  updateDispatch id (setDispatchStatus DCancelled) (await w).

(** The body posted for the offer to candidate [c] (lines 43-47). *)
Definition offerEvent (id : nat) (d : Dispatch) (c : Candidate) : Emit :=
  mkEmit (socketId c) "ride-offer"
    (OfferData id (captainId c) (dispatchPickup d) (dispatchDestination d)
       (etaSec c)).

(** The loop [while (i < d.candidates.length)] over the snapshot [d] read
    when the job started; [rest] is [d.candidates] from index [i] on. *)
Fixpoint offerLoop (env : WorkerEnv) (id : nat) (d : Dispatch) (ackSec : Z)
    (rest : list Candidate) (i : nat) (w : World) : option (Exit * World) :=
  match rest with
  | [] => Some (Exhausted, noCandidateAccepted id w)
  | c :: rest' =>
      let w1 := emit (offerEvent id d c) w in
      match waitForAck (Z.to_nat ackSec) id i (clock w1) ackSec w1 with
      | None => None
      | Some (Stopped, w2) => Some (Aborted, w2)
      | Some (SawAck, w2) => Some (commitAssignment env id i w2)
      | Some (WindowElapsed, w2) =>
          offerLoop env id d ackSec rest' (S i) (markTimeout id i w2)
      end
  end.

(** The job handler. [None] would mean that the wait loop outlived its
    fuel, which [offerJob_total] rules out. *)
Definition offerJob (env : WorkerEnv) (job : Job) (w : World)
    : option (Exit * World) :=
  match jobDispatchId job with
  | None => Some (NoOp, w)
  | Some id =>
      let w1 := await w in
      match dispatches w1 !! id with
      | None => Some (NoOp, w1)
      | Some d =>
          if decide (dispatchStatus d = DPending) then
            offerLoop env id d (ackSecOf env job)
              (drop (currentIndex d) (candidates d)) (currentIndex d) w1
          else Some (NoOp, w1)
      end
  end.

(** ** Properties of payloads, stated for the theorems below *)

Module MapsSpec.
Import Maps.








(** ROUTING_BASE_URL set; the table answers with one row per source. *)
Definition routedEnv (col : list (option Z)) : MapsEnv :=
  mkMapsEnv false None (Some (Some col)) None.

End MapsSpec.

(** ** Sample data for the worked scenarios *)

Definition emptyWorld : World :=
  mkWorld ∅ ∅ ∅ ∅ ∅ [] [] 0 [].

Definition pendingCandidate (captain : nat) (sock : string) (eta : Z)
    : Candidate :=
  mkCandidate captain (Some sock) (Some eta) CPending.

(** A pending dispatch of rider 1 with the given candidates. *)
Definition dispatchOf (cs : list Candidate) : Dispatch :=
  mkDispatch 1 "12.97,77.59" "12.93,77.62" (Some "car"%string) cs 0 None
    DPending.

(** A store holding one dispatch, with id 0, the rider 1 and what the
    other clients will do while the worker awaits. *)
Definition worldWith (d : Dispatch) (ticks : list Tick) : World :=
  mkWorld {[ 0%nat := d ]} ∅
    {[ 1%nat := mkAccount (Some "rider-socket"%string) None None ]} ∅ ∅ [] []
    0 ticks.

(** ** The sentences of the specification about /ack-offer *)

(** "Any other prior state yields Conflict", the late ack on a timed-out
    candidate returning Gone, with the dispatch left as it was. *)
Definition ackOfferClaim (dispatchId captain : nat) (accepted : bool)
    (w : World) : Prop :=
  ∀ d idx c,
    dispatches w !! dispatchId = Some d →
    dispatchStatus d = DPending →
    findIndex captain (candidates d) = Some idx →
    candidates d !! idx = Some c →
    candStatus c ≠ COffered →
    ∃ code message,
      ackOffer dispatchId captain accepted w = (Failure code message, w)
      ∧ (code = 409 ∨ (candStatus c = CTimeout ∧ code = 410)).

(** ** Sample upstreams for /offers/start *)

(** rides-service calling the maps-service above, with the routing table
    answering [col]; no ML calibration. *)
Definition upstreamOver (caps : list CaptainDoc) (col : list (option Z))
    : Upstream :=
  mkUpstream (λ pickup, Some pickup) (λ _ _ _ _, caps)
    (λ sources _ boundSec,
       match Maps.multiEta (MapsSpec.routedEnv col) true true sources boundSec with
       | Maps.Json p => Some p
       | Maps.Status _ => None
       end)
    None.

Definition threeCaptains : list CaptainDoc :=
  [mkCaptainDoc 11 (Some "sA"%string) (Some "12.98,77.60"%string);
   mkCaptainDoc 12 (Some "sB"%string) (Some "12.99,77.61"%string);
   mkCaptainDoc 13 (Some "sC"%string) (Some "12.96,77.58"%string)].

(** Three captains 240, 300 and 120 seconds away. *)
Definition fallbackUpstream : Upstream :=
  upstreamOver threeCaptains [Some 240; Some 300; Some 120].

(** The same captains and routes behind an ML calibration service that
    answers with a number for every entry, a null one included (it adds 30
    seconds, reading null as 0). *)
Definition calibratingUpstream : Upstream :=
  mkUpstream (resolvePickup fallbackUpstream) (findCaptains fallbackUpstream)
    (multiEtaCall fallbackUpstream)
    (Some (λ _ d, Some (default 0 d + 30))).

Definition startRequest (boundSec : option Z) (key : option string)
    : StartRequest :=
  mkStartRequest (Some 1%nat) "12.97,77.59" "12.93,77.62" (Some "car"%string)
    None None boundSec (Some 10) key.

(** ** The sentence of the specification about idempotent startDispatch *)

(** Two identical requests with the same client key, the second within the
    hour, return the same dispatchId; the second creates no Dispatch and
    enqueues no task. *)
Definition startIdempotentClaim (up : Upstream) (req : StartRequest)
    (w : World) : Prop :=
  ∀ key r1 w1 dt r2 w2,
    startIdempotencyKey req = Some key →
    offersStart up true req w = (Reply 201 r1, w1) →
    0 ≤ dt < 3600 * 1000 →
    offersStart up true req (advance dt w1) = (Reply 201 r2, w2) →
    replyDispatchId r2 = replyDispatchId r1
    ∧ dispatches w2 = dispatches w1
    ∧ offersQueue w2 = offersQueue w1.

(** ** The sentence of the specification about the bounded fallback *)

(** For a request with boundSec set whose bounded multiEta result has
    bestIndex = -1, the engine queries multiEta again without bound and
    uses the unbounded ordering, and the cursor of the persisted Dispatch
    is max(0, bestIndex). *)
Definition boundedFallbackClaim (up : Upstream) (queueConfigured : bool)
    (req : StartRequest) (w : World) : Prop :=
  ∀ uid b latLon bounded unbounded,
    let vt := normalizeVehicle (startVehicleType req) in
    let radiusKm := orDefaultQ (startRadiusKm req) 5 in
    let limit := orDefaultZ (startLimit req) 5 in
    let caps := findCaptains up vt latLon (maxDistance radiusKm) limit in
    let sources := omap capCoords caps in
    startAuth req = Some uid →
    startBoundSec req = Some b →
    resolvePickup up (startPickup req) = Some latLon →
    sources ≠ [] →
    multiEtaCall up sources latLon (Some b) = Some bounded →
    Maps.bestIndex bounded = -1 →
    multiEtaCall up sources latLon None = Some unbounded →
    ∃ plan r doc w',
      computeDispatch up (startPickup req) radiusKm limit (Some b) vt
      = Some plan
      ∧ planEtaCalls plan = [Some b; None]
      ∧ offersStart up queueConfigured req w = (Reply 201 r, w')
      ∧ dispatches w' !! replyDispatchId r = Some doc
      ∧ candidates doc = buildCandidates caps (Maps.durations unbounded)
      ∧ Z.of_nat (currentIndex doc) = Z.max 0 (Maps.bestIndex unbounded).

(** ** Invariants of the store *)

(** What never changes in a dispatch document once it is created. *)
Definition identityOf (d : Dispatch) :=
  (dispatchUser d, dispatchPickup d, dispatchDestination d, vehicleType d,
   (λ c, (captainId c, socketId c, etaSec c)) <$> candidates d).

Definition noneAssigned (d : Dispatch) : Prop :=
  Forall (λ c, candStatus c ≠ CAssigned) (candidates d).

(** No candidate but the one at currentIndex is assigned, and rideId names
    a ride of the store, for the dispatch's rider and trip. *)
Definition assignedOk (rs : gmap nat Ride) (d : Dispatch) : Prop :=
  (∀ j c, candidates d !! j = Some c → candStatus c = CAssigned →
     j = currentIndex d)
  ∧ ∃ r ride,
      rideId d = Some r
      ∧ rs !! r = Some ride
      ∧ rideUser ride = dispatchUser d
      ∧ ridePickup ride = dispatchPickup d
      ∧ rideDestination ride = dispatchDestination d.

Definition dispatchOk (rs : gmap nat Ride) (d : Dispatch) : Prop :=
  if decide (dispatchStatus d = DAssigned) then assignedOk rs d
  else noneAssigned d.

Definition storeOk (w : World) : Prop :=
  map_Forall (λ _ d, dispatchOk (rides w) d) (dispatches w).

(** The loop invariant of the job on dispatch [id]: the store is well
    formed and the dispatch is there, with its identity, not assigned. *)
Definition jobInv (id : nat)
    (ident : nat * string * string * option string
             * list (nat * option string * option Z)) (w : World) : Prop :=
  storeOk w
  ∧ ∃ d, dispatches w !! id = Some d
         ∧ identityOf d = ident
         ∧ dispatchStatus d ≠ DAssigned.

(** Dispatch [id] as the commit of line 79 leaves it, but for the statuses
    of its candidates: assigned, the cursor on [i], naming the ride
    [rid]. *)
Definition committed (id i rid : nat)
    (ident : nat * string * string * option string
             * list (nat * option string * option Z)) (w : World) : Prop :=
  ∃ d, dispatches w !! id = Some d
       ∧ dispatchStatus d = DAssigned
       ∧ currentIndex d = i
       ∧ rideId d = Some rid
       ∧ identityOf d = ident.

(** Candidate [i] of dispatch [id] has the status assigned, or the status
    ack or rejected that the write of an /ack-offer puts over it. *)
Definition committedCandidate (id i : nat) (w : World) : Prop :=
  ∃ d c, dispatches w !! id = Some d
         ∧ candidates d !! i = Some c
         ∧ (candStatus c = CAssigned ∨ candStatus c = CAck
            ∨ candStatus c = CRejected).

(** A write of /ack-offer to dispatch [id] that is apart from its read. *)
Definition lateWriteTo (id : nat) (a : ExtAction) : Prop :=
  match a with
  | AckWrite d _ _ => d = id
  | _ => False
  end.

(** While the worker runs on from [w], every /ack-offer for dispatch [id]
    is served with its read and its write in one await. *)
Definition noLateWrite (id : nat) (w : World) : Prop :=
  Forall (λ t, Forall (λ a, ¬ lateWriteTo id a) (served t)) (concurrent w).

(** ** The sentence of the specification about assigned dispatches *)

(** For every Dispatch with outcome assigned, exactly one candidate has
    status assigned, its index is the cursor, and rideId refers to an
    existing Ride whose status is accepted. *)
Definition assignedClaim (w : World) : Prop :=
  ∀ id d,
    dispatches w !! id = Some d → dispatchStatus d = DAssigned →
    ∃ c r ride,
      candidates d !! currentIndex d = Some c
      ∧ candStatus c = CAssigned
      ∧ (∀ j c', candidates d !! j = Some c' → candStatus c' = CAssigned →
           j = currentIndex d)
      ∧ rideId d = Some r
      ∧ rides w !! r = Some ride
      ∧ rideStatus ride = RAccepted.

(** ** Scenarios for the worker *)

Definition idle : Tick := mkTick 0 [].

(** The maps mock: 5 km and 15 minutes for every pair, no surge answer. *)
Definition mockFareEnv : FareEnv :=
  mkFareEnv (λ _ _, Some (5000, 900)) (λ _, None).

(** A worker whose GET /get-fare reaches the handler above. *)
Definition workerEnv : WorkerEnv :=
  mkWorkerEnv None
    (λ pickup destination,
       match getFare mockFareEnv pickup destination with
       | Reply _ t => Some t
       | Failure _ _ => None
       end)
    42.

(** A worker whose GET /get-fare fails. *)
Definition workerEnvNoFare : WorkerEnv := mkWorkerEnv None (λ _ _, None) 42.

Definition candA : Candidate := pendingCandidate 11 "sA" 240.
Definition candB : Candidate := pendingCandidate 12 "sB" 300.
Definition candC : Candidate := pendingCandidate 13 "sC" 360.

Definition jobFor (ackSec : Z) : Job := mkJob (Some 0%nat) (Some ackSec).

(** The job's result, for scenarios known to end. *)
Definition runJob (env : WorkerEnv) (job : Job) (w : World) : Exit * World :=
  default (Threw, w) (offerJob env job w).

(** The three awaits before the first sleep of a job: the load, the offer,
    the first read of the wait loop. *)
Definition untilFirstSleep : list Tick := [idle; idle; idle].

(** S1: A accepts during the first second of its offer. *)
Definition happyPath : World :=
  worldWith (dispatchOf [candA; candB; candC])
    (untilFirstSleep ++ [mkTick 0 [AckOffer 0 11 true]]).

(** S3: one candidate, who never answers. *)
Definition oneSilentCandidate : World := worldWith (dispatchOf [candA]) [].

(** A declines during the first second of its offer; B never answers. *)
Definition firstDeclines : World :=
  worldWith (dispatchOf [candA; candB])
    (untilFirstSleep ++ [mkTick 0 [AckOffer 0 11 false]]).

(** ackSec = 5: the dispatch is cancelled during the fifth (last) sleep of
    A's window, after the last read of that window. *)
Definition cancelledInLastSleep : World :=
  worldWith (dispatchOf [candA; candB])
    (replicate 11 idle ++ [mkTick 0 [CancelDispatch 0]]).

(** ** The sentences of the specification about the worker *)

(** C2 as stated: the exhausted job emits dispatch-failed and creates no
    ride. *)
Definition exhaustedClaim (env : WorkerEnv) (job : Job) (w : World) : Prop :=
  ∀ w', offerJob env job w = Some (Exhausted, w') →
    (∃ e, e ∈ emitted w' ∧ emitEvent e = "dispatch-failed"%string)
    ∧ rides w' = rides w.

(** C4 as stated, for the candidate at the cursor declining during the
    first second of its offer: its label stays rejected and the cursor moves
    on. *)
Definition rejectionClaim (env : WorkerEnv) (job : Job) (w : World) : Prop :=
  ∀ id d0 c exit w' d' c',
    jobDispatchId job = Some id →
    dispatches w !! id = Some d0 →
    candidates d0 !! currentIndex d0 = Some c →
    concurrent w
      = untilFirstSleep ++ [mkTick 0 [AckOffer id (captainId c) false]] →
    offerJob env job w = Some (exit, w') →
    dispatches w' !! id = Some d' →
    candidates d' !! currentIndex d0 = Some c' →
    candStatus c' = CRejected ∧ (currentIndex d0 < currentIndex d')%nat.

(** C9 as stated, for the worker: the ride it creates has a positive
    fare. *)
Definition workerFareClaim (env : WorkerEnv) (job : Job) (w : World) : Prop :=
  ∀ exit w' rid ride,
    offerJob env job w = Some (exit, w') →
    rides w !! rid = None → rides w' !! rid = Some ride →
    (0 < fare ride)%Q.

(** The dispatch of [happyPath] once A is assigned. *)
Definition happyPathAssigned : Dispatch :=
  mkDispatch 1 "12.97,77.59" "12.93,77.62" (Some "car"%string)
    [mkCandidate 11 (Some "sA"%string) (Some 240) CAssigned; candB; candC]
    0 (Some 0%nat) DAssigned.

(** S1, and then the captain starts the trip: GET /start-ride with the
    OTP of the ride. *)
Definition tripStarted : World :=
  (startRide (Some 11%nat) 0 "000042"
     (runJob workerEnv (jobFor 30) happyPath).2).2.

(** A answers twice, first accepting, then declining. Both requests are
    read during the first second of the offer, while the dispatch is
    pending; the first is written at once, the write of the second lands
    after the worker's commit, while the worker posts ride-offer-accepted
    (six awaits lie between: the read that finds the ack, and the five of
    the commit, lines 64 to 79). *)
Definition lateDecline : World :=
  worldWith (dispatchOf [candA; candB])
    (untilFirstSleep
     ++ [mkTick 0 [AckOffer 0 11 true]; idle; idle; idle; idle; idle; idle;
         mkTick 0 [AckWrite 0 0 false]]).

(** [firstDeclines] after the job has loaded the dispatch and posted the
    offer to A, and then when the wait on A is over. *)
Definition firstDeclinesOffered : World :=
  emit (offerEvent 0 (dispatchOf [candA; candB]) candA) (await firstDeclines).

Definition firstDeclinesWaited : World :=
  (default (Stopped, emptyWorld)
     (waitForAck 5 0 0 (clock firstDeclinesOffered) 5 firstDeclinesOffered)).2.

(** A accepts during the first second; the dispatch is cancelled while
    the worker, having seen the ack, reads the dispatch again (line 64). *)
Definition cancelledBeforeCommit : World :=
  worldWith (dispatchOf [candA; candB])
    (untilFirstSleep
     ++ [mkTick 0 [AckOffer 0 11 true]; idle; mkTick 0 [CancelDispatch 0]]).

(** [cancelledInLastSleep] when the wait on A is over. *)
Definition cancelledWaited : World :=
  let w1 := emit (offerEvent 0 (dispatchOf [candA; candB]) candA)
              (await cancelledInLastSleep) in
  (default (Stopped, emptyWorld) (waitForAck 5 0 0 (clock w1) 5 w1)).2.

(** The dispatch [id] is in the store, with the identity [ident]. *)
Definition identityKept (id : nat)
    (ident : nat * string * string * option string
             * list (nat * option string * option Z)) (w : World) : Prop :=
  ∃ d, dispatches w !! id = Some d ∧ identityOf d = ident.

(** The ride the worker creates for the dispatch it read as [cur]. *)
Definition workerRide (env : WorkerEnv) (cur : Dispatch) (captain : nat)
    : Ride :=
  mkRide (dispatchUser cur) (Some captain) (dispatchPickup cur)
    (dispatchDestination cur) (workerFare env cur) RAccepted
    (getOtp 6 (otpDraw env)).

(** A request to /create of rider 1, and the store after it. *)
Definition createRequest : CreateRequest :=
  mkCreateRequest (Some 1%nat) "12.97,77.59" "12.93,77.62" "moto"
    (Some "key-1"%string).

Definition afterCreate : World :=
  (create (λ _ _ _, "digest"%string) mockFareEnv true 42 createRequest
     emptyWorld).2.

(** A store with the ride 0 of rider 1, created as by /create, and the
    captain 11. *)
Definition rideCreated : World :=
  mkWorld ∅
    {[ 0%nat := mkRide 1 None "12.97,77.59" "12.93,77.62" 83 RPending
                  "000042" ]}
    {[ 1%nat := mkAccount (Some "rider-socket"%string)
                  (Some "$2b$10$hash"%string) None ]}
    {[ 11%nat := mkAccount (Some "sA"%string) (Some "$2b$10$hash"%string)
                   (Some "active"%string) ]}
    ∅ [] [] 0 [].

(** What /confirm by captain 11 answers for that ride, and the store it
    leaves; /start-ride serializes the document it read before its update,
    so its answer is the same object. *)
Definition confirmedOut : RideOut :=
  mkRideOut 0
    (Some (RefDoc (mkAccountOut 1 (Some "rider-socket"%string) None)))
    (Some (RefDoc (mkAccountOut 11 (Some "sA"%string) None)))
    "12.97,77.59" "12.93,77.62" 83 RAccepted (Some "000042"%string).

Definition afterConfirm : World := (confirm (Some 11%nat) 0 rideCreated).2.

(** * More of the services

    The rest of the code around the dispatch path: [requestWithRetry]; the
    surge factor and GET /get-distance-time of the maps-service; POST
    /end-ride, POST /auto-assign and POST /dispatch of the rides-service;
    what one job of the worker does; GET /table of the routing-service;
    the one-time passwords of the users-service. *)

(** ** requestWithRetry (maps-service lines 8-14, rides-service 108-114) *)

(** [fn] is what the [i]-th call of the thunk does: it throws an error or
    returns a value. The result is what the loop returns or throws, with
    the milliseconds spent in [delay] and the number of calls made. *)
Fixpoint retryFrom {E A : Type} (fn : nat → E + A) (backoff : Z) (i left : nat)
    (waited : Z) : (E + A) * Z * nat :=
  match fn i with
  | inr a => (inr a, waited, S i)
  | inl e =>
      match left with
      | O => (inl e, waited, S i)
      | S left' =>
          retryFrom fn backoff (S i) left' (waited + backoff * 2 ^ Z.of_nat i)
      end
  end.

(** [for (let i = 0; i <= retries; i++)]: [retries + 1] calls at most. *)
Definition requestWithRetry {E A : Type} (fn : nat → E + A) (retries : nat)
    (backoff : Z) : (E + A) * Z * nat :=
  retryFrom fn backoff 0 retries 0.

(** ** maps-service: the surge factor (lines 31-59) *)

(** [SURGE_BASELINE], [SURGE_MAX_MULT] and [SURGE_MIN_MULT] after
    [Number(process.env.X || default)], taken to be finite numbers. *)
Record SurgeConfig := mkSurgeConfig {
  surgeBaseline : Q;
  surgeMaxMult : Q;
  surgeMinMult : Q
}.

(** The values when none of the variables is set. *)
Definition defaultSurge : SurgeConfig := mkSurgeConfig 10 (3 # 2) 1.

(** [Math.max] and [Math.min] of two numbers. *)
Definition mathMax (a b : Q) : Q := if Qle_bool a b then b else a.
Definition mathMin (a b : Q) : Q := if Qle_bool a b then a else b.

(** Lines 48-53: from the demand to the factor. *)
Definition surgeFactorOf (cfg : SurgeConfig) (demand : Q) : Q :=
  if negb (Qle_bool (surgeBaseline cfg) 0) then
    let rel := ((demand - surgeBaseline cfg) / surgeBaseline cfg)%Q in
    mathMin (surgeMaxMult cfg)
      (mathMax (surgeMinMult cfg) (1 + mathMax 0 rel)%Q)
  else surgeMinMult cfg.

(** The cache of the maps-service in Redis: the stored factor and the
    time its key expires, in milliseconds. *)
Abbreviation SurgeCache := (gmap string (Q * Z)).

(** [`surge:factor:${zoneId}:${how}`], [how] being the hour of the week. *)
Definition surgeCacheKey (zoneId : string) (how : nat) : string :=
  ("surge:factor:" +:+ zoneId +:+ ":" +:+ idString how)%string.

(** [getSurgeFactorForZone(zoneId)] at time [now] (ms), in hour-of-week
    [how]. [redisOn] is whether [redis] is set; [mlDemand] is the first
    number of the ML service's prediction, [None] when [ML_BASE_URL] is
    unset, the call throws or the answer has no number there. The result
    is the factor and the cache after the call. *)
Definition getSurgeFactorForZone (cfg : SurgeConfig) (redisOn : bool)
    (mlDemand : option Q) (zoneId : string) (how : nat) (now : Z)
    (cache : SurgeCache) : Q * SurgeCache :=
  let key := surgeCacheKey zoneId how in
  let hit :=
    if redisOn then
      match cache !! key with
      | Some (v, expiry) => if now <? expiry then Some v else None
      | None => None
      end
    else None in
  match hit with
  | Some v => (v, cache)
  | None =>
      let demand := default 10%Q mlDemand in
      let factor := surgeFactorOf cfg demand in
      (factor,
       if redisOn then <[key := (factor, now + 300 * 1000)]> cache else cache)
  end.

(** The entry of a /get-fare answer for one vehicle type. *)
Definition fareEntry (v : Vehicle) (t : FareTable) : Z :=
  match v with Auto => fareAuto t | Car => fareCar t | Moto => fareMoto t end.

(** What POST /create answers to [createRequest] on the empty store. *)
Definition firstCreateOut : CreateOut :=
  mkCreateOut
    (toObjectPlain 0
       (mkRide 1 None "12.97,77.59" "12.93,77.62" 83 RPending "000042"))
    1.

(** ** rides-service: POST /end-ride (lines 519-540) *)

(** [Ride.findOne({ _id: rideId, captain: decoded._id })] with the two
    populates and [select('+otp')]. *)
Definition findRideOfCaptain (id captain : nat) (w : World) : option RideOut :=
  r ← rides w !! id;
  if decide (rideCaptain r = Some captain) then findRidePopulated true id w
  else None.

Definition endRide (auth : option nat) (ride : nat) (w : World)
    : Response RideOut * World :=
  match auth with
  | None => (Failure 500 "Unauthorized", w)
  | Some captain =>
    match findRideOfCaptain ride captain w with
    | None => (Failure 404 "Ride not found", w)
    | Some doc =>
      if decide (outStatus doc = ROngoing) then
        let w1 := setRides (alter (setRideStatus RCompleted) ride) w in
        let out := sanitize doc in
        match userSocket out with
        | None => (Failure 500 "Cannot read properties of null", w1)
        | Some sock =>
            (Reply 200 out,
             record (Emitted (mkEmit sock "ride-ended" (RideData out))) w1)
        end
      else (Failure 400 "Ride not ongoing", w)
    end
  end.

(** The three requests that move a ride through its life, as one type. *)
Inductive RideRequest :=
| ConfirmReq (auth : option nat) (ride : nat)
| StartReq (auth : option nat) (ride : nat) (givenOtp : string)
| EndReq (auth : option nat) (ride : nat).

Definition serveRide (q : RideRequest) (w : World)
    : Response RideOut * World :=
  match q with
  | ConfirmReq auth ride => confirm auth ride w
  | StartReq auth ride givenOtp => startRide auth ride givenOtp w
  | EndReq auth ride => endRide auth ride w
  end.

(** The requests of a list, served one after the other. *)
Definition serveRides (qs : list RideRequest) (w : World) : World :=
  foldl (λ w' q, (serveRide q w').2) w qs.

(** What no request changes in a ride. *)
Definition rideTerms (r : Ride) :=
  (rideUser r, ridePickup r, rideDestination r, fare r, otp r).

(** ** dispatcher-worker: what one job does *)

(** The events of the acked branch (lines 86-90): the offer-accepted event
    to the candidate, and the ride-assigned event to the rider when the
    rider's account has a socket id. *)
Definition assignmentEvents (id rid : nat) (c : Candidate)
    (riderSocket : option string) : list Emit :=
  mkEmit (socketId c) "ride-offer-accepted" (OfferAcceptedData id rid)
  :: match riderSocket with
     | Some s =>
         if String.eqb s EmptyString then []
         else [mkEmit (Some s) "ride-assigned" (RideAssignedData rid)]
     | None => []
     end.

(** [user?.socketId] of the dispatch's rider. *)
Definition riderSocketOf (w : World) (d : Dispatch) : option string :=
  u ← users w !! dispatchUser d; accountSocketId u.

(** The dispatch [id] is in the store with the given identity and cursor. *)
Definition tracked (id : nat)
    (ident : nat * string * string * option string
             * list (nat * option string * option Z))
    (cursor : nat) (w : World) : Prop :=
  ∃ d, dispatches w !! id = Some d ∧ identityOf d = ident
       ∧ currentIndex d = cursor.

(** What the offer loop has done when it ends with [exit], started at
    index [i] on the candidates [rest] of the snapshot [d], [k] of them
    having timed out. *)
Definition loopOutcome (env : WorkerEnv) (id : nat) (d : Dispatch)
    (ackSec : Z) (rest : list Candidate) (i : nat) (w w' : World)
    (exit : Exit) (k : nat) : Prop :=
  users w' = users w
  ∧ clock w + Z.of_nat k * (ackSec * 1000) ≤ clock w'
  ∧ match exit with
    | Exhausted =>
        k = length rest
        ∧ rides w' = rides w
        ∧ captains w' = captains w
        ∧ emitted w' = emitted w ++ (offerEvent id d <$> rest)
        ∧ ∃ d', dispatches w' !! id = Some d'
                ∧ dispatchStatus d' = DCancelled
                ∧ identityOf d' = identityOf d
                ∧ currentIndex d' = (i + k)%nat
    | Aborted =>
        (k < length rest)%nat
        ∧ rides w' = rides w
        ∧ captains w' = captains w
        ∧ emitted w' = emitted w ++ (offerEvent id d <$> take (S k) rest)
        ∧ ∃ d', dispatches w' !! id = Some d'
                ∧ dispatchStatus d' ≠ DPending
                ∧ identityOf d' = identityOf d
                ∧ currentIndex d' = (i + k)%nat
    | Assigned =>
        ∃ c rid d',
          rest !! k = Some c
          ∧ rides w !! rid = None
          ∧ rides w' = <[rid := workerRide env d (captainId c)]> (rides w)
          ∧ captains w'
            = alter (setAccountStatus "inactive") (captainId c) (captains w)
          ∧ emitted w'
            = emitted w ++ (offerEvent id d <$> take (S k) rest)
              ++ assignmentEvents id rid c (riderSocketOf w d)
          ∧ dispatches w' !! id = Some d'
          ∧ dispatchStatus d' = DAssigned
          ∧ currentIndex d' = (i + k)%nat
          ∧ rideId d' = Some rid
          ∧ identityOf d' = identityOf d
    | NoOp | Threw => False
    end.

(** ** rides-service: POST /auto-assign (lines 362-410) *)

Record AutoAssignReply := mkAutoAssignReply {
  autoDispatchId : nat;
  autoAckSec : Z;
  autoCandidates : nat
}.

(** The handler repeats /offers/start and answers 202 with
    [{ status: 'pending', dispatchId, ackSec, candidates }]. *)
Definition autoAssign (up : Upstream) (queueConfigured : bool)
    (req : StartRequest) (w : World) : Response AutoAssignReply * World :=
  match startAuth req with
  | None => (Failure 500 "Unauthorized", w)
  | Some uid =>
    let radiusKm := orDefaultQ (startRadiusKm req) 5 in
    let limit := orDefaultZ (startLimit req) 5 in
    let ackSec := orDefaultZ (startAckSec req) 30 in
    let vt := normalizeVehicle (startVehicleType req) in
    match computeDispatch up (startPickup req) radiusKm limit
            (startBoundSec req) vt with
    | None => (Failure 500 "upstream", w)
    | Some plan =>
      match planCaptains plan with
      | [] => (Failure 404 "No captains nearby", w)
      | caps =>
        let cands := buildCandidates caps (planDurations plan) in
        let id := fresh (dom (dispatches w)) in
        let doc := mkDispatch uid (startPickup req) (startDestination req) vt
                     cands (startIndex (planBestIndex plan)) None DPending in
        let w1 := setDispatches (insert id doc) w in
        let w2 := if queueConfigured
                  then enqueue (mkJob (Some id) (Some ackSec)) w1 else w1 in
        (Reply 202 (mkAutoAssignReply id ackSec (length cands)), w2)
      end
    end
  end.

(** ** rides-service: POST /dispatch (lines 263-339) *)

(** One entry of [candidates] in the answer: the captain's id and location
    and [durations[i]], which is absent beyond the end of [durations]. *)
Record PreviewCandidate := mkPreviewCandidate {
  previewId : nat;
  previewLocation : option string;
  previewEtaSec : option (option Z)
}.

Record DispatchPreview := mkDispatchPreview {
  previewPickup : string;
  previewCandidates : list PreviewCandidate;
  previewBestIndex : Z;
  previewBestCaptainId : option nat;           (* bestCaptain?._id *)
  previewBestEtaSec : option (option Z)        (* durations[bestIndex] *)
}.

(** The handler takes no token. [etaOnce] is the answer of one GET
    /multi-eta, which this handler does not retry; the other answers are
    those of [up]. *)
Definition dispatchPreview (up : Upstream)
    (etaOnce : list string → string → option Z → option Maps.EtaPayload)
    (req : StartRequest) : Response DispatchPreview :=
  let radiusKm := orDefaultQ (startRadiusKm req) 5 in
  let limit := orDefaultZ (startLimit req) 10 in
  let boundSec := startBoundSec req in
  let vt := normalizeVehicle (startVehicleType req) in
  match resolvePickup up (startPickup req) with
  | None => Failure 500 "upstream"
  | Some latLon =>
    match findCaptains up vt latLon (maxDistance radiusKm) limit with
    | [] => Failure 404 "No captains nearby"
    | caps =>
      match omap capCoords caps with
      | [] => Failure 404 "No captains with valid locations"
      | sources =>
        match etaOnce sources latLon boundSec with
        | None => Failure 500 "upstream"
        | Some r =>
          let answer :=
            match boundSec with
            | Some _ =>
                if (Maps.bestIndex r =? -1) || allNull (Maps.durations r)
                then etaOnce sources latLon None
                else Some r
            | None => Some r
            end in
          match answer with
          | None => Failure 500 "upstream"
          | Some p =>
            if Maps.bestIndex p <? 0 then Failure 404 "No captain within bound"
            else
              let best := Z.to_nat (Maps.bestIndex p) in
              Reply 200
                (mkDispatchPreview latLon
                   (imap (λ i c, mkPreviewCandidate (capId c) (capCoords c)
                                   (Maps.durations p !! i)) caps)
                   (Maps.bestIndex p)
                   (capId <$> caps !! best)
                   (Maps.durations p !! best))
          end
        end
      end
    end
  end.

(** ** rides-service in front of the maps-service *)

(** The upstream answers when GET /multi-eta is served by the handler
    above in the environment [env], the ML endpoint being unset. The
    [sources] and [destination] query parameters that computeDispatch
    sends are not empty. *)
Definition upstreamVia (env : Maps.MapsEnv) (resolve : string → option string)
    (find : option string → string → Q → Z → list CaptainDoc) : Upstream :=
  mkUpstream resolve find
    (λ sources _ boundSec,
       match Maps.multiEta env true true sources boundSec with
       | Maps.Json p => Some p
       | Maps.Status _ => None
       end)
    None.


(** The routing duration from the location of a captain, when it has one;
    [eta] is the duration from a source. *)
Definition routeEta (eta : string → option Z) (c : CaptainDoc) : option Z :=
  coords ← capCoords c; eta coords.

(** The column of the routing table for the captains' locations. *)
Definition routeColumn (eta : string → option Z) (caps : list CaptainDoc)
    : list (option Z) :=
  eta <$> omap capCoords caps.

(** ** routing-service: GET /table (server.js lines 71-134) *)

Module Routing.

(** A parsed [lat,lon] pair; the coordinates are taken to be numbers. *)
Definition Point : Type := Q * Q.

(** A matrix cell: a number or [null]. *)
Abbreviation Matrix := (list (list (option Q))).

Record Table := mkTable {
  tableDurations : Matrix;
  tableDistances : Matrix
}.

(** [estimateDurationMeters(m)] with the default speed 8.33 m/s. *)
Definition estimateDurationMeters (m : Q) : Q := (m / (833 # 100))%Q.

(** [src[i][0] === dst[j][0] && src[i][1] === dst[j][1]] *)
Definition samePoint (a b : Point) : bool :=
  Qeq_bool (fst a) (fst b) && Qeq_bool (snd a) (snd b).

(** [x == null || (!samePoint && x === 0)]; a cell beyond the end of its
    row reads as [undefined], which [== null] accepts as well. *)
Definition needsFill (same : bool) (x : option Q) : bool :=
  match x with
  | None => true
  | Some v => negb same && Qeq_bool v 0
  end.

Section WithHaversine.

(** [haversine(a, b)], the great-circle distance in meters, taken to be a
    number for every pair of points. *)
Variable haversine : Point → Point → Q.

(** The inner loop (lines 105-115) over the destinations from index [j]
    on; [durs] and [dists] are row [i] of the two matrices from [j] on.
    Writing to a cell just beyond the end of a row extends the row. *)
Fixpoint fillRow (s : Point) (dsts : list Point) (durs dists : list (option Q))
    : list (option Q) * list (option Q) :=
  match dsts with
  | [] => (durs, dists)
  | d :: dsts' =>
      let same := samePoint s d in
      let dur := hd None durs in
      let dist := hd None dists in
      let cell :=
        if needsFill same dur then
          let m := haversine s d in
          (Some (estimateDurationMeters m), Some m)
        else if needsFill same dist then
          (dur, (λ v, v * (833 # 100))%Q <$> dur)
        else (dur, dist) in
      let rest := fillRow s dsts' (tl durs) (tl dists) in
      (cell.1 :: rest.1, cell.2 :: rest.2)
  end.

(** The outer loop (line 104). Reading a cell of a row that the answer does
    not have throws ([None]); with no destination no cell is read. *)
Fixpoint fillRows (srcs : list Point) (dsts : list Point)
    (durRows distRows : Matrix) : option (Matrix * Matrix) :=
  match srcs with
  | [] => Some (durRows, distRows)
  | s :: srcs' =>
      match dsts with
      | [] => Some (durRows, distRows)
      | _ =>
          match durRows, distRows with
          | durs :: durRows', dists :: distRows' =>
              rest ← fillRows srcs' dsts durRows' distRows';
              let row := fillRow s dsts durs dists in
              Some (row.1 :: rest.1, row.2 :: rest.2)
          | _, _ => None
          end
      end
  end.

(** Lines 126-127: the fallback table. *)
Definition haversineTable (srcs dsts : list Point) : Table :=
  let distances := (λ s, (λ d, Some (haversine s d)) <$> dsts) <$> srcs in
  mkTable
    ((λ row, (λ m, estimateDurationMeters <$> m) <$> row) <$> distances)
    distances.

(** The body of an OSRM answer with [r.ok]: [durations], and [distances]
    when present. *)
Record OsrmData := mkOsrmData {
  osrmDurations : Matrix;
  osrmDistances : option Matrix
}.

(** [durations.map(row => row.map(sec => (sec == null ? null : sec * 8.33)))] *)
Definition distancesFrom (durations : Matrix) : Matrix :=
  (λ row : list (option Q),
     (λ sec : option Q, (λ v, v * (833 # 100))%Q <$> sec) <$> row)
  <$> durations.

(** The handler on a cache miss, for parsed sources and destinations.
    [osrm] is [None] when OSRM_BASE_URL is unset, the request fails, or the
    answer is not ok or has no durations. *)
Definition table (osrm : option OsrmData) (srcs dsts : list Point) : Table :=
  match osrm with
  | Some data =>
      let durations := osrmDurations data in
      let distances := default (distancesFrom durations) (osrmDistances data) in
      match fillRows srcs dsts durations distances with
      | Some (durs, dists) => mkTable durs dists
      | None => haversineTable srcs dsts
      end
  | None => haversineTable srcs dsts
  end.

End WithHaversine.

(** The cell [m[i][j]]. *)
Definition cell (m : Matrix) (i j : nat) : option (option Q) :=
  row ← m !! i; row !! j.

End Routing.

(** ** users-service: one-time passwords (the second document of
    dispatcher-worker/worker.js, lines 287-377) *)

Module Otp.

(** The two handlers proper: a request reaches them when the
    address-based [authLimiter] (100 requests in 10 minutes) lets it
    through.

    The three key families of the service in Redis, [otp:rl:<ident>],
    [otp:attempts:<ident>] and [otp:users:<ident>], each as a map from the
    identifier to the value and the instant (ms) its key expires. Keys of
    different families differ in their prefix. *)
Record Store := mkStore {
  rateLimits : gmap string (Z * Z);
  attemptCounts : gmap string (Z * Z);
  otpHashes : gmap string (string * Z)
}.

(** [redis.incr(key)] followed by [if (count === 1) redis.expire(key, sec)]:
    a key that is missing or has expired restarts at 1 with a new expiry,
    a live key is incremented and keeps its expiry. *)
Definition incr (windowSec : Z) (key : string) (now : Z)
    (m : gmap string (Z * Z)) : Z * gmap string (Z * Z) :=
  match m !! key with
  | Some (n, expiry) =>
      if now <? expiry then (n + 1, <[key := (n + 1, expiry)]> m)
      else (1, <[key := (1, now + windowSec * 1000)]> m)
  | None => (1, <[key := (1, now + windowSec * 1000)]> m)
  end.

(** [email || phone]: the first of the two that is a non-empty string. *)
Definition truthy (s : option string) : option string :=
  match s with
  | Some v => if String.eqb v EmptyString then None else Some v
  | None => None
  end.

Definition identOf (email phone : option string) : option string :=
  match truthy email with
  | Some e => Some e
  | None => truthy phone
  end.

(** The configuration and the surroundings of the two handlers. *)
Record Env := mkEnv {
  redisOn : bool;                      (* REDIS_URL set *)
  sha256 : string → string;            (* createHash('sha256')...digest('hex') *)
  pepper : string;                     (* process.env.OTP_PEPPER || '' *)
  production : bool;                   (* NODE_ENV === 'production' *)
  userByEmail : string → option nat    (* User.findOne({ email }) *)
}.

(** The body of a 200 answer of /otp/request, without the masked address
    (the masking functions do not fail and nothing depends on them). *)
Record Sent := mkSent {
  sentChannel : string;
  sentDevOtp : option string
}.

(** POST /otp/request at time [now]; [otp] is what [makeOtp()] draws.
    The delivery through the notification-service is best effort and its
    failure is ignored, so it does not appear. *)
Definition request (env : Env) (email phone : option string) (otp : string)
    (now : Z) (st : Store) : Response Sent * Store :=
  if negb (redisOn env) then (Failure 503 "OTP unavailable", st)
  else match identOf email phone with
  | None => (Failure 400 "email or phone required", st)
  | Some ident =>
      let (count, rl) := incr 60 ident now (rateLimits st) in
      let st1 := mkStore rl (attemptCounts st) (otpHashes st) in
      if 3 <? count then (Failure 429 "Too many requests", st1)
      else
        let hashed := sha256 env (otp +:+ pepper env) in
        let st2 := mkStore rl (attemptCounts st)
                     (<[ident := (hashed, now + 300 * 1000)]> (otpHashes st)) in
        (Reply 200
           (mkSent (match truthy email with
                    | Some _ => "email"
                    | None => "sms"
                    end)
              (if production env then None else Some otp)),
         st2)
  end.

(** [redis.get(key)] *)
Definition stored (ident : string) (now : Z) (st : Store) : option string :=
  match otpHashes st !! ident with
  | Some (h, expiry) => if now <? expiry then Some h else None
  | None => None
  end.

(** POST /otp/verify at time [now]; the body of a 200 answer is the id of
    the user the token is signed for. *)
Definition verify (env : Env) (email phone : option string) (otp : string)
    (now : Z) (st : Store) : Response nat * Store :=
  if negb (redisOn env) then (Failure 503 "OTP unavailable", st)
  else match identOf email phone with
  | None => (Failure 400 "email or phone required", st)
  | Some ident =>
      let (attempts, ac) := incr 600 ident now (attemptCounts st) in
      let st1 := mkStore (rateLimits st) ac (otpHashes st) in
      if 5 <? attempts then (Failure 429 "Too many attempts, try later", st1)
      else match stored ident now st1 with
      | None => (Failure 400 "OTP expired or not found", st1)
      | Some h =>
          if negb (String.eqb h (sha256 env (otp +:+ pepper env))) then
            (Failure 401 "Invalid OTP", st1)
          else
            let st2 := mkStore (rateLimits st) ac (delete ident (otpHashes st)) in
            match (e ← truthy email; userByEmail env e) with
            | None => (Failure 404 "User not found, please register", st2)
            | Some uid => (Reply 200 uid, st2)
            end
      end
  end.

(** The status code of an answer. *)
Definition codeOf {A} (r : Response A) : Z :=
  match r with Reply c _ => c | Failure c _ => c end.

(** Requests for one identifier, one after the other: each with the time
    it is served at and the OTP drawn for it. The result is the status
    codes, in order, and the store at the end. *)
Fixpoint requests (env : Env) (email phone : option string)
    (calls : list (Z * string)) (st : Store) : list Z * Store :=
  match calls with
  | [] => ([], st)
  | (now, otp) :: calls' =>
      let r := request env email phone otp now st in
      let rest := requests env email phone calls' r.2 in
      (codeOf r.1 :: rest.1, rest.2)
  end.

(** Verifications for one identifier, likewise, with the OTP tried. *)
Fixpoint verifies (env : Env) (email phone : option string)
    (calls : list (Z * string)) (st : Store) : list Z * Store :=
  match calls with
  | [] => ([], st)
  | (now, otp) :: calls' =>
      let r := verify env email phone otp now st in
      let rest := verifies env email phone calls' r.2 in
      (codeOf r.1 :: rest.1, rest.2)
  end.

(** The key is missing or has expired at [now]. *)
Definition dead {A} (m : gmap string (A * Z)) (key : string) (now : Z) : Prop :=
  ∀ v expiry, m !! key = Some (v, expiry) → expiry ≤ now.

(** One call of either handler, for any identifier: the body fields, the
    OTP tried (or drawn, for a request) and the time it is served at. *)
Inductive Call :=
| Verify (email phone : option string) (otp : string) (now : Z)
| Request (email phone : option string) (otp : string) (now : Z).

Definition serveCall (env : Env) (c : Call) (st : Store) : Z * Store :=
  match c with
  | Verify email phone otp now =>
      let r := verify env email phone otp now st in (codeOf r.1, r.2)
  | Request email phone otp now =>
      let r := request env email phone otp now st in (codeOf r.1, r.2)
  end.

(** Calls served one after the other: the status codes, in order, and the
    store at the end. *)
Fixpoint serveCalls (env : Env) (cs : list Call) (st : Store)
    : list Z * Store :=
  match cs with
  | [] => ([], st)
  | c :: cs' =>
      let r := serveCall env c st in
      let rest := serveCalls env cs' r.2 in
      (r.1 :: rest.1, rest.2)
  end.

(** The call is a request of a new OTP for [ident]. *)
Definition requestsOtpFor (ident : string) (c : Call) : Prop :=
  match c with
  | Request email phone _ _ => identOf email phone = Some ident
  | Verify _ _ _ _ => False
  end.

End Otp.

(** ** maps-service: GET /get-distance-time (lines 195-235) *)

(** The answer of the Google distance matrix. *)
Inductive GoogleDistance :=
| GoogleElement (distance duration : Z)   (* status OK, element with values *)
| GoogleZeroResults                       (* status OK, element ZERO_RESULTS *)
| GoogleNotOk                             (* another status *)
| GoogleThrew (message : string).         (* the request throws *)

(** What the handler finds around it. A value of the payload is [None]
    when it serializes as JSON [null]. *)
Record DistanceEnv := mkDistanceEnv {
  distRoutingBase : bool;               (* ROUTING_BASE_URL set *)
  distResolved : bool;                  (* both resolveAddressOrCoords return *)
  distCached : option (option Z * option Z);   (* redis.get(cacheKey), a hit *)
  distTable : option Routing.Table;     (* GET /table through requestWithRetry *)
  distUseMock : bool;                   (* useMock() *)
  distGoogle : GoogleDistance
}.

(** [Math.round(m[0][0])]: reading [m[0]] of a matrix without rows throws
    (the outer [None]); [Math.round(null)] is 0 and [Math.round(undefined)]
    is NaN, which serializes as [null]. *)
Definition roundedCell (m : list (list (option Q))) : option (option Z) :=
  row ← m !! 0%nat;
  Some match row !! 0%nat with
       | Some (Some q) => Some (mathRound q)
       | Some None => Some 0
       | None => None
       end.

(** The body of a 200 answer is (distance.value, duration.value). *)
Definition mapsDistanceTime (env : DistanceEnv)
    (originGiven destinationGiven : bool)
    : Response (option Z * option Z) :=
  if negb originGiven || negb destinationGiven then
    Failure 400 "origin and destination required"
  else
    let routed :=
      if distRoutingBase env && distResolved env then
        match distCached env with
        | Some payload => Some payload
        | None =>
            t ← distTable env;
            duration ← roundedCell (Routing.tableDurations t);
            distance ← roundedCell (Routing.tableDistances t);
            Some (distance, duration)
        end
      else None in
    match routed with
    | Some payload => Reply 200 payload
    | None =>
        if distUseMock env then Reply 200 (Some 5000, Some 900)
        else match distGoogle env with
             | GoogleElement distance duration =>
                 Reply 200 (Some distance, Some duration)
             | GoogleZeroResults => Failure 404 "No routes found"
             | GoogleNotOk => Failure 500 "Unable to fetch distance and time"
             | GoogleThrew message => Failure 500 message
             end
    end.

(** Every number of a matrix is at least 0. *)
Definition nonNegative (m : list (list (option Q))) : Prop :=
  ∀ i j x, Routing.cell m i j = Some (Some x) → (0 <= x)%Q.

(** The answers the fare handlers of the rides-service get when GET
    /get-distance-time is served by the handler above: a 4xx or 5xx answer
    makes the request throw, and a [null] value counts as 0 in the fare
    arithmetic. *)
Definition fareEnvVia (env : DistanceEnv) (surge : string → option Q)
    : FareEnv :=
  mkFareEnv
    (λ _ _,
       match mapsDistanceTime env true true with
       | Reply _ (distance, duration) =>
           Some (default 0 distance, default 0 duration)
       | Failure _ _ => None
       end)
    surge.

(** * Properties *)

(** ** /multi-eta *)

Import Maps MapsSpec.


Lemma boundEntry_gt b x : b < x → boundEntry b (Some x) = None.
Proof. intros H. simpl. destruct (Z.leb_spec x b); [lia | done]. Qed.

Lemma boundEntry_keep b x : x ≤ b → boundEntry b (Some x) = Some x.
Proof. intros H. simpl. destruct (Z.leb_spec x b); [done | lia]. Qed.











(** ** /ack-offer *)

Lemma findIndexFrom_Some captain cs : ∀ i idx,
  findIndexFrom i captain cs = Some idx →
  (i ≤ idx)%nat ∧ ∃ c, cs !! (idx - i)%nat = Some c ∧ captainId c = captain.
Proof.
  induction cs as [|c cs IH]; intros i idx; simpl; [done |].
  destruct (decide (captainId c = captain)) as [Heq | Hne].
  - intros [= <-]. split; [lia |]. exists c. by rewrite Nat.sub_diag.
  - intros H. destruct (IH _ _ H) as [Hle (c' & Hc' & Hid)].
    split; [lia |]. exists c'. split; [| done].
    replace (idx - i)%nat with (S (idx - S i)) by lia. done.
Qed.

Lemma findIndex_Some captain cs idx :
  findIndex captain cs = Some idx →
  ∃ c, cs !! idx = Some c ∧ captainId c = captain.
Proof.
  intros H. destruct (findIndexFrom_Some _ _ _ _ H) as [_ (c & Hc & Hid)].
  exists c. by rewrite Nat.sub_0_r in Hc.
Qed.

Lemma lookup_updateDispatch id f w id' :
  dispatches (updateDispatch id f w) !! id'
  = if decide (id = id') then f <$> dispatches w !! id
    else dispatches w !! id'.
Proof. unfold updateDispatch. simpl. apply lookup_alter. Qed.

Lemma candidates_setCandStatus i s d c :
  candidates d !! i = Some c →
  candidates (setCandStatus i s d)
  = <[i := mkCandidate (captainId c) (socketId c) (etaSec c) s]> (candidates d).
Proof.
  intros Hc. simpl. apply list_eq. intros j.
  destruct (decide (i = j)) as [<- | Hne].
  - rewrite list_lookup_alter_eq, Hc, list_lookup_insert_eq; [done |].
    by apply lookup_lt_Some in Hc.
  - by rewrite list_lookup_alter_ne, list_lookup_insert_ne.
Qed.

(** C1 (as amended). /ack-offer does not look at the candidate's prior
    status. When the dispatch exists, is pending and lists the captain, the
    call answers 200 and writes ack (accepted) or rejected (not accepted)
    over whatever status the candidate had, changing nothing else of the
    dispatch; in every other case it answers 404 and changes nothing. It
    never answers 409 or 410. *)
Theorem ackOffer_unconditional (dispatchId captain : nat) (accepted : bool)
    (w : World) :
  let s := if accepted then CAck else CRejected in
  (∃ d idx c w',
      dispatches w !! dispatchId = Some d
      ∧ dispatchStatus d = DPending
      ∧ findIndex captain (candidates d) = Some idx
      ∧ candidates d !! idx = Some c
      ∧ ackOffer dispatchId captain accepted w = (Reply 200 true, w')
      ∧ dispatches w' !! dispatchId
        = Some (mkDispatch (dispatchUser d) (dispatchPickup d)
                  (dispatchDestination d) (vehicleType d)
                  (<[idx := mkCandidate captain (socketId c) (etaSec c) s]>
                     (candidates d))
                  (currentIndex d) (rideId d) DPending)
      ∧ (∀ other, other ≠ dispatchId →
           dispatches w' !! other = dispatches w !! other)
      ∧ rides w' = rides w ∧ trace w' = trace w)
  ∨ (∃ message,
      ackOffer dispatchId captain accepted w = (Failure 404 message, w)
      ∧ ∀ d, dispatches w !! dispatchId = Some d →
          dispatchStatus d ≠ DPending
          ∨ findIndex captain (candidates d) = None).
Proof.
  intros s. unfold ackOffer.
  destruct (dispatches w !! dispatchId) as [d|] eqn:Ed; [| right; eauto].
  destruct (decide (dispatchStatus d = DPending)) as [Hp | Hp].
  - destruct (findIndex captain (candidates d)) as [idx|] eqn:Ei.
    + left. destruct (findIndex_Some _ _ _ Ei) as (c & Hc & Hid).
      eexists d, idx, c, _. split_and!; try done.
      * rewrite lookup_updateDispatch, decide_True, Ed by done. simpl.
        f_equal. rewrite <- Hid, <- Hp.
        rewrite <- (candidates_setCandStatus idx s d c Hc). done.
      * intros other Hne. by rewrite lookup_updateDispatch, decide_False.
    + right. eexists. split; [done |]. intros d' [= <-]. by right.
  - right. eexists. split; [done |]. intros d' [= <-]. by left.
Qed.

(** C1 (counterexample). A late accept on a candidate already marked
    timeout is answered 200 and overwrites the status with ack. *)
Lemma ackOffer_late_ack_overwrites :
  ¬ ackOfferClaim 0 7 true
      (worldWith
         (dispatchOf [mkCandidate 7 (Some "s7"%string) (Some 240) CTimeout;
                      pendingCandidate 8 "s8" 300]) []).
Proof.
  intros H.
  destruct (H _ 0%nat _ eq_refl eq_refl eq_refl eq_refl ltac:(done))
    as (code & message & Hack & _).
  vm_compute in Hack. discriminate Hack.
Qed.

(** ** computeDispatch and /offers/start *)

Lemma normalizeVehicle_idem vt :
  normalizeVehicle (normalizeVehicle vt) = normalizeVehicle vt.
Proof.
  destruct vt as [s|]; simpl; [| done].
  destruct (String.eqb s "moto") eqn:E; simpl; [done |]. by rewrite E.
Qed.

(** Without an ML endpoint the calibration step is the identity. *)
Lemma calibrated_without_ml up p : calibrate up = None → calibrated up p = p.
Proof. unfold calibrated. by intros ->. Qed.

(** C5 (as amended). The engine tests the bounded multiEta result as it
    holds it after the optional ML calibration step: with ML_BASE_URL
    unset that is the multiEta result itself, with ML_BASE_URL set it is
    the result with the calibrated durations and the best index recomputed
    from them. When boundSec is set and that result has bestIndex = -1,
    computeDispatch queries /multi-eta a second time without bound, and
    /offers/start persists a dispatch whose candidates carry the durations
    of the unbounded answer as returned (it is not calibrated) and whose
    currentIndex is max(0, bestIndex) of that answer. *)
Theorem offersStart_bounded_fallback (up : Upstream) (queueConfigured : bool)
    (req : StartRequest) (w : World) (uid : nat) (b : Z) (latLon : string)
    (bounded unbounded : EtaPayload) :
  let vt := normalizeVehicle (startVehicleType req) in
  let radiusKm := orDefaultQ (startRadiusKm req) 5 in
  let limit := orDefaultZ (startLimit req) 5 in
  let caps := findCaptains up vt latLon (maxDistance radiusKm) limit in
  let sources := omap capCoords caps in
  startAuth req = Some uid →
  startBoundSec req = Some b →
  resolvePickup up (startPickup req) = Some latLon →
  sources ≠ [] →
  multiEtaCall up sources latLon (Some b) = Some bounded →
  (calibrate up = None ∧ bestIndex bounded = -1)
  ∨ bestIndex (calibrated up bounded) = -1 →
  multiEtaCall up sources latLon None = Some unbounded →
  (∃ plan,
      computeDispatch up (startPickup req) radiusKm limit (Some b) vt
      = Some plan
      ∧ planEtaCalls plan = [Some b; None]
      ∧ planDurations plan = durations unbounded
      ∧ planBestIndex plan = bestIndex unbounded)
  ∧ ∃ id doc w',
      offersStart up queueConfigured req w
      = (Reply 201 (mkStartReply id (length caps) (currentIndex doc)
                      (orDefaultZ (startAckSec req) 30)), w')
      ∧ dispatches w !! id = None
      ∧ dispatches w' !! id = Some doc
      ∧ candidates doc = buildCandidates caps (durations unbounded)
      ∧ Z.of_nat (currentIndex doc) = Z.max 0 (bestIndex unbounded)
      ∧ dispatchStatus doc = DPending.
Proof.
  intros vt radiusKm limit caps sources Hauth Hb Hres Hsrc Hq1 Htest Hq2.
  assert (bestIndex (calibrated up bounded) = -1) as Hbest.
  { destruct Htest as [[Hml Hbest] | Hbest]; [| done].
    by rewrite calibrated_without_ml. }
  assert (computeDispatch up (startPickup req) radiusKm limit (Some b) vt
          = Some (mkPlan latLon caps (durations unbounded)
                    (bestIndex unbounded) [Some b; None])) as Hplan.
  { unfold computeDispatch. rewrite Hres. simpl.
    unfold vt. rewrite normalizeVehicle_idem.
    fold vt. fold caps. fold sources.
    destruct caps as [|c0 caps0] eqn:Ecaps; [done |].
    destruct sources as [|s0 sources0] eqn:Esrc; [done |].
    rewrite Hq1. simpl. rewrite Hbest. simpl. rewrite Hq2. done. }
  split; [eauto |].
  unfold offersStart. rewrite Hauth, Hb.
  fold vt radiusKm limit. rewrite Hplan. simpl.
  destruct caps as [|c0 caps0] eqn:Ecaps; [done |].
  set (id := fresh (dom (dispatches w))).
  eexists id,
    (mkDispatch uid (startPickup req) (startDestination req) vt
       (buildCandidates (c0 :: caps0) (durations unbounded))
       (startIndex (bestIndex unbounded)) None DPending), _.
  split_and!.
  - simpl. f_equal. f_equal. f_equal.
    unfold buildCandidates. by rewrite length_imap.
  - apply not_elem_of_dom. apply is_fresh.
  - destruct queueConfigured; simpl; apply lookup_insert_eq.
  - done.
  - simpl. unfold startIndex. lia.
  - done.
Qed.

Lemma offersStart_bounded_fallback_witness :
  ∃ id doc w',
    offersStart fallbackUpstream true (startRequest (Some 60) None) emptyWorld
    = (Reply 201 (mkStartReply id 3 (currentIndex doc) 10), w')
    ∧ dispatches emptyWorld !! id = None
    ∧ dispatches w' !! id = Some doc
    ∧ candidates doc
      = buildCandidates threeCaptains [Some 240; Some 300; Some 120]
    ∧ Z.of_nat (currentIndex doc) = Z.max 0 2
    ∧ dispatchStatus doc = DPending.
Proof.
  exact (proj2 (offersStart_bounded_fallback fallbackUpstream true
           (startRequest (Some 60) None) emptyWorld 1%nat 60
           "12.97,77.59" (mkEta [None; None; None] (-1))
           (mkEta [Some 240; Some 300; Some 120] 2)
           eq_refl eq_refl eq_refl ltac:(discriminate) eq_refl
           (or_introl (conj eq_refl eq_refl)) eq_refl)).
Defined.

(** C5 (counterexample). Behind a calibration service that answers with a
    number for a null duration, a request bounded by 60 seconds gets the
    bounded multiEta result [null, null, null] with bestIndex -1 (the
    captains are 240, 300 and 120 seconds away), and the engine does not
    query again: the calibrated durations have a best index, so the test
    of the fallback fails, /multi-eta is called once, and the persisted
    candidates carry the calibrated durations, not the unbounded ones. *)
Lemma calibrated_bound_is_not_requeried :
  ¬ boundedFallbackClaim calibratingUpstream true
      (startRequest (Some 60) None) emptyWorld.
Proof.
  intros H.
  destruct (H 1%nat 60 "12.97,77.59" (mkEta [None; None; None] (-1))
              (mkEta [Some 240; Some 300; Some 120] 2)
              eq_refl eq_refl eq_refl ltac:(discriminate) eq_refl eq_refl
              eq_refl)
    as (plan & r & doc & w' & Hplan & Hcalls & _).
  vm_compute in Hplan. injection Hplan as <-. discriminate Hcalls.
Qed.

(** What the engine does there: one bounded call, the calibrated durations
    30, 30, 30 and the cursor on the first of them. *)
Lemma calibrated_bound_plan :
  computeDispatch calibratingUpstream "12.97,77.59" 5 5 (Some 60)
    (Some "car"%string)
  = Some (mkPlan "12.97,77.59" threeCaptains [Some 30; Some 30; Some 30] 0
            [Some 60]).
Proof. vm_compute. reflexivity. Qed.

(** Whatever the request carries, a 201 of /offers/start stands for a new
    document under an id that was free, and for one more job when the
    queue exists. *)
Lemma offersStart_creates up queueConfigured req w r w' :
  offersStart up queueConfigured req w = (Reply 201 r, w') →
  dispatches w !! replyDispatchId r = None
  ∧ (∃ doc, dispatches w' = <[replyDispatchId r := doc]> (dispatches w)
            ∧ dispatchStatus doc = DPending
            ∧ Forall (λ c, candStatus c = CPending) (candidates doc)
            ∧ length (candidates doc) = replyCandidates r
            ∧ currentIndex doc = replyCurrentIndex r)
  ∧ offersQueue w'
    = offersQueue w
      ++ (if queueConfigured
          then [mkJob (Some (replyDispatchId r)) (Some (replyAckSec r))]
          else [])
  ∧ rides w' = rides w ∧ trace w' = trace w.
Proof.
  unfold offersStart.
  destruct (startAuth req) as [uid|]; [| done].
  destruct (computeDispatch _ _ _ _ _ _) as [plan|]; [| done].
  destruct (planCaptains plan) as [|c0 caps0] eqn:Ecaps; [done |].
  intros [= <- <-]. simpl. split_and!.
  - apply not_elem_of_dom, is_fresh.
  - eexists. split; [by destruct queueConfigured |]. simpl.
    split_and!; try done.
    apply Forall_lookup_2. intros i c. unfold buildCandidates.
    rewrite list_lookup_imap. destruct ((c0 :: caps0) !! i); [| done].
    by intros [= <-].
  - destruct queueConfigured; simpl; [done | by rewrite app_nil_r].
  - by destruct queueConfigured.
  - by destruct queueConfigured.
Qed.

(** C8 (as amended). /offers/start does not deduplicate, with or without
    an Idempotency-Key: each request that is answered 201 creates a
    Dispatch under a fresh id and, when the queue is configured, enqueues
    one more offer job. Two identical requests therefore return different
    dispatchIds, leave two Dispatch documents and two jobs. *)
Theorem offersStart_not_deduplicated (up : Upstream) (req : StartRequest)
    (w w1 w2 : World) (r1 r2 : StartReply) (dt : Z) :
  offersStart up true req w = (Reply 201 r1, w1) →
  offersStart up true req (advance dt w1) = (Reply 201 r2, w2) →
  replyDispatchId r2 ≠ replyDispatchId r1
  ∧ is_Some (dispatches w2 !! replyDispatchId r1)
  ∧ is_Some (dispatches w2 !! replyDispatchId r2)
  ∧ dispatches w !! replyDispatchId r1 = None
  ∧ dispatches w !! replyDispatchId r2 = None
  ∧ offersQueue w2
    = offersQueue w
      ++ [mkJob (Some (replyDispatchId r1)) (Some (replyAckSec r1));
          mkJob (Some (replyDispatchId r2)) (Some (replyAckSec r2))].
Proof.
  intros H1 H2.
  apply offersStart_creates in H1 as (Hf1 & (d1 & Hd1 & _) & Hq1 & _).
  apply offersStart_creates in H2 as (Hf2 & (d2 & Hd2 & _) & Hq2 & _).
  simpl in Hf2, Hd2, Hq2. rewrite Hd1 in Hf2, Hd2.
  assert (replyDispatchId r2 ≠ replyDispatchId r1) as Hne.
  { intros E. rewrite E, lookup_insert_eq in Hf2. done. }
  split_and!.
  - done.
  - rewrite Hd2, lookup_insert_ne, lookup_insert_eq by done. eauto.
  - rewrite Hd2, lookup_insert_eq. eauto.
  - done.
  - by rewrite lookup_insert_ne in Hf2.
  - rewrite Hq2, Hq1, <- app_assoc. done.
Qed.

Lemma offersStart_not_deduplicated_witness :
  1%nat ≠ 0%nat
  ∧ is_Some (dispatches
               (offersStart fallbackUpstream true
                  (startRequest None (Some "key-1"%string))
                  (advance 1000
                     (offersStart fallbackUpstream true
                        (startRequest None (Some "key-1"%string))
                        emptyWorld).2)).2 !! 0%nat)
  ∧ is_Some (dispatches
               (offersStart fallbackUpstream true
                  (startRequest None (Some "key-1"%string))
                  (advance 1000
                     (offersStart fallbackUpstream true
                        (startRequest None (Some "key-1"%string))
                        emptyWorld).2)).2 !! 1%nat)
  ∧ dispatches emptyWorld !! 0%nat = None
  ∧ dispatches emptyWorld !! 1%nat = None
  ∧ offersQueue
      (offersStart fallbackUpstream true
         (startRequest None (Some "key-1"%string))
         (advance 1000
            (offersStart fallbackUpstream true
               (startRequest None (Some "key-1"%string)) emptyWorld).2)).2
    = offersQueue emptyWorld
      ++ [mkJob (Some 0%nat) (Some 10); mkJob (Some 1%nat) (Some 10)].
Proof.
  apply (offersStart_not_deduplicated fallbackUpstream
           (startRequest None (Some "key-1"%string)) emptyWorld
           (offersStart fallbackUpstream true
              (startRequest None (Some "key-1"%string)) emptyWorld).2
           (offersStart fallbackUpstream true
              (startRequest None (Some "key-1"%string))
              (advance 1000
                 (offersStart fallbackUpstream true
                    (startRequest None (Some "key-1"%string))
                    emptyWorld).2)).2
           (mkStartReply 0 3 2 10) (mkStartReply 1 3 2 10) 1000).
  - vm_compute. reflexivity.
  - vm_compute. reflexivity.
Defined.

(** C8 (counterexample). The same request with the same key, one second
    later, is answered with another dispatchId. *)
Lemma offersStart_same_key_two_dispatches :
  ¬ startIdempotentClaim fallbackUpstream
      (startRequest None (Some "key-1"%string)) emptyWorld.
Proof.
  intros H.
  destruct (H "key-1"%string (mkStartReply 0 3 2 10) _ 1000
              (mkStartReply 1 3 2 10) _ eq_refl eq_refl ltac:(lia) eq_refl)
    as [Hid _].
  discriminate Hid.
Qed.

(** ** The worker: what an await can change *)

Lemma emitted_record_served a w : emitted (record (Served a) w) = emitted w.
Proof. unfold emitted. simpl. rewrite omap_app. simpl. apply app_nil_r. Qed.

Lemma emitted_record_emitted e w :
  emitted (record (Emitted e) w) = emitted w ++ [e].
Proof. unfold emitted. simpl. by rewrite omap_app. Qed.

(** The handler of /ack-offer is its read followed by its write. *)
Lemma ackOffer_read_write dispatchId captain accepted w :
  ackOffer dispatchId captain accepted w
  = match ackRead dispatchId captain w with
    | Some idx => (Reply 200 true, ackWrite dispatchId idx accepted w)
    | None =>
        (Failure 404
           (if bool_decide (dispatchStatus <$> dispatches w !! dispatchId
                            = Some DPending)
            then "Captain not in candidates" else "Dispatch not pending")%string,
         w)
    end.
Proof.
  unfold ackOffer, ackRead, ackWrite.
  destruct (dispatches w !! dispatchId) as [d|]; simpl; [| done].
  destruct (decide (dispatchStatus d = DPending)) as [Hp|Hp].
  - rewrite bool_decide_eq_true_2 by by rewrite Hp.
    by destruct (findIndex captain (candidates d)).
  - rewrite bool_decide_eq_false_2; [done |]. by intros [= ?].
Qed.

(** A served step leaves the store alone or rewrites one dispatch: the
    status of a pending dispatch to cancelled, or a candidate status to ack
    or rejected (in a pending dispatch when the read and the write of
    /ack-offer come together, in any dispatch when the write comes
    alone). *)
Lemma serve_cases a w :
  serve a w = record (Served a) w
  ∨ ∃ id g,
      ((∃ d, dispatches w !! id = Some d ∧ dispatchStatus d = DPending
             ∧ g = setDispatchStatus DCancelled)
       ∨ ∃ idx s, (s = CAck ∨ s = CRejected) ∧ g = setCandStatus idx s)
      ∧ serve a w = record (Served a) (updateDispatch id g w).
Proof.
  destruct a as [id captain accepted | id | id idx accepted]; unfold serve.
  - unfold ackOffer.
    destruct (dispatches w !! id) as [d|] eqn:Ed; [| by left].
    destruct (decide (dispatchStatus d = DPending)); [| by left].
    destruct (findIndex captain (candidates d)) as [idx|]; [| by left].
    right. exists id, (setCandStatus idx (if accepted then CAck else CRejected)).
    split; [| done]. right. eexists _, _. split; [| done].
    destruct accepted; auto.
  - unfold cancelDispatch.
    destruct (dispatches w !! id) as [d|] eqn:Ed; [| by left].
    destruct (decide (dispatchStatus d = DPending)); [| by left].
    right. exists id, (setDispatchStatus DCancelled). split; [| done].
    left. by exists d.
  - right. exists id, (setCandStatus idx (if accepted then CAck else CRejected)).
    split; [| done]. right. eexists _, _. split; [| done].
    destruct accepted; auto.
Qed.

(** For the fields a served step never touches: both cases at once. *)
Ltac serve_frame a w :=
  let id := fresh "id" in
  let g := fresh "g" in
  destruct (serve_cases a w) as [-> | (id & g & _ & ->)].

(** An invariant of [serve], [advance] and [setConcurrent] is an invariant
    of [await]. *)
Lemma await_preserves (P : World → Prop) :
  (∀ a w, P w → P (serve a w)) →
  (∀ n w, P w → P (advance (Z.of_nat n) w)) →
  (∀ ts w, P w → P (setConcurrent ts w)) →
  ∀ w, P w → P (await w).
Proof.
  intros Hserve Hadv Hconc w Hw. unfold await.
  destruct (concurrent w) as [|t ts]; [done |].
  assert (P (advance (Z.of_nat (lag t)) (setConcurrent ts w))) as H0 by auto.
  revert H0. generalize (advance (Z.of_nat (lag t)) (setConcurrent ts w)).
  induction (served t) as [|a l IH]; intros w0 Hw0; simpl; [done |].
  apply IH, Hserve, Hw0.
Qed.

Lemma await_rides w : rides (await w) = rides w.
Proof.
  apply (await_preserves (λ w', rides w' = rides w)); try done.
  intros a w' Hw'.
  serve_frame a w'; done.
Qed.

Lemma await_users w : users (await w) = users w.
Proof.
  apply (await_preserves (λ w', users w' = users w)); try done.
  intros a w' Hw'.
  serve_frame a w'; done.
Qed.

Lemma await_emitted w : emitted (await w) = emitted w.
Proof.
  apply (await_preserves (λ w', emitted w' = emitted w)); try done.
  intros a w' Hw'.
  serve_frame a w';
    by rewrite emitted_record_served.
Qed.

Lemma await_clock w : clock w ≤ clock (await w).
Proof.
  apply (await_preserves (λ w', clock w ≤ clock w')); try done.
  - intros a w' Hw'.
    serve_frame a w'; done.
  - intros n w' Hw'. simpl. lia.
Qed.

Lemma sleep_clock ms w : clock w + ms ≤ clock (sleep ms w).
Proof. unfold sleep. etrans; [| apply await_clock]. done. Qed.

(** A property of one dispatch document that the external rewrites keep
    is kept by an await. *)
Lemma await_dispatch (Q : Dispatch → Prop) (id : nat) (w : World) :
  (∀ d idx s, (s = CAck ∨ s = CRejected) → Q d → Q (setCandStatus idx s d)) →
  (∀ d, dispatchStatus d = DPending → Q d → Q (setDispatchStatus DCancelled d)) →
  (∃ d, dispatches w !! id = Some d ∧ Q d) →
  ∃ d', dispatches (await w) !! id = Some d' ∧ Q d'.
Proof.
  intros Hack Hcancel.
  apply (await_preserves (λ w', ∃ d', dispatches w' !! id = Some d' ∧ Q d'));
    try done.
  intros a w' (d' & Hd' & HQ).
  destruct (serve_cases a w') as [-> | (id0 & g & Hg & ->)];
    [by exists d' |].
  simpl. rewrite lookup_alter.
  destruct (decide (id0 = id)) as [-> | Hne]; [| by exists d'].
  rewrite Hd'. simpl. eexists. split; [done |].
  destruct Hg as [(d0 & Hd0 & Hp & ->) | (idx & s & Hs & ->)]; [| auto].
  assert (d0 = d') as -> by congruence. auto.
Qed.

Lemma await_dispatch_None id w :
  dispatches w !! id = None → dispatches (await w) !! id = None.
Proof.
  apply (await_preserves (λ w', dispatches w' !! id = None)); try done.
  intros a w' Hw'.
  destruct (serve_cases a w') as [-> | (id0 & g & Hg & ->)];
    [done |].
  simpl. rewrite lookup_alter. case_decide; [| done]. subst. by rewrite Hw'.
Qed.

Lemma identityOf_setCandStatus i s d :
  identityOf (setCandStatus i s d) = identityOf d.
Proof.
  unfold identityOf. simpl. f_equal. apply list_eq. intros j.
  rewrite !list_lookup_fmap.
  destruct (decide (i = j)) as [<- | Hne].
  - rewrite list_lookup_alter_eq. by destruct (candidates d !! i).
  - by rewrite list_lookup_alter_ne.
Qed.

Lemma length_setCandStatus i s d :
  length (candidates (setCandStatus i s d)) = length (candidates d).
Proof. simpl. apply length_alter. Qed.

(** A dispatch that is no longer pending keeps its status, its cursor, its
    ride and its identity, whatever the other clients do: only the status
    of a candidate can still change, by the write of an /ack-offer that
    was read before. *)
Lemma await_settled id d w :
  dispatches w !! id = Some d → dispatchStatus d ≠ DPending →
  ∃ d',
    dispatches (await w) !! id = Some d'
    ∧ dispatchStatus d' = dispatchStatus d
    ∧ currentIndex d' = currentIndex d
    ∧ rideId d' = rideId d
    ∧ identityOf d' = identityOf d.
Proof.
  intros Hd Hnp.
  apply (await_dispatch
           (λ d', dispatchStatus d' = dispatchStatus d
                  ∧ currentIndex d' = currentIndex d
                  ∧ rideId d' = rideId d
                  ∧ identityOf d' = identityOf d) id w).
  - intros d0 idx s _ (H1 & H2 & H3 & H4).
    by rewrite identityOf_setCandStatus.
  - intros d0 Hp (H1 & _). congruence.
  - by exists d.
Qed.

(** *** The ack wait loop *)

(** The window is over when the wait reports it, and the loop cannot
    outlive its fuel: every round lasts a second or more. *)
Lemma waitForAck_total fuel id i started ackSec : ∀ w,
  ackSec * 1000 - (clock w - started) ≤ 1000 * Z.of_nat fuel →
  is_Some (waitForAck fuel id i started ackSec w).
Proof.
  induction fuel as [|fuel IH]; intros w Hfuel; simpl.
  - destruct (Z.ltb_spec (clock w - started) (ackSec * 1000)); [lia | eauto].
  - destruct (Z.ltb_spec (clock w - started) (ackSec * 1000)); [| eauto].
    pose proof (await_clock w) as Hc.
    pose proof (sleep_clock 1000 (await w)) as Hs.
    destruct (dispatches (await w) !! id) as [cur|]; [| eauto].
    destruct (decide (dispatchStatus cur = DPending)); [| eauto].
    destruct (candidates cur !! i) as [cand|].
    + destruct (decide (candStatus cand = CAck)); [eauto |]. apply IH. lia.
    + apply IH. lia.
Qed.

(** What holds across awaits and sleeps holds across the wait. *)
Lemma waitForAck_preserves (P : World → Prop) fuel id i started ackSec :
  (∀ w, P w → P (await w)) →
  (∀ ms w, P w → P (advance ms w)) →
  ∀ w r w', P w → waitForAck fuel id i started ackSec w = Some (r, w') → P w'.
Proof.
  intros Hawait Hadv.
  induction fuel as [|fuel IH]; intros w r w' Hw; simpl.
  - destruct (_ <? _); [done |]. by intros [= <- <-].
  - destruct (_ <? _); [| by intros [= <- <-]].
    assert (P (await w)) as H1 by auto.
    assert (P (sleep 1000 (await w))) as H2 by (unfold sleep; auto).
    destruct (dispatches (await w) !! id) as [cur|]; [| by intros [= <- <-]].
    destruct (decide (dispatchStatus cur = DPending)); [| by intros [= <- <-]].
    destruct (candidates cur !! i) as [cand|]; [| by apply IH].
    destruct (decide (candStatus cand = CAck)); [by intros [= <- <-] |].
    by apply IH.
Qed.

Lemma waitForAck_rides fuel id i started ackSec w r w' :
  waitForAck fuel id i started ackSec w = Some (r, w') → rides w' = rides w.
Proof.
  apply (waitForAck_preserves (λ w0, rides w0 = rides w)); [| done | done].
  intros w0 <-. apply await_rides.
Qed.

Lemma waitForAck_emitted fuel id i started ackSec w r w' :
  waitForAck fuel id i started ackSec w = Some (r, w') →
  emitted w' = emitted w.
Proof.
  apply (waitForAck_preserves (λ w0, emitted w0 = emitted w)); [| done | done].
  intros w0 <-. apply await_emitted.
Qed.

(** The wait ends before the window is over only on an ack or on a
    dispatch that is gone or no longer pending. *)
Lemma waitForAck_elapsed fuel id i started ackSec : ∀ w w',
  waitForAck fuel id i started ackSec w = Some (WindowElapsed, w') →
  ackSec * 1000 ≤ clock w' - started.
Proof.
  induction fuel as [|fuel IH]; intros w w'; simpl.
  - destruct (Z.ltb_spec (clock w - started) (ackSec * 1000)); [done |].
    intros [= <-]. lia.
  - destruct (Z.ltb_spec (clock w - started) (ackSec * 1000));
      [| intros [= <-]; lia].
    destruct (dispatches (await w) !! id) as [cur|]; [| done].
    destruct (decide (dispatchStatus cur = DPending)); [| done].
    destruct (candidates cur !! i) as [cand|]; [| apply IH].
    destruct (decide (candStatus cand = CAck)); [done | apply IH].
Qed.

(** *** The commit *)

Lemma identityOf_lookup d d' i c :
  identityOf d' = identityOf d → candidates d !! i = Some c →
  ∃ c', candidates d' !! i = Some c' ∧ captainId c' = captainId c.
Proof.
  intros [= _ _ _ _ Hcs] Hc.
  apply (f_equal (λ l, l !! i)) in Hcs. rewrite !list_lookup_fmap, Hc in Hcs.
  destruct (candidates d' !! i) as [c'|]; [| done].
  exists c'. split; [done |]. simpl in Hcs. by injection Hcs.
Qed.

Lemma workerFare_identity env d d' :
  identityOf d' = identityOf d → workerFare env d' = workerFare env d.
Proof. intros [= _ Hp Hd Hv _]. unfold workerFare. by rewrite Hp, Hd, Hv. Qed.

(** *** The loop *)

Lemma commitAssignment_exit env id i w :
  (commitAssignment env id i w).1 = Assigned
  ∨ (commitAssignment env id i w).1 = Threw.
Proof.
  unfold commitAssignment.
  destruct (dispatches _ !! id); [| by right].
  destruct (candidates _ !! i); [| by right].
  destruct (users _ !! _) as [u|]; [| by left].
  destruct (accountSocketId u) as [s|]; [| by left].
  destruct (String.eqb s EmptyString); by left.
Qed.

Lemma offerJob_total env job w : is_Some (offerJob env job w).
Proof.
  unfold offerJob. destruct (jobDispatchId job) as [id|]; [| eauto].
  destruct (dispatches (await w) !! id) as [d|]; [| eauto].
  destruct (decide _); [| eauto].
  generalize (await w) (currentIndex d) (drop (currentIndex d) (candidates d)).
  intros w0 i rest. revert i w0.
  induction rest as [|c rest IH]; intros i w0; simpl; [eauto |].
  destruct (waitForAck _ _ _ _ _ _) as [[r w2]|] eqn:Hwait.
  - destruct r; eauto.
  - apply eq_None_not_Some in Hwait. destruct Hwait.
    apply waitForAck_total.
    change (clock (emit (offerEvent id d c) w0)) with (clock (await w0)). lia.
Qed.

Lemma await_present id w :
  is_Some (dispatches w !! id) → is_Some (dispatches (await w) !! id).
Proof.
  intros [d Hd].
  destruct (await_dispatch (λ _, True) id w) as (d' & Hd' & _); eauto.
Qed.

Lemma offerLoop_exhausted env id d ackSec rest : ∀ i w w',
  is_Some (dispatches w !! id) →
  offerLoop env id d ackSec rest i w = Some (Exhausted, w') →
  rides w' = rides w
  ∧ emitted w' = emitted w ++ (offerEvent id d <$> rest)
  ∧ ∃ d', dispatches w' !! id = Some d' ∧ dispatchStatus d' = DCancelled.
Proof.
  induction rest as [|c rest IH]; intros i w w' Hpres; simpl.
  - intros [= <-]. unfold noCandidateAccepted. split_and!.
    + simpl. apply await_rides.
    + rewrite app_nil_r. apply await_emitted.
    + apply await_present in Hpres as [d0 Hd0].
      rewrite lookup_updateDispatch, decide_True, Hd0 by done. eauto.
  - set (w1 := emit _ w).
    destruct (waitForAck _ _ _ _ _ w1) as [[r w2]|] eqn:Hwait; [| done].
    destruct r.
    + intros [= E]. pose proof (commitAssignment_exit env id i w2) as Hx.
      destruct (commitAssignment env id i w2) as [x w3]. simpl in *.
      injection E as -> _. by destruct Hx.
    + intros Hloop.
      assert (is_Some (dispatches w2 !! id)) as Hp2.
      { revert Hwait. apply (waitForAck_preserves
                               (λ w0, is_Some (dispatches w0 !! id))).
        - apply await_present.
        - done.
        - by apply await_present. }
      apply IH in Hloop as (Hr & He & Hd).
      * split_and!; [| | done].
        -- rewrite Hr. unfold markTimeout. simpl. rewrite await_rides.
           rewrite (waitForAck_rides _ _ _ _ _ _ _ _ Hwait).
           apply await_rides.
        -- rewrite He. unfold markTimeout.
           assert (emitted (updateDispatch id
                     (λ d0, setCurrentIndex (S i) (setCandStatus i CTimeout d0))
                     (await w2)) = emitted w2) as -> by apply await_emitted.
           rewrite (waitForAck_emitted _ _ _ _ _ _ _ _ Hwait).
           unfold w1, emit. rewrite emitted_record_emitted, await_emitted.
           by rewrite <- app_assoc.
      * unfold markTimeout. apply await_present in Hp2 as [d2 Hd2].
        rewrite lookup_updateDispatch, decide_True, Hd2 by done. eauto.
    + done.
Qed.

(** C2 (as amended). When the offer loop runs out of candidates the worker
    sets the dispatch status to cancelled (the status enum has no exhausted
    value) and emits nothing more: the events of the whole job are the
    ride-offer events to the candidates from the cursor on, in order, so no
    dispatch-failed event and no event to the rider; no Ride is created. *)
Theorem offerJob_exhausted (env : WorkerEnv) (job : Job) (w w' : World) :
  offerJob env job w = Some (Exhausted, w') →
  ∃ id d0 d',
    jobDispatchId job = Some id
    ∧ dispatches (await w) !! id = Some d0
    ∧ dispatches w' !! id = Some d'
    ∧ dispatchStatus d' = DCancelled
    ∧ rides w' = rides w
    ∧ emitted w'
      = emitted w ++ (offerEvent id d0 <$> drop (currentIndex d0) (candidates d0))
    ∧ ∀ e, e ∈ emitted w' →
        e ∈ emitted w ∨ emitEvent e = "ride-offer"%string.
Proof.
  unfold offerJob. destruct (jobDispatchId job) as [id|]; [| done].
  destruct (dispatches (await w) !! id) as [d0|] eqn:Hd0; [| done].
  destruct (decide _) as [Hp|]; [| done].
  intros Hloop. apply offerLoop_exhausted in Hloop as (Hr & He & d' & Hd' & Hs);
    [| eauto].
  rewrite await_rides in Hr. rewrite await_emitted in He.
  exists id, d0, d'. split_and!; try done.
  intros e. rewrite He, elem_of_app, list_elem_of_fmap.
  intros [? | (c & -> & _)]; [by left | by right].
Qed.

Lemma offerJob_exhausted_witness :
  ∃ id d0 d',
    jobDispatchId (jobFor 5) = Some id
    ∧ dispatches (await oneSilentCandidate) !! id = Some d0
    ∧ dispatches (runJob workerEnv (jobFor 5) oneSilentCandidate).2 !! id
      = Some d'
    ∧ dispatchStatus d' = DCancelled
    ∧ rides (runJob workerEnv (jobFor 5) oneSilentCandidate).2
      = rides oneSilentCandidate
    ∧ emitted (runJob workerEnv (jobFor 5) oneSilentCandidate).2
      = emitted oneSilentCandidate
        ++ (offerEvent id d0 <$> drop (currentIndex d0) (candidates d0))
    ∧ ∀ e, e ∈ emitted (runJob workerEnv (jobFor 5) oneSilentCandidate).2 →
        e ∈ emitted oneSilentCandidate ∨ emitEvent e = "ride-offer"%string.
Proof.
  apply (offerJob_exhausted workerEnv (jobFor 5) oneSilentCandidate
           (runJob workerEnv (jobFor 5) oneSilentCandidate).2).
  vm_compute. reflexivity.
Defined.

(** C2 (counterexample). S3: the single candidate stays silent; the job
    ends with the one ride-offer as its only event. *)
Lemma exhausted_without_dispatch_failed :
  ¬ exhaustedClaim workerEnv (jobFor 5) oneSilentCandidate.
Proof.
  intros H.
  destruct (H (runJob workerEnv (jobFor 5) oneSilentCandidate).2)
    as [(e & He & Hname) _]; [vm_compute; reflexivity |].
  vm_compute in He. apply list_elem_of_singleton in He. subst e.
  discriminate Hname.
Qed.

(** S1: A accepts within the first second. The job assigns A, creates the
    ride 0 with the fare of a car and notifies A and the rider; B and C get
    no offer. *)
Lemma happyPath_assigns_first_candidate :
  offerJob workerEnv (jobFor 30) happyPath
  = Some (runJob workerEnv (jobFor 30) happyPath)
  ∧ (runJob workerEnv (jobFor 30) happyPath).1 = Assigned
  ∧ dispatches (runJob workerEnv (jobFor 30) happyPath).2 !! 0%nat
    = Some happyPathAssigned
  ∧ rides (runJob workerEnv (jobFor 30) happyPath).2 !! 0%nat
    = Some (mkRide 1 (Some 11%nat) "12.97,77.59" "12.93,77.62" 170 RAccepted
              "000042")
  ∧ emitted (runJob workerEnv (jobFor 30) happyPath).2
    = [offerEvent 0 (dispatchOf [candA; candB; candC]) candA;
       mkEmit (Some "sA"%string) "ride-offer-accepted" (OfferAcceptedData 0 0);
       mkEmit (Some "rider-socket"%string) "ride-assigned"
         (RideAssignedData 0)].
Proof. vm_compute. repeat split. Qed.

(** ** The wait and the rejected candidate *)

Lemma waitForAck_result fuel id i started ackSec : ∀ w r w',
  waitForAck fuel id i started ackSec w = Some (r, w') →
  match r with
  | SawAck =>
      ∃ cur cand,
        dispatches w' !! id = Some cur ∧ dispatchStatus cur = DPending
        ∧ candidates cur !! i = Some cand ∧ candStatus cand = CAck
  | Stopped =>
      ∀ cur, dispatches w' !! id = Some cur → dispatchStatus cur ≠ DPending
  | WindowElapsed => ackSec * 1000 ≤ clock w' - started
  end.
Proof.
  induction fuel as [|fuel IH]; intros w r w'; simpl.
  - destruct (Z.ltb_spec (clock w - started) (ackSec * 1000)); [done |].
    intros [= <- <-]. lia.
  - destruct (Z.ltb_spec (clock w - started) (ackSec * 1000));
      [| intros [= <- <-]; lia].
    destruct (dispatches (await w) !! id) as [cur|] eqn:Hcur.
    2: { intros [= <- <-]. intros cur. by rewrite Hcur. }
    destruct (decide (dispatchStatus cur = DPending)) as [Hp | Hnp].
    2: { intros [= <- <-]. intros cur'. rewrite Hcur. by intros [= <-]. }
    destruct (candidates cur !! i) as [cand|] eqn:Hcand; [| apply IH].
    destruct (decide (candStatus cand = CAck)) as [Hack|]; [| apply IH].
    intros [= <- <-]. by exists cur, cand.
Qed.

(** A read that finds the candidate rejected leads to one more second of
    sleep, like any status other than ack. *)
Lemma waitForAck_rejected_goes_on fuel id i started ackSec w cur cand :
  clock w - started < ackSec * 1000 →
  dispatches (await w) !! id = Some cur → dispatchStatus cur = DPending →
  candidates cur !! i = Some cand → candStatus cand = CRejected →
  waitForAck (S fuel) id i started ackSec w
  = waitForAck fuel id i started ackSec (sleep 1000 (await w)).
Proof.
  intros Hlt Hcur Hp Hcand Hrej. simpl.
  destruct (Z.ltb_spec (clock w - started) (ackSec * 1000)); [| lia].
  rewrite Hcur, decide_True, Hcand, decide_False by congruence. done.
Qed.

(** C4 (as amended). A rejected status does not end the wait on candidate
    i. The wait ends before the window has elapsed only when a read finds
    the candidate's status ack, or finds the dispatch missing or no longer
    pending. Once the window has elapsed the worker writes timeout over the
    candidate's status, whatever it is (rejected included), sets
    currentIndex to i+1 and goes on with the next candidate. *)
Theorem rejection_does_not_end_wait (env : WorkerEnv) (id : nat)
    (d : Dispatch) (ackSec : Z) (c : Candidate) (rest : list Candidate)
    (i : nat) (w : World) (r : Waited) (w2 : World) :
  waitForAck (Z.to_nat ackSec) id i (clock (emit (offerEvent id d c) w)) ackSec
    (emit (offerEvent id d c) w) = Some (r, w2) →
  match r with
  | SawAck =>
      ∃ cur cand,
        dispatches w2 !! id = Some cur ∧ dispatchStatus cur = DPending
        ∧ candidates cur !! i = Some cand ∧ candStatus cand = CAck
  | Stopped =>
      ∀ cur, dispatches w2 !! id = Some cur → dispatchStatus cur ≠ DPending
  | WindowElapsed =>
      ackSec * 1000 ≤ clock w2 - clock (emit (offerEvent id d c) w)
      ∧ offerLoop env id d ackSec (c :: rest) i w
        = offerLoop env id d ackSec rest (S i) (markTimeout id i w2)
      ∧ ∀ d2 c2,
          dispatches (await w2) !! id = Some d2 →
          candidates d2 !! i = Some c2 →
          dispatches (markTimeout id i w2) !! id
          = Some (mkDispatch (dispatchUser d2) (dispatchPickup d2)
                    (dispatchDestination d2) (vehicleType d2)
                    (<[i := mkCandidate (captainId c2) (socketId c2)
                              (etaSec c2) CTimeout]> (candidates d2))
                    (S i) (rideId d2) (dispatchStatus d2))
  end
  ∧ ∀ fuel w0 cur cand,
      clock w0 - clock (emit (offerEvent id d c) w) < ackSec * 1000 →
      dispatches (await w0) !! id = Some cur →
      dispatchStatus cur = DPending →
      candidates cur !! i = Some cand →
      candStatus cand = CRejected →
      waitForAck (S fuel) id i (clock (emit (offerEvent id d c) w)) ackSec w0
      = waitForAck fuel id i (clock (emit (offerEvent id d c) w)) ackSec
          (sleep 1000 (await w0)).
Proof.
  intros Hwait. pose proof (waitForAck_result _ _ _ _ _ _ _ _ Hwait) as Hres.
  split; [| intros; by eapply waitForAck_rejected_goes_on].
  destruct r; [done | | done].
  split; [done |]. split.
  - cbn [offerLoop]. by rewrite Hwait.
  - intros d2 c2 Hd2 Hc2. unfold markTimeout.
    rewrite lookup_updateDispatch, decide_True, Hd2 by done. simpl.
    f_equal. unfold setCurrentIndex. simpl. f_equal.
    apply (candidates_setCandStatus i CTimeout d2 c2 Hc2).
Qed.

Lemma rejection_does_not_end_wait_witness :
  (5 * 1000 ≤ clock firstDeclinesWaited - clock firstDeclinesOffered
  ∧ offerLoop workerEnv 0 (dispatchOf [candA; candB]) 5 [candA; candB] 0
      (await firstDeclines)
    = offerLoop workerEnv 0 (dispatchOf [candA; candB]) 5 [candB] 1
        (markTimeout 0 0 firstDeclinesWaited)
  ∧ ∀ d2 c2,
      dispatches (await firstDeclinesWaited) !! 0%nat = Some d2 →
      candidates d2 !! 0%nat = Some c2 →
      dispatches (markTimeout 0 0 firstDeclinesWaited) !! 0%nat
      = Some (mkDispatch (dispatchUser d2) (dispatchPickup d2)
                (dispatchDestination d2) (vehicleType d2)
                (<[0%nat := mkCandidate (captainId c2) (socketId c2)
                               (etaSec c2) CTimeout]> (candidates d2))
                1 (rideId d2) (dispatchStatus d2)))
  ∧ ∀ fuel w0 cur cand,
      clock w0 - clock firstDeclinesOffered < 5 * 1000 →
      dispatches (await w0) !! 0%nat = Some cur →
      dispatchStatus cur = DPending →
      candidates cur !! 0%nat = Some cand →
      candStatus cand = CRejected →
      waitForAck (S fuel) 0 0 (clock firstDeclinesOffered) 5 w0
      = waitForAck fuel 0 0 (clock firstDeclinesOffered) 5
          (sleep 1000 (await w0)).
Proof.
  apply (rejection_does_not_end_wait workerEnv 0 (dispatchOf [candA; candB]) 5
           candA [candB] 0 (await firstDeclines) WindowElapsed
           firstDeclinesWaited).
  vm_compute. reflexivity.
Defined.

(** C4 (counterexample). A declines one second into its five-second
    window: B is offered only after the five seconds and A ends up marked
    timeout. *)
Lemma rejected_candidate_is_marked_timeout :
  ¬ rejectionClaim workerEnv (jobFor 5) firstDeclines.
Proof.
  intros H.
  destruct (H 0%nat (dispatchOf [candA; candB]) candA Exhausted
              (runJob workerEnv (jobFor 5) firstDeclines).2
              (mkDispatch 1 "12.97,77.59" "12.93,77.62" (Some "car"%string)
                 [mkCandidate 11 (Some "sA"%string) (Some 240) CTimeout;
                  mkCandidate 12 (Some "sB"%string) (Some 300) CTimeout]
                 2 None DCancelled)
              (mkCandidate 11 (Some "sA"%string) (Some 240) CTimeout))
    as [Hlabel _];
    [reflexivity | reflexivity | reflexivity | reflexivity
    | vm_compute; reflexivity | vm_compute; reflexivity | reflexivity |].
  discriminate Hlabel.
Qed.

(** ** A dispatch that is no longer pending *)

(** A job that loads a dispatch which is not pending does nothing: it
    returns at once, having posted no event and written nothing. *)
Lemma offerJob_settled_is_noop env job id d w :
  jobDispatchId job = Some id →
  dispatches (await w) !! id = Some d → dispatchStatus d ≠ DPending →
  offerJob env job w = Some (NoOp, await w)
  ∧ emitted (await w) = emitted w
  ∧ rides (await w) = rides w.
Proof.
  intros Hid Hd Hnp. unfold offerJob. rewrite Hid, Hd, decide_False by done.
  split_and!; [done | apply await_emitted | apply await_rides].
Qed.

(** A read of the wait loop that finds the dispatch no longer pending ends
    the job there. *)
Lemma waitForAck_stops_when_settled fuel id i started ackSec w d :
  clock w - started < ackSec * 1000 →
  dispatches (await w) !! id = Some d → dispatchStatus d ≠ DPending →
  waitForAck (S fuel) id i started ackSec w = Some (Stopped, await w).
Proof.
  intros Hlt Hd Hnp. simpl.
  destruct (Z.ltb_spec (clock w - started) (ackSec * 1000)); [| lia].
  by rewrite Hd, decide_False.
Qed.

(** C7 (the failing run). ackSec = 5, two candidates; the dispatch is
    cancelled during the last sleep of A's window. When the wait is over the
    stored dispatch is cancelled with A still pending and currentIndex 0;
    the worker, which does not read the status again before line 94, then
    writes timeout and currentIndex 1 into the cancelled dispatch and posts
    a ride-offer to B, and stops only at the next read. *)
Theorem cancel_during_last_sleep_is_missed :
  dispatches cancelledWaited !! 0%nat
  = Some (mkDispatch 1 "12.97,77.59" "12.93,77.62" (Some "car"%string)
            [candA; candB] 0 None DCancelled)
  ∧ offerJob workerEnv (jobFor 5) cancelledInLastSleep
    = Some (runJob workerEnv (jobFor 5) cancelledInLastSleep)
  ∧ (runJob workerEnv (jobFor 5) cancelledInLastSleep).1 = Aborted
  ∧ trace (runJob workerEnv (jobFor 5) cancelledInLastSleep).2
    = [Emitted (offerEvent 0 (dispatchOf [candA; candB]) candA);
       Served (CancelDispatch 0);
       Emitted (offerEvent 0 (dispatchOf [candA; candB]) candB)]
  ∧ dispatches (runJob workerEnv (jobFor 5) cancelledInLastSleep).2 !! 0%nat
    = Some (mkDispatch 1 "12.97,77.59" "12.93,77.62" (Some "car"%string)
              [mkCandidate 11 (Some "sA"%string) (Some 240) CTimeout; candB]
              1 None DCancelled).
Proof. vm_compute. repeat split. Qed.

(** The acked branch has the same gap: it reads the dispatch again at
    line 64 and does not look at its status. Cancelled between the ack and
    that read, the dispatch still gets its ride and ends up assigned. *)
Lemma cancel_before_commit_is_overwritten :
  (runJob workerEnv (jobFor 5) cancelledBeforeCommit).1 = Assigned
  ∧ trace (runJob workerEnv (jobFor 5) cancelledBeforeCommit).2
    = [Emitted (offerEvent 0 (dispatchOf [candA; candB]) candA);
       Served (AckOffer 0 11 true);
       Served (CancelDispatch 0);
       Emitted (mkEmit (Some "sA"%string) "ride-offer-accepted"
                  (OfferAcceptedData 0 0));
       Emitted (mkEmit (Some "rider-socket"%string) "ride-assigned"
                  (RideAssignedData 0))]
  ∧ dispatchStatus
      <$> dispatches (runJob workerEnv (jobFor 5) cancelledBeforeCommit).2
          !! 0%nat
    = Some DAssigned
  ∧ size (rides (runJob workerEnv (jobFor 5) cancelledBeforeCommit).2) = 1%nat.
Proof. vm_compute. repeat split. Qed.

(** ** Fares *)

Lemma mathRound_pos (x : Q) : (1 <= x)%Q → 0 < mathRound x.
Proof.
  intros H. unfold mathRound.
  assert (Qfloor 1 ≤ Qfloor (x + (1 # 2))) as H0
    by (apply Qfloor_resp_le; lra).
  change (Qfloor 1) with 1 in H0. lia.
Qed.

Lemma rawFare_ge_20 v dist dur :
  0 ≤ dist → 0 ≤ dur → (20 <= rawFare v dist dur)%Q.
Proof.
  intros Hd Ht. rewrite Zle_Qle in Hd, Ht. unfold rawFare, Qdiv.
  assert (/ 1000 == 1 # 1000)%Q as -> by reflexivity.
  assert (/ 60 == 1 # 60)%Q as -> by reflexivity.
  change (inject_Z 0) with 0%Q in Hd, Ht.
  destruct v; simpl; lra.
Qed.

(** With a distance and a duration that are not negative and a surge
    factor of 1 or more, the fare is positive. *)
Lemma fareFor_pos v dist dur surge :
  0 ≤ dist → 0 ≤ dur → (1 <= surge)%Q → 0 < fareFor v dist dur surge.
Proof.
  intros Hd Ht Hs. apply mathRound_pos.
  pose proof (rawFare_ge_20 v dist dur Hd Ht). nra.
Qed.

Lemma identityKept_await id ident w :
  identityKept id ident w → identityKept id ident (await w).
Proof.
  apply (await_dispatch (λ d, identityOf d = ident) id w).
  - intros d idx s _ <-. apply identityOf_setCandStatus.
  - done.
Qed.

Lemma commitAssignment_rides env id i ident w exit w' :
  identityKept id ident w →
  commitAssignment env id i w = (exit, w') →
  rides w' = rides w
  ∨ ∃ cur captain rid,
      identityOf cur = ident ∧ rides w !! rid = None
      ∧ rides w' = <[rid := workerRide env cur captain]> (rides w).
Proof.
  intros Hk. unfold commitAssignment.
  apply identityKept_await in Hk as (cur & Hcur & Hident). rewrite Hcur.
  destruct (candidates cur !! i) as [cand|].
  2: { intros [= _ <-]. left. by rewrite !await_rides. }
  set (w5 := await (setCaptains _ (await (await (await w))))).
  assert (rides w5 = rides w) as Hr5.
  { unfold w5. rewrite await_rides. simpl. by rewrite !await_rides. }
  set (rid := fresh (dom (rides w5))).
  assert (rides w5 !! rid = None) as Hfree by apply not_elem_of_dom, is_fresh.
  intros Hexit. right. exists cur, (captainId cand), rid.
  split_and!.
  { done. }
  { congruence. }
  rewrite <- Hr5. revert Hexit.
  destruct (users _ !! _) as [u|];
    [destruct (accountSocketId u) as [s|];
       [destruct (String.eqb s EmptyString) |] |];
    intros [= _ <-];
    repeat first [rewrite await_rides | progress (unfold updateDispatch, emit; simpl)];
    done.
Qed.

Lemma offerLoop_rides env id d ackSec ident rest : ∀ i w exit w',
  identityKept id ident w →
  offerLoop env id d ackSec rest i w = Some (exit, w') →
  rides w' = rides w
  ∨ ∃ cur captain rid,
      identityOf cur = ident ∧ rides w !! rid = None
      ∧ rides w' = <[rid := workerRide env cur captain]> (rides w).
Proof.
  induction rest as [|c rest IH]; intros i w exit w' Hk; simpl.
  - intros [= _ <-]. left. apply await_rides.
  - destruct (waitForAck _ _ _ _ _ _) as [[r w2]|] eqn:Hwait; [| done].
    assert (identityKept id ident w2) as Hk2.
    { revert Hwait. apply (waitForAck_preserves (identityKept id ident)).
      - apply identityKept_await.
      - done.
      - by apply identityKept_await. }
    assert (rides w2 = rides w) as Hr2.
    { rewrite (waitForAck_rides _ _ _ _ _ _ _ _ Hwait). apply await_rides. }
    rewrite <- Hr2. destruct r.
    + intros [= E]. destruct (commitAssignment env id i w2) as [x w3] eqn:Hc.
      injection E as _ <-. by apply (commitAssignment_rides _ _ _ _ _ _ _ Hk2 Hc).
    + intros Hloop.
      assert (rides (markTimeout id i w2) = rides w2) as Hrm
        by apply await_rides.
      rewrite <- Hrm. apply (IH _ _ _ _) in Hloop; [done |].
      apply identityKept_await in Hk2 as (d2 & Hd2 & Hid2).
      exists (setCurrentIndex (S i) (setCandStatus i CTimeout d2)).
      unfold markTimeout.
      rewrite lookup_updateDispatch, decide_True, Hd2 by done.
      split; [done |]. rewrite <- Hid2.
      apply (identityOf_setCandStatus i CTimeout d2).
    + intros [= _ <-]. by left.
Qed.

Lemma fareOfTable_vehicle vt v t :
  vehicleOf vt = Some v → fareOfTable vt t = inject_Z (fareEntry v t).
Proof.
  unfold vehicleOf, fareOfTable.
  destruct (String.eqb vt "auto"); [by intros [= <-] |].
  destruct (String.eqb vt "car"); [by intros [= <-] |].
  destruct (String.eqb vt "moto"); [by intros [= <-] | done].
Qed.

(** Under the key surge the body has the surge factor, and that is what
    the lookup returns. *)
Lemma fareOfTable_surge t : fareOfTable "surge" t = fareSurge t.
Proof. reflexivity. Qed.

Lemma inject_Z_pos (z : Z) : 0 < z → (0 < inject_Z z)%Q.
Proof. intros H. unfold Qlt. simpl. lia. Qed.

(** C9 (as amended). A ride created by POST /create has a positive fare
    when the distance and the duration are not negative and the surge
    factor is at least 1. A ride created by the worker has for its fare
    the entry of the GET /get-fare answer for the dispatch's vehicle type
    (auto, car, or moto for motorcycle; car when the dispatch has none),
    which is positive under the same conditions, and the fare 0 when that
    call fails. *)
Theorem ride_fare_at_creation :
  (∀ fingerprint fenv redisConfigured draw req w out w' rid ride,
     create fingerprint fenv redisConfigured draw req w = (Reply 201 out, w') →
     rides w !! rid = None → rides w' !! rid = Some ride →
     ∃ dist dur,
       distanceTime fenv (createPickup req) (createDestination req)
       = Some (dist, dur)
       ∧ (0 ≤ dist → 0 ≤ dur →
          (1 <= getSurgeFactor fenv (createPickup req))%Q →
          (0 < fare ride)%Q))
  ∧ (∀ env job w exit w' rid ride,
       offerJob env job w = Some (exit, w') →
       rides w !! rid = None → rides w' !! rid = Some ride →
       ∃ id d0,
         jobDispatchId job = Some id
         ∧ dispatches (await w) !! id = Some d0
         ∧ (getFareCall env (dispatchPickup d0) (dispatchDestination d0) = None →
            fare ride = 0%Q)
         ∧ (∀ t v,
              getFareCall env (dispatchPickup d0) (dispatchDestination d0)
              = Some t →
              vehicleOf (workerVehicle (vehicleType d0)) = Some v →
              fare ride = inject_Z (fareEntry v t))
         ∧ (∀ fenv v dist dur,
              getFareCall env (dispatchPickup d0) (dispatchDestination d0)
              = match getFare fenv (dispatchPickup d0)
                        (dispatchDestination d0) with
                | Reply _ t => Some t
                | Failure _ _ => None
                end →
              distanceTime fenv (dispatchPickup d0) (dispatchDestination d0)
              = Some (dist, dur) →
              vehicleOf (workerVehicle (vehicleType d0)) = Some v →
              0 ≤ dist → 0 ≤ dur →
              (1 <= getSurgeFactor fenv (dispatchPickup d0))%Q →
              (0 < fare ride)%Q)).
Proof.
  split.
  - intros fingerprint fenv redisConfigured draw req w out w' rid ride.
    unfold create.
    destruct (createAuth req) as [uid|]; [| done].
    destruct (if redisConfigured then _ else _) as [hit|].
    { intros [= _ <-] H1 H2. congruence. }
    destruct (distanceTime fenv _ _) as [[dist dur]|]; [| done].
    destruct (vehicleOf _) as [v|]; [| done].
    intros [= _ <-] Hfree Hride.
    assert (rides (setRides (insert (fresh (dom (rides w)))
              (mkRide uid None (createPickup req) (createDestination req)
                 (inject_Z
                    (fareFor v dist dur
                       (getSurgeFactor fenv (createPickup req))))
                 RPending (getOtp 6 draw))) w) !! rid = Some ride) as Hride'.
    { by destruct redisConfigured. }
    simpl in Hride'. rewrite lookup_insert in Hride'.
    case_decide; [| congruence]. injection Hride' as <-. simpl.
    exists dist, dur. split; [done |].
    intros Hd Hdur Hs. by apply inject_Z_pos, fareFor_pos.
  - intros env job w exit w' rid ride. unfold offerJob.
    destruct (jobDispatchId job) as [id|]; [| intros [= _ <-]; congruence].
    destruct (dispatches (await w) !! id) as [d0|] eqn:Hd0.
    2: { intros [= _ <-]. rewrite await_rides. congruence. }
    destruct (decide _) as [Hp|].
    2: { intros [= _ <-]. rewrite await_rides. congruence. }
    intros Hloop Hfree Hride.
    apply (offerLoop_rides _ _ _ _ (identityOf d0)) in Hloop; [| by exists d0].
    rewrite await_rides in Hloop.
    destruct Hloop as [Hr | (cur & captain & rid0 & Hid & Hfree0 & Hr)];
      [congruence |].
    rewrite Hr, lookup_insert in Hride.
    case_decide; [| congruence]. injection Hride as <-. simpl.
    rewrite (workerFare_identity env d0 cur Hid).
    exists id, d0. split_and!; try done.
    + unfold workerFare. by intros ->.
    + intros t v Hget Hv. unfold workerFare. rewrite Hget.
      by apply fareOfTable_vehicle.
    + intros fenv v dist dur Hget Hdt Hv Hd Hdur Hs.
      unfold workerFare. rewrite Hget. unfold getFare. rewrite Hdt.
      rewrite (fareOfTable_vehicle _ v) by done.
      apply inject_Z_pos. destruct v; simpl; by apply fareFor_pos.
Qed.

Lemma ride_fare_at_creation_witness :
  (0 < fare (mkRide 1 None "12.97,77.59" "12.93,77.62" 83 RPending "000042"))%Q
  ∧ (0 < fare (mkRide 1 (Some 11%nat) "12.97,77.59" "12.93,77.62" 170
                 RAccepted "000042"))%Q
  ∧ fare (mkRide 1 (Some 11%nat) "12.97,77.59" "12.93,77.62" 0 RAccepted
            "000042") = 0%Q.
Proof.
  split_and!.
  - destruct (proj1 ride_fare_at_creation (λ _ _ _, "digest"%string)
                mockFareEnv true 42%nat createRequest emptyWorld
                (mkCreateOut
                   (toObjectPlain 0
                      (mkRide 1 None "12.97,77.59" "12.93,77.62" 83 RPending
                         "000042")) 1)
                afterCreate 0%nat
                (mkRide 1 None "12.97,77.59" "12.93,77.62" 83 RPending
                   "000042"))
      as (dist & dur & Hdt & Hpos).
    + vm_compute. reflexivity.
    + reflexivity.
    + vm_compute. reflexivity.
    + vm_compute in Hdt. injection Hdt as <- <-.
      apply Hpos; [lia | lia | vm_compute; discriminate].
  - destruct (proj2 ride_fare_at_creation workerEnv (jobFor 30) happyPath
                Assigned (runJob workerEnv (jobFor 30) happyPath).2 0%nat
                (mkRide 1 (Some 11%nat) "12.97,77.59" "12.93,77.62" 170
                   RAccepted "000042"))
      as (id & d0 & Hid & Hd0 & _ & _ & Hpos).
    + vm_compute. reflexivity.
    + reflexivity.
    + vm_compute. reflexivity.
    + injection Hid as <-. vm_compute in Hd0. injection Hd0 as <-.
      apply (Hpos mockFareEnv Car 5000 900);
        [reflexivity | reflexivity | reflexivity | lia | lia
        | vm_compute; discriminate].
  - destruct (proj2 ride_fare_at_creation workerEnvNoFare (jobFor 30)
                happyPath Assigned
                (runJob workerEnvNoFare (jobFor 30) happyPath).2 0%nat
                (mkRide 1 (Some 11%nat) "12.97,77.59" "12.93,77.62" 0
                   RAccepted "000042"))
      as (id & d0 & Hid & Hd0 & Hzero & _).
    + vm_compute. reflexivity.
    + reflexivity.
    + vm_compute. reflexivity.
    + injection Hid as <-. vm_compute in Hd0. injection Hd0 as <-.
      by apply Hzero.
Defined.

(** C9 (counterexample). S1 with a failing GET /get-fare: the worker
    creates the ride with fare 0. *)
Lemma worker_ride_fare_zero :
  ¬ workerFareClaim workerEnvNoFare (jobFor 30) happyPath.
Proof.
  intros H.
  specialize (H Assigned (runJob workerEnvNoFare (jobFor 30) happyPath).2
                0%nat
                (mkRide 1 (Some 11%nat) "12.97,77.59" "12.93,77.62" 0 RAccepted
                   "000042")).
  assert (0 < 0)%Q as Habs; [| by apply Qlt_irrefl in Habs].
  apply H; [vm_compute; reflexivity | reflexivity | vm_compute; reflexivity].
Qed.

(** ** The OTP in the responses of /confirm and /start-ride *)

Lemma sanitize_otp out : outOtp (sanitize out) = outOtp out.
Proof. done. Qed.

(** A read without [select('+otp')] carries no OTP. *)
Lemma findRidePopulated_default_hides_otp id w out :
  findRidePopulated false id w = Some out → outOtp out = None.
Proof.
  unfold findRidePopulated. destruct (rides w !! id); [| done].
  by intros [= <-].
Qed.

(** C10. Whenever POST /confirm or GET /start-ride answers 200, the ride
    object of the response carries the ride's stored otp (for /start-ride,
    the one the caller supplied), and so does the event sent to the rider;
    the passwords of the populated user and captain are removed, the otp is
    not. A read of the same ride without the '+otp' select has no otp. *)
Theorem confirm_and_startRide_return_otp :
  (∀ auth ride w out w',
     confirm auth ride w = (Reply 200 out, w') →
     ∃ r, rides w !! ride = Some r
          ∧ outOtp out = Some (otp r)
          ∧ (∃ sock,
               trace w'
               = trace w ++ [Emitted (mkEmit sock "ride-confirmed" (RideData out))])
          ∧ ∀ hidden, findRidePopulated false ride w = Some hidden →
              outOtp hidden = None)
  ∧ (∀ auth ride givenOtp w out w',
       startRide auth ride givenOtp w = (Reply 200 out, w') →
       ∃ r, rides w !! ride = Some r
            ∧ outOtp out = Some (otp r)
            ∧ otp r = givenOtp
            ∧ (∃ sock,
                 trace w'
                 = trace w ++ [Emitted (mkEmit sock "ride-started" (RideData out))])
            ∧ ∀ hidden, findRidePopulated false ride w = Some hidden →
                outOtp hidden = None).
Proof.
  split.
  - intros auth ride w out w'. unfold confirm.
    destruct auth as [captain|]; [| done].
    unfold findRidePopulated at 1. simpl. rewrite lookup_alter_eq.
    destruct (rides w !! ride) as [r|] eqn:Hr; simpl; [| done].
    destruct (userSocket _) as [sock|]; [| done].
    intros [= <- <-]. exists r. split_and!; [done | done | by exists sock |].
    apply findRidePopulated_default_hides_otp.
  - intros auth ride givenOtp w out w'. unfold startRide.
    destruct auth as [u|]; [| done].
    unfold findRidePopulated at 1.
    destruct (rides w !! ride) as [r|] eqn:Hr; simpl; [| done].
    destruct (decide (rideStatus r = RAccepted)); [| done].
    destruct (decide (Some (otp r) = Some givenOtp)) as [[= Hotp]|]; [| done].
    destruct (userSocket _) as [sock|]; [| done].
    intros [= <- <-]. exists r.
    split_and!; [done | done | done | by exists sock |].
    apply findRidePopulated_default_hides_otp.
Qed.

Lemma confirm_and_startRide_return_otp_witness :
  (∃ r, rides rideCreated !! 0%nat = Some r
        ∧ outOtp confirmedOut = Some (otp r)
        ∧ (∃ sock,
             trace afterConfirm
             = trace rideCreated
               ++ [Emitted (mkEmit sock "ride-confirmed" (RideData confirmedOut))])
        ∧ ∀ hidden, findRidePopulated false 0 rideCreated = Some hidden →
            outOtp hidden = None)
  ∧ (∃ r, rides afterConfirm !! 0%nat = Some r
          ∧ outOtp confirmedOut = Some (otp r)
          ∧ otp r = "000042"%string
          ∧ (∃ sock,
               trace (startRide (Some 1%nat) 0 "000042" afterConfirm).2
               = trace afterConfirm
                 ++ [Emitted (mkEmit sock "ride-started" (RideData confirmedOut))])
          ∧ ∀ hidden, findRidePopulated false 0 afterConfirm = Some hidden →
              outOtp hidden = None).
Proof.
  split.
  - apply (proj1 confirm_and_startRide_return_otp (Some 11%nat) 0%nat
             rideCreated confirmedOut afterConfirm).
    vm_compute. reflexivity.
  - apply (proj2 confirm_and_startRide_return_otp (Some 1%nat) 0%nat
             "000042"%string afterConfirm confirmedOut
             (startRide (Some 1%nat) 0 "000042" afterConfirm).2).
    vm_compute. reflexivity.
Defined.

(** ** The idempotency key of /create *)

(** The Idempotency-Key is honoured by POST /create: once a request has
    created a ride, the same request within the hour is answered with the
    stored response and creates nothing. *)
Lemma create_idempotent fingerprint env env' draw draw' req w out w1 dt :
  redisGet (getIdemKey fingerprint req (default 0%nat (createAuth req))) w
  = None →
  create fingerprint env true draw req w = (Reply 201 out, w1) →
  0 ≤ dt < 3600 * 1000 →
  create fingerprint env' true draw' req (advance dt w1)
  = (Reply 201 out, advance dt w1).
Proof.
  unfold create. destruct (createAuth req) as [uid|]; [| done]. simpl.
  intros ->.
  destruct (distanceTime env _ _) as [[dist dur]|]; [| done].
  destruct (vehicleOf _) as [v|]; [| done].
  intros [= <- <-] Hdt.
  unfold redisGet at 1. simpl. rewrite lookup_insert_eq.
  destruct (Z.ltb_spec (clock w + dt) (clock w + 3600 * 1000)); [done | lia].
Qed.

(** * More of the services *)

(** ** requestWithRetry *)

Lemma retryFrom_first_success {E A} (fn : nat → E + A) backoff k a :
  ∀ i left waited,
    (i ≤ k)%nat → (k ≤ i + left)%nat →
    fn k = inr a →
    (∀ j, (i ≤ j < k)%nat → ∃ e, fn j = inl e) →
    retryFrom fn backoff i left waited
    = (inr a, waited + backoff * (2 ^ Z.of_nat k - 2 ^ Z.of_nat i), S k).
Proof.
  intros i left. revert i. induction left as [|left IH]; intros i waited Hik Hk Ha Hfail.
  - assert (i = k) as -> by lia. simpl. rewrite Ha. f_equal. f_equal. lia.
  - destruct (decide (i = k)) as [-> | Hne].
    + simpl. rewrite Ha. f_equal. f_equal. lia.
    + simpl. destruct (Hfail i ltac:(lia)) as [e ->].
      rewrite IH; [| lia | lia | done | intros j Hj; apply Hfail; lia].
      f_equal. f_equal.
      replace (Z.of_nat (S i)) with (Z.of_nat i + 1) by lia.
      rewrite Z.pow_add_r by lia. lia.
Qed.

Lemma retryFrom_exhausted {E A} (fn : nat → E + A) backoff :
  ∀ left i waited,
    (∀ j, (i ≤ j ≤ i + left)%nat → ∃ e, fn j = inl e) →
    retryFrom fn backoff i left waited
    = (fn (i + left)%nat,
       waited + backoff * (2 ^ Z.of_nat (i + left) - 2 ^ Z.of_nat i),
       S (i + left)).
Proof.
  induction left as [|left IH]; intros i waited Hfail.
  - simpl. destruct (Hfail i ltac:(lia)) as [e He]. rewrite Nat.add_0_r, He.
    f_equal. f_equal. lia.
  - simpl. destruct (Hfail i ltac:(lia)) as [e ->].
    rewrite IH by (intros j Hj; apply Hfail; lia).
    replace (S i + left)%nat with (i + S left)%nat by lia.
    f_equal. f_equal.
    replace (Z.of_nat (S i)) with (Z.of_nat i + 1) by lia.
    rewrite Z.pow_add_r by lia. lia.
Qed.

(** X1. requestWithRetry returns the value of the first call that succeeds
    among the first retries+1 calls, having called the thunk exactly that
    many times and slept backoff*(2^k - 1) milliseconds before the
    successful call number k (counted from 0). *)
Theorem requestWithRetry_first_success {E A : Type} (fn : nat → E + A)
    (retries : nat) (backoff : Z) (k : nat) (a : A) :
  (k ≤ retries)%nat →
  fn k = inr a →
  (∀ j, (j < k)%nat → ∃ e, fn j = inl e) →
  requestWithRetry fn retries backoff
  = (inr a, backoff * (2 ^ Z.of_nat k - 1), S k).
Proof.
  intros Hk Ha Hfail. unfold requestWithRetry.
  rewrite (retryFrom_first_success fn backoff k a);
    [| lia | lia | done | intros j Hj; apply Hfail; lia].
  reflexivity.
Qed.

Lemma requestWithRetry_first_success_witness :
  requestWithRetry
    (λ i, if decide (i = 2%nat) then inr 7 else inl "ECONNREFUSED"%string)
    3 200
  = (inr 7, 200 * (2 ^ Z.of_nat 2 - 1), 3%nat).
Proof.
  apply (requestWithRetry_first_success
           (λ i, if decide (i = 2%nat) then inr 7 else inl "ECONNREFUSED"%string)
           3 200 2 7).
  - lia.
  - reflexivity.
  - intros j Hj. exists "ECONNREFUSED"%string.
    destruct (decide (j = 2%nat)); [lia | reflexivity].
Defined.

(** X2. When the first retries+1 calls all fail, requestWithRetry throws the
    error of the last of them, after exactly retries+1 calls and
    backoff*(2^retries - 1) milliseconds of sleep: there is no sleep after
    the last failure and never a call more. With the defaults (3 retries,
    200 ms) that is 4 calls and 1400 ms. *)
Theorem requestWithRetry_exhausted {E A : Type} (fn : nat → E + A)
    (retries : nat) (backoff : Z) :
  (∀ j, (j ≤ retries)%nat → ∃ e, fn j = inl e) →
  requestWithRetry fn retries backoff
  = (fn retries, backoff * (2 ^ Z.of_nat retries - 1), S retries).
Proof.
  intros Hfail. unfold requestWithRetry.
  rewrite retryFrom_exhausted by (intros j Hj; apply Hfail; lia).
  reflexivity.
Qed.

Lemma requestWithRetry_exhausted_witness :
  requestWithRetry (A := Z) (λ i, inl (idString i)) 3 200
  = (inl "3"%string, 200 * (2 ^ Z.of_nat 3 - 1), 4%nat).
Proof.
  apply (requestWithRetry_exhausted (A := Z) (λ i, inl (idString i)) 3 200).
  intros j _. by exists (idString j).
Defined.

(** ** The surge factor *)

Lemma mathMax_le_l a b : (a <= mathMax a b)%Q.
Proof.
  unfold mathMax. destruct (Qle_bool a b) eqn:H; [| lra].
  by apply Qle_bool_iff.
Qed.

Lemma mathMax_le_r a b : (b <= mathMax a b)%Q.
Proof.
  unfold mathMax. destruct (Qle_bool a b) eqn:H; [lra |].
  destruct (Qlt_le_dec b a) as [Hlt | Hle]; [lra |].
  apply Qle_bool_iff in Hle. congruence.
Qed.

Lemma mathMin_le_l a b : (mathMin a b <= a)%Q.
Proof.
  unfold mathMin. destruct (Qle_bool a b) eqn:H; [lra |].
  destruct (Qlt_le_dec b a) as [Hlt | Hle]; [lra |].
  apply Qle_bool_iff in Hle. congruence.
Qed.

Lemma mathMin_glb a b c : (c <= a)%Q → (c <= b)%Q → (c <= mathMin a b)%Q.
Proof. intros Ha Hb. unfold mathMin. by destruct (Qle_bool a b). Qed.

(** X3. When the configured baseline is positive and the minimum multiplier
    does not exceed the maximum, the surge factor computed by
    getSurgeFactorForZone on a cache miss lies between the two, whatever
    demand the ML service predicts (or when it predicts nothing). *)
Theorem surge_factor_within_config (cfg : SurgeConfig) (redisOn : bool)
    (mlDemand : option Q) (zoneId : string) (how : nat) (now : Z)
    (cache : SurgeCache) :
  (0 < surgeBaseline cfg)%Q →
  (surgeMinMult cfg <= surgeMaxMult cfg)%Q →
  cache !! surgeCacheKey zoneId how = None →
  let factor :=
    (getSurgeFactorForZone cfg redisOn mlDemand zoneId how now cache).1 in
  (surgeMinMult cfg <= factor)%Q ∧ (factor <= surgeMaxMult cfg)%Q.
Proof.
  intros Hb Hmm Hmiss. unfold getSurgeFactorForZone. rewrite Hmiss.
  assert ((if redisOn then None else None) = @None Q) as -> by by destruct redisOn.
  simpl. unfold surgeFactorOf.
  destruct (Qle_bool (surgeBaseline cfg) 0) eqn:Hle.
  { apply Qle_bool_iff in Hle. lra. }
  simpl. split.
  - apply mathMin_glb; [done | apply mathMax_le_l].
  - apply mathMin_le_l.
Qed.

Lemma surge_factor_within_config_witness :
  (surgeMinMult defaultSurge
   <= (getSurgeFactorForZone defaultSurge true (Some 25%Q) "zone_1297_7759" 50
         0 ∅).1)%Q
  ∧ ((getSurgeFactorForZone defaultSurge true (Some 25%Q) "zone_1297_7759" 50
        0 ∅).1 <= surgeMaxMult defaultSurge)%Q.
Proof.
  apply (surge_factor_within_config defaultSurge true (Some 25%Q)
           "zone_1297_7759" 50 0 ∅).
  - reflexivity.
  - vm_compute. discriminate.
  - reflexivity.
Defined.

(** X4. With Redis, a factor computed on a cache miss is served again
    unchanged to every call for the same zone and hour-of-week during the
    next 300 seconds, whatever the ML service and the configuration say by
    then, and those calls leave the cache as it is. *)
Theorem surge_factor_cached (cfg cfg' : SurgeConfig) (ml ml' : option Q)
    (zoneId : string) (how : nat) (now dt : Z) (cache : SurgeCache) :
  cache !! surgeCacheKey zoneId how = None →
  0 ≤ dt < 300 * 1000 →
  let first := getSurgeFactorForZone cfg true ml zoneId how now cache in
  getSurgeFactorForZone cfg' true ml' zoneId how (now + dt) first.2
  = (first.1, first.2).
Proof.
  intros Hmiss Hdt first. subst first.
  unfold getSurgeFactorForZone at 2 3 4. rewrite Hmiss. cbn [fst snd].
  unfold getSurgeFactorForZone. rewrite lookup_insert_eq.
  destruct (Z.ltb_spec (now + dt) (now + 300 * 1000)); [done | lia].
Qed.

Lemma surge_factor_cached_witness :
  getSurgeFactorForZone (mkSurgeConfig 10 3 1) true None "zone_1_2" 7
    (1000 + 299999)
    (getSurgeFactorForZone defaultSurge true (Some 14%Q) "zone_1_2" 7 1000 ∅).2
  = ((getSurgeFactorForZone defaultSurge true (Some 14%Q) "zone_1_2" 7 1000
        ∅).1,
     (getSurgeFactorForZone defaultSurge true (Some 14%Q) "zone_1_2" 7 1000
        ∅).2).
Proof.
  apply (surge_factor_cached defaultSurge (mkSurgeConfig 10 3 1) (Some 14%Q)
           None "zone_1_2" 7 1000 299999 ∅).
  - reflexivity.
  - lia.
Defined.

(** ** Fares *)

Lemma mathRound_mono (x y : Q) : (x <= y)%Q → mathRound x ≤ mathRound y.
Proof. intros H. unfold mathRound. apply Qfloor_resp_le. lra. Qed.

Lemma rawFare_mono v dist dur dist' dur' :
  dist ≤ dist' → dur ≤ dur' →
  (rawFare v dist dur <= rawFare v dist' dur')%Q.
Proof.
  intros Hd Ht. rewrite Zle_Qle in Hd, Ht. unfold rawFare, Qdiv.
  assert (/ 1000 == 1 # 1000)%Q as -> by reflexivity.
  assert (/ 60 == 1 # 60)%Q as -> by reflexivity.
  destruct v; simpl; lra.
Qed.

Lemma rawFare_ordered dist dur :
  0 ≤ dist → 0 ≤ dur →
  (rawFare Moto dist dur <= rawFare Auto dist dur)%Q
  ∧ (rawFare Auto dist dur <= rawFare Car dist dur)%Q.
Proof.
  intros Hd Ht. rewrite Zle_Qle in Hd, Ht. unfold rawFare, Qdiv.
  assert (/ 1000 == 1 # 1000)%Q as -> by reflexivity.
  assert (/ 60 == 1 # 60)%Q as -> by reflexivity.
  change (inject_Z 0) with 0%Q in Hd, Ht.
  simpl. split; lra.
Qed.

(** X5. GET /get-fare never quotes less for a longer trip: with a surge
    factor that is not negative, the fare of every vehicle type grows (or
    stays) when the distance and the duration grow. *)
Theorem fareFor_monotone (v : Vehicle) (dist dur dist' dur' : Z) (surge : Q) :
  dist ≤ dist' → dur ≤ dur' → (0 <= surge)%Q →
  fareFor v dist dur surge ≤ fareFor v dist' dur' surge.
Proof.
  intros Hd Ht Hs. apply mathRound_mono.
  pose proof (rawFare_mono v dist dur dist' dur' Hd Ht). nra.
Qed.

Lemma fareFor_monotone_witness :
  fareFor Car 5000 900 (3 # 2) ≤ fareFor Car 5001 900 (3 # 2).
Proof.
  apply (fareFor_monotone Car 5000 900 5001 900 (3 # 2)).
  - lia.
  - lia.
  - vm_compute. discriminate.
Defined.

(** X6. In every answer of GET /get-fare for a distance and a duration that
    are not negative, with a surge factor that is not negative, the quote
    for moto is at most the quote for auto, which is at most the quote for
    car. *)
Theorem getFare_ordered (env : FareEnv) (pickup destination : string)
    (dist dur : Z) (t : FareTable) :
  distanceTime env pickup destination = Some (dist, dur) →
  0 ≤ dist → 0 ≤ dur →
  (0 <= getSurgeFactor env pickup)%Q →
  getFare env pickup destination = Reply 200 t →
  fareMoto t ≤ fareAuto t ∧ fareAuto t ≤ fareCar t.
Proof.
  intros Hdt Hd Ht Hs. unfold getFare. rewrite Hdt. intros [= <-]. simpl.
  destruct (rawFare_ordered dist dur Hd Ht) as [H1 H2].
  split; apply mathRound_mono; nra.
Qed.

Lemma getFare_ordered_witness :
  fareMoto (mkFareTable 120 185 91 1) ≤ fareAuto (mkFareTable 120 185 91 1)
  ∧ fareAuto (mkFareTable 120 185 91 1) ≤ fareCar (mkFareTable 120 185 91 1).
Proof.
  apply (getFare_ordered (mkFareEnv (λ _ _, Some (6000, 900)) (λ _, None))
           "12.9,77.5" "13.0,77.6" 6000 900 (mkFareTable 120 185 91 1)).
  - reflexivity.
  - lia.
  - lia.
  - vm_compute. discriminate.
  - reflexivity.
Defined.

(** X7. With the surge factor that the maps-service computes under its
    default configuration, every quote of GET /get-fare for a distance and
    a duration that are not negative lies between the fare without surge
    and the fare at 1.5 times, and is at least 20. *)
Theorem getFare_surge_bounds (env : FareEnv) (pickup destination : string)
    (dist dur : Z) (redisOn : bool) (ml : option Q) (zoneId : string)
    (how : nat) (now : Z) (cache : SurgeCache) (t : FareTable) (v : Vehicle) :
  distanceTime env pickup destination = Some (dist, dur) →
  0 ≤ dist → 0 ≤ dur →
  cache !! surgeCacheKey zoneId how = None →
  surgeAnswer env pickup
  = Some (getSurgeFactorForZone defaultSurge redisOn ml zoneId how now cache).1 →
  getFare env pickup destination = Reply 200 t →
  fareFor v dist dur 1 ≤ fareEntry v t ≤ fareFor v dist dur (3 # 2)
  ∧ 20 ≤ fareEntry v t.
Proof.
  intros Hdt Hd Ht Hmiss Hs. unfold getFare, getSurgeFactor.
  rewrite Hdt, Hs. simpl. intros [= <-].
  set (s := (getSurgeFactorForZone defaultSurge redisOn ml zoneId how now cache).1).
  assert ((1 <= s)%Q ∧ (s <= 3 # 2)%Q) as [Hlo Hhi].
  { subst s. unfold getSurgeFactorForZone. rewrite Hmiss.
    assert ((if redisOn then None else None) = @None Q) as ->
      by by destruct redisOn.
    simpl. unfold surgeFactorOf. simpl. split.
    - apply mathMin_glb; [lra | apply mathMax_le_l].
    - apply mathMin_le_l. }
  pose proof (rawFare_ge_20 v dist dur Hd Ht) as Hraw.
  assert (fareFor v dist dur 1 ≤ fareFor v dist dur s) as H1
    by (apply mathRound_mono; nra).
  assert (fareFor v dist dur s ≤ fareFor v dist dur (3 # 2)) as H2
    by (apply mathRound_mono; nra).
  assert (20 ≤ fareFor v dist dur 1) as H3.
  { unfold fareFor, mathRound.
    assert (Qfloor 20 ≤ Qfloor (rawFare v dist dur * 1 + (1 # 2))) as H0
      by (apply Qfloor_resp_le; lra).
    change (Qfloor 20) with 20 in H0. lia. }
  destruct v; simpl; lia.
Qed.

Lemma getFare_surge_bounds_witness :
  fareFor Moto 6000 900 1 ≤ fareEntry Moto (mkFareTable 150 231 113 (25 # 20))
    ≤ fareFor Moto 6000 900 (3 # 2)
  ∧ 20 ≤ fareEntry Moto (mkFareTable 150 231 113 (25 # 20)).
Proof.
  apply (getFare_surge_bounds
           (mkFareEnv (λ _ _, Some (6000, 900))
              (λ _, Some (getSurgeFactorForZone defaultSurge false
                            (Some (25 # 2)) "zone_1290_7750" 3 0 ∅).1))
           "12.9,77.5" "13.0,77.6" 6000 900 false (Some (25 # 2))
           "zone_1290_7750" 3 0 ∅ (mkFareTable 150 231 113 (25 # 20)) Moto).
  - reflexivity.
  - lia.
  - lia.
  - reflexivity.
  - reflexivity.
  - vm_compute. reflexivity.
Defined.

(** ** POST /create *)

(** X8. A ride that POST /create makes (no stored response for its key) is
    priced exactly as GET /get-fare quotes the same trip for the same
    vehicle type from the same upstream answers: the fare in the response,
    the fare of the stored ride and the surge of the response are those of
    the quote. *)
Theorem create_fare_matches_quote
    (fingerprint : string → string → string → string) (env : FareEnv)
    (redisConfigured : bool) (draw uid : nat) (req : CreateRequest)
    (v : Vehicle) (w w1 : World) (out : CreateOut) :
  createAuth req = Some uid →
  redisGet (getIdemKey fingerprint req uid) w = None →
  vehicleOf (createVehicleType req) = Some v →
  create fingerprint env redisConfigured draw req w = (Reply 201 out, w1) →
  ∃ t,
    getFare env (createPickup req) (createDestination req) = Reply 200 t
    ∧ outFare (createdRide out) = fareEntry v t
    ∧ createdSurge out = fareSurge t
    ∧ fare <$> rides w1 !! outId (createdRide out)
      = Some (inject_Z (fareEntry v t)).
Proof.
  intros Hauth Hmiss Hv. unfold create, getFare. rewrite Hauth. simpl.
  rewrite Hmiss.
  assert ((if redisConfigured then None else None) = @None CreateOut) as ->
    by by destruct redisConfigured.
  destruct (distanceTime env _ _) as [[dist dur]|]; [| done].
  rewrite Hv. intros [= <- <-]. eexists. split; [reflexivity |].
  simpl. split_and!.
  - by destruct v.
  - done.
  - destruct redisConfigured; simpl; rewrite lookup_insert_eq; by destruct v.
Qed.

Lemma create_fare_matches_quote_witness :
  ∃ t,
    getFare mockFareEnv (createPickup createRequest)
      (createDestination createRequest) = Reply 200 t
    ∧ outFare (createdRide firstCreateOut) = fareEntry Moto t
    ∧ createdSurge firstCreateOut = fareSurge t
    ∧ fare <$> rides afterCreate !! outId (createdRide firstCreateOut)
      = Some (inject_Z (fareEntry Moto t)).
Proof.
  apply (create_fare_matches_quote (λ _ _ _, "digest"%string) mockFareEnv
           true 42 1 createRequest Moto emptyWorld afterCreate firstCreateOut).
  - reflexivity.
  - reflexivity.
  - reflexivity.
  - vm_compute. reflexivity.
Defined.

(** X9. POST /create takes a non-empty Idempotency-Key header verbatim and
    never compares request bodies: within the hour after a request created
    a ride, any request of the same user with the same header is answered
    with that first ride, whatever pickup, destination and vehicle type it
    asks for, and creates nothing. *)
Theorem create_key_shadows_body
    (fingerprint : string → string → string → string) (env env' : FareEnv)
    (draw draw' uid : nat) (k : string) (req req' : CreateRequest)
    (w w1 : World) (out : CreateOut) (dt : Z) :
  createAuth req = Some uid →
  createAuth req' = Some uid →
  createIdempotencyKey req = Some k →
  createIdempotencyKey req' = Some k →
  k ≠ EmptyString →
  redisGet (getIdemKey fingerprint req uid) w = None →
  create fingerprint env true draw req w = (Reply 201 out, w1) →
  0 ≤ dt < 3600 * 1000 →
  create fingerprint env' true draw' req' (advance dt w1)
  = (Reply 201 out, advance dt w1).
Proof.
  intros Ha Ha' Hk Hk' Hne Hmiss. unfold create. rewrite Ha, Ha'.
  assert (getIdemKey fingerprint req' uid = getIdemKey fingerprint req uid)
    as Hkey.
  { unfold getIdemKey. rewrite Hk, Hk'.
    by destruct (String.eqb_spec k EmptyString). }
  rewrite Hkey. simpl. rewrite Hmiss.
  destruct (distanceTime env _ _) as [[dist dur]|]; [| done].
  destruct (vehicleOf (createVehicleType req)) as [v|]; [| done].
  intros [= <- <-] Hdt.
  unfold redisGet at 1. simpl. rewrite lookup_insert_eq.
  destruct (Z.ltb_spec (clock w + dt) (clock w + 3600 * 1000)); [done | lia].
Qed.

Lemma create_key_shadows_body_witness :
  create (λ _ _ _, "digest"%string) (mkFareEnv (λ _ _, None) (λ _, None)) true
    7 (mkCreateRequest (Some 1%nat) "Airport" "Harbour" "car"
         (Some "key-1"%string))
    (advance 3599999 afterCreate)
  = (Reply 201 firstCreateOut, advance 3599999 afterCreate).
Proof.
  apply (create_key_shadows_body (λ _ _ _, "digest"%string) mockFareEnv
           (mkFareEnv (λ _ _, None) (λ _, None)) 42 7 1 "key-1" createRequest
           (mkCreateRequest (Some 1%nat) "Airport" "Harbour" "car"
              (Some "key-1"%string))
           emptyWorld afterCreate firstCreateOut 3599999).
  - reflexivity.
  - reflexivity.
  - reflexivity.
  - reflexivity.
  - discriminate.
  - reflexivity.
  - vm_compute. reflexivity.
  - lia.
Defined.

(** X10. The deduplication of POST /create ends with the stored response:
    when Redis is not configured, or once 3600 seconds have passed since a
    request created a ride, the same request with the same upstream
    answers creates a second ride under a new id and leaves the first one
    in the store. *)
Theorem create_replay_after_ttl
    (fingerprint : string → string → string → string) (env : FareEnv)
    (redisConfigured : bool) (draw draw' uid : nat) (req : CreateRequest)
    (w w1 : World) (out : CreateOut) (dt : Z) :
  createAuth req = Some uid →
  (if redisConfigured then redisGet (getIdemKey fingerprint req uid) w
   else None) = None →
  create fingerprint env redisConfigured draw req w = (Reply 201 out, w1) →
  redisConfigured = false ∨ 3600 * 1000 ≤ dt →
  ∃ out2 w2,
    create fingerprint env redisConfigured draw' req (advance dt w1)
    = (Reply 201 out2, w2)
    ∧ outId (createdRide out2) ≠ outId (createdRide out)
    ∧ rides w2 !! outId (createdRide out) = rides w1 !! outId (createdRide out)
    ∧ is_Some (rides w1 !! outId (createdRide out))
    ∧ is_Some (rides w2 !! outId (createdRide out2)).
Proof.
  intros Ha Hmiss. unfold create. rewrite Ha. simpl. rewrite Hmiss.
  destruct (distanceTime env _ _) as [[dist dur]|]; [| done].
  destruct (vehicleOf (createVehicleType req)) as [v|]; [| done].
  intros [= <- <-] Hdt.
  set (id := fresh (dom (rides w))).
  set (ride := mkRide uid None _ _ _ _ _).
  assert (fresh (dom (<[id := ride]> (rides w))) ≠ id) as Hfresh.
  { intros Heq.
    pose proof (is_fresh (dom (<[id := ride]> (rides w)))) as Hnot.
    rewrite Heq in Hnot. apply Hnot. rewrite dom_insert_L.
    apply elem_of_union_l. by apply elem_of_singleton. }
  destruct redisConfigured.
  - destruct Hdt as [? | Hge]; [done |].
    unfold redisGet at 1. simpl. rewrite lookup_insert_eq.
    destruct (Z.ltb_spec (clock w + dt) (clock w + 3600 * 1000)); [lia |].
    eexists _, _. split; [reflexivity |]. simpl. split_and!.
    + done.
    + by rewrite lookup_insert_ne.
    + rewrite lookup_insert_eq. eauto.
    + rewrite lookup_insert_eq. eauto.
  - eexists _, _. split; [reflexivity |]. simpl. split_and!.
    + done.
    + by rewrite lookup_insert_ne.
    + rewrite lookup_insert_eq. eauto.
    + rewrite lookup_insert_eq. eauto.
Qed.

Lemma create_replay_after_ttl_witness :
  ∃ out2 w2,
    create (λ _ _ _, "digest"%string) mockFareEnv true 43 createRequest
      (advance 3600000 afterCreate)
    = (Reply 201 out2, w2)
    ∧ outId (createdRide out2) ≠ outId (createdRide firstCreateOut)
    ∧ rides w2 !! outId (createdRide firstCreateOut)
      = rides afterCreate !! outId (createdRide firstCreateOut)
    ∧ is_Some (rides afterCreate !! outId (createdRide firstCreateOut))
    ∧ is_Some (rides w2 !! outId (createdRide out2)).
Proof.
  apply (create_replay_after_ttl (λ _ _ _, "digest"%string) mockFareEnv true
           42 43 1 createRequest emptyWorld afterCreate firstCreateOut
           3600000).
  - reflexivity.
  - reflexivity.
  - vm_compute. reflexivity.
  - right. lia.
Defined.

(** ** The life of a ride: /confirm, /start-ride, /end-ride *)

Lemma serveRide_rides q w :
  rides (serveRide q w).2 = rides w
  ∨ ∃ id f,
      rides (serveRide q w).2 = alter f id (rides w)
      ∧ ((∃ c, q = ConfirmReq (Some c) id
               ∧ f = (λ r, setRideCaptain c (setRideStatus RAccepted r)))
         ∨ (∃ a r, q = StartReq (Some a) id (otp r)
                   ∧ rides w !! id = Some r ∧ rideStatus r = RAccepted
                   ∧ f = setRideStatus ROngoing)
         ∨ (∃ c r, q = EndReq (Some c) id
                   ∧ rides w !! id = Some r ∧ rideStatus r = ROngoing
                   ∧ rideCaptain r = Some c
                   ∧ f = setRideStatus RCompleted)).
Proof.
  destruct q as [[c|] id | [a|] id given | [c|] id]; simpl;
    try (by left).
  - right. exists id, (λ r, setRideCaptain c (setRideStatus RAccepted r)).
    split; [| left; by exists c].
    unfold confirm. destruct (findRidePopulated _ _ _); [| done].
    by destruct (userSocket _).
  - unfold startRide, findRidePopulated.
    destruct (rides w !! id) as [r|] eqn:Hr; simpl; [| by left].
    destruct (decide (rideStatus r = RAccepted)) as [Hs|]; [| by left].
    destruct (decide (Some (otp r) = Some given)) as [[= <-]|]; [| by left].
    right. exists id, (setRideStatus ROngoing). split.
    + by destruct (userSocket _).
    + right. left. by exists a, r.
  - unfold endRide, findRideOfCaptain, findRidePopulated.
    destruct (rides w !! id) as [r|] eqn:Hr; simpl; [| by left].
    destruct (decide (rideCaptain r = Some c)) as [Hc|]; simpl; [| by left].
    destruct (decide (rideStatus r = ROngoing)) as [Hs|]; [| by left].
    right. exists id, (setRideStatus RCompleted). split.
    + by destruct (userSocket _).
    + right. right. by exists c, r.
Qed.

Lemma confirm_ok id c r u w :
  rides w !! id = Some r →
  users w !! rideUser r = Some u →
  ∃ o,
    confirm (Some c) id w
    = (Reply 200 o,
       record (Emitted (mkEmit (accountSocketId u) "ride-confirmed" (RideData o)))
         (setRides (alter (λ r, setRideCaptain c (setRideStatus RAccepted r)) id)
            w))
    ∧ outStatus o = RAccepted ∧ outOtp o = Some (otp r).
Proof.
  intros Hr Hu. unfold confirm, findRidePopulated. simpl.
  rewrite lookup_alter_eq, Hr. simpl.
  rewrite Hu. simpl. eexists. split_and!; reflexivity.
Qed.

Lemma startRide_ok id a r u w :
  rides w !! id = Some r →
  users w !! rideUser r = Some u →
  rideStatus r = RAccepted →
  ∃ o,
    startRide (Some a) id (otp r) w
    = (Reply 200 o,
       record (Emitted (mkEmit (accountSocketId u) "ride-started" (RideData o)))
         (setRides (alter (setRideStatus ROngoing) id) w))
    ∧ outStatus o = RAccepted ∧ outOtp o = Some (otp r).
Proof.
  intros Hr Hu Hs. unfold startRide, findRidePopulated.
  rewrite Hr. simpl. rewrite !decide_True by done.
  rewrite Hu. simpl.
  eexists. split_and!; [reflexivity | done | done].
Qed.

Lemma endRide_ok id c r u w :
  rides w !! id = Some r →
  users w !! rideUser r = Some u →
  rideStatus r = ROngoing →
  rideCaptain r = Some c →
  ∃ o,
    endRide (Some c) id w
    = (Reply 200 o,
       record (Emitted (mkEmit (accountSocketId u) "ride-ended" (RideData o)))
         (setRides (alter (setRideStatus RCompleted) id) w))
    ∧ outStatus o = ROngoing ∧ outOtp o = Some (otp r).
Proof.
  intros Hr Hu Hs Hc. unfold endRide, findRideOfCaptain, findRidePopulated.
  rewrite Hr. simpl. rewrite !decide_True by done. simpl.
  rewrite ?decide_True by done.
  rewrite Hu. simpl.
  eexists. split_and!; [reflexivity | done | done].
Qed.

(** X11. For every ride of the store whose rider's account exists, whatever
    its status and captain: POST /confirm by c, GET /start-ride with the
    ride's own OTP and POST /end-ride by c all answer 200, in this order,
    and leave the ride completed with captain c; each sends its event to
    the rider's socket. *)
Theorem ride_lifecycle (id c a : nat) (r : Ride) (u : Account) (w : World) :
  rides w !! id = Some r →
  users w !! rideUser r = Some u →
  ∃ o1 w1 o2 w2 o3 w3,
    confirm (Some c) id w = (Reply 200 o1, w1)
    ∧ startRide (Some a) id (otp r) w1 = (Reply 200 o2, w2)
    ∧ endRide (Some c) id w2 = (Reply 200 o3, w3)
    ∧ rides w3
      = <[id := setRideCaptain c (setRideStatus RCompleted r)]> (rides w)
    ∧ emitted w3
      = emitted w
        ++ [mkEmit (accountSocketId u) "ride-confirmed" (RideData o1);
            mkEmit (accountSocketId u) "ride-started" (RideData o2);
            mkEmit (accountSocketId u) "ride-ended" (RideData o3)].
Proof.
  intros Hr Hu.
  destruct (confirm_ok id c r u w Hr Hu) as (o1 & H1 & _).
  set (w1 := record _ _) in H1.
  destruct (startRide_ok id a (setRideCaptain c (setRideStatus RAccepted r)) u w1)
    as (o2 & H2 & _); [by (simpl; rewrite lookup_alter_eq, Hr) | done | done |].
  set (w2 := record _ _) in H2.
  destruct (endRide_ok id c
              (setRideStatus ROngoing
                 (setRideCaptain c (setRideStatus RAccepted r))) u w2)
    as (o3 & H3 & _);
    [by (simpl; rewrite !lookup_alter_eq, Hr) | done | done | done |].
  set (w3 := record _ _) in H3.
  exists o1, w1, o2, w2, o3, w3. split_and!; [done | done | done | |].
  - simpl. apply map_eq. intros j. destruct (decide (j = id)) as [-> |].
    + by rewrite !lookup_alter_eq, lookup_insert_eq, Hr.
    + by rewrite !lookup_alter_ne, lookup_insert_ne.
  - unfold emitted. simpl. rewrite !omap_app. simpl. by rewrite <- !app_assoc.
Qed.

Lemma ride_lifecycle_witness :
  ∃ o1 w1 o2 w2 o3 w3,
    confirm (Some 11%nat) 0 rideCreated = (Reply 200 o1, w1)
    ∧ startRide (Some 11%nat) 0 "000042" w1 = (Reply 200 o2, w2)
    ∧ endRide (Some 11%nat) 0 w2 = (Reply 200 o3, w3)
    ∧ rides w3
      = <[0%nat := setRideCaptain 11
                     (setRideStatus RCompleted
                        (mkRide 1 None "12.97,77.59" "12.93,77.62" 83 RPending
                           "000042"))]> (rides rideCreated)
    ∧ emitted w3
      = emitted rideCreated
        ++ [mkEmit (Some "rider-socket"%string) "ride-confirmed" (RideData o1);
            mkEmit (Some "rider-socket"%string) "ride-started" (RideData o2);
            mkEmit (Some "rider-socket"%string) "ride-ended" (RideData o3)].
Proof.
  apply (ride_lifecycle 0 11 11
           (mkRide 1 None "12.97,77.59" "12.93,77.62" 83 RPending "000042")
           (mkAccount (Some "rider-socket"%string) (Some "$2b$10$hash"%string)
              None)
           rideCreated).
  - vm_compute. reflexivity.
  - vm_compute. reflexivity.
Defined.

(** X12. The ride in a 200 answer of GET /start-ride or POST /end-ride is
    the document read before the update: /start-ride answers with status
    accepted while the store already holds ongoing, and /end-ride answers
    with status ongoing while the store holds completed. The answer of
    POST /confirm is read after its update and shows accepted. *)
Theorem ride_answer_status (q : RideRequest) (w w1 : World) (out : RideOut) :
  serveRide q w = (Reply 200 out, w1) →
  match q with
  | ConfirmReq _ id =>
      outStatus out = RAccepted
      ∧ rideStatus <$> rides w1 !! id = Some RAccepted
  | StartReq _ id _ =>
      outStatus out = RAccepted
      ∧ rideStatus <$> rides w1 !! id = Some ROngoing
  | EndReq _ id =>
      outStatus out = ROngoing
      ∧ rideStatus <$> rides w1 !! id = Some RCompleted
  end.
Proof.
  destruct q as [[c|] id | [a|] id given | [c|] id]; simpl; try done.
  - unfold confirm, findRidePopulated. simpl. rewrite lookup_alter_eq.
    destruct (rides w !! id) as [r|] eqn:Hr; [| done]. simpl.
    destruct (userSocket _); [| done]. intros [= <- <-]. simpl.
    by rewrite lookup_alter_eq, Hr.
  - unfold startRide, findRidePopulated.
    destruct (rides w !! id) as [r|] eqn:Hr; [| done]. simpl.
    destruct (decide (rideStatus r = RAccepted)) as [Hs|]; [| done].
    destruct (decide _); [| done].
    destruct (userSocket _); [| done]. intros [= <- <-]. simpl.
    by rewrite lookup_alter_eq, Hr.
  - unfold endRide, findRideOfCaptain, findRidePopulated.
    destruct (rides w !! id) as [r|] eqn:Hr; [| done]. simpl.
    destruct (decide (rideCaptain r = Some c)); [| done]. simpl.
    destruct (decide (rideStatus r = ROngoing)) as [Hs|]; [| done].
    destruct (userSocket _); [| done]. intros [= <- <-]. simpl.
    by rewrite lookup_alter_eq, Hr.
Qed.

Lemma ride_answer_status_witness :
  outStatus confirmedOut = RAccepted
  ∧ rideStatus
      <$> rides (startRide (Some 11%nat) 0 "000042" afterConfirm).2 !! 0%nat
    = Some ROngoing.
Proof.
  apply (ride_answer_status (StartReq (Some 11%nat) 0 "000042") afterConfirm
           (startRide (Some 11%nat) 0 "000042" afterConfirm).2 confirmedOut).
  vm_compute. reflexivity.
Defined.

Lemma serveRide_terms q w id :
  rideTerms <$> rides (serveRide q w).2 !! id = rideTerms <$> rides w !! id.
Proof.
  destruct (serveRide_rides q w) as [-> | (id0 & f & -> & Hf)]; [done |].
  destruct (decide (id = id0)) as [-> |]; [| by rewrite lookup_alter_ne].
  rewrite lookup_alter_eq. destruct (rides w !! id0) as [r|]; [| done].
  simpl. f_equal.
  destruct Hf as [(c & _ & ->) | [(a & r0 & _ & _ & _ & ->)
                                 | (c & r0 & _ & _ & _ & _ & ->)]]; done.
Qed.

(** X13. No sequence of /confirm, /start-ride and /end-ride requests, by
    whomever and in whatever order, adds or removes a ride or changes the
    rider, the pickup, the destination, the fare or the OTP of a ride. *)
Theorem ride_requests_keep_terms (qs : list RideRequest) (w : World)
    (id : nat) :
  rideTerms <$> rides (serveRides qs w) !! id = rideTerms <$> rides w !! id.
Proof.
  revert w. induction qs as [|q qs IH]; intros w; [done |].
  unfold serveRides in *. simpl. rewrite IH. apply serveRide_terms.
Qed.

(** X14. A single request changes the status or the captain of a stored
    ride only in three ways: /confirm by an authenticated caller makes it
    accepted with the caller as captain (from any status); /start-ride
    with the ride's own OTP moves it from accepted to ongoing; /end-ride by
    the ride's captain moves it from ongoing to completed. *)
Theorem ride_status_transitions (q : RideRequest) (w : World) (id : nat)
    (r r' : Ride) :
  rides w !! id = Some r →
  rides (serveRide q w).2 !! id = Some r' →
  rideStatus r' ≠ rideStatus r ∨ rideCaptain r' ≠ rideCaptain r →
  (∃ c, q = ConfirmReq (Some c) id
        ∧ rideStatus r' = RAccepted ∧ rideCaptain r' = Some c)
  ∨ (∃ a, q = StartReq (Some a) id (otp r)
          ∧ rideStatus r = RAccepted ∧ rideStatus r' = ROngoing
          ∧ rideCaptain r' = rideCaptain r)
  ∨ (∃ c, q = EndReq (Some c) id
          ∧ rideStatus r = ROngoing ∧ rideCaptain r = Some c
          ∧ rideStatus r' = RCompleted ∧ rideCaptain r' = Some c).
Proof.
  intros Hr Hr' Hch.
  destruct (serveRide_rides q w) as [E | (id0 & f & E & Hf)];
    rewrite E in Hr'.
  { assert (r' = r) as -> by congruence. by destruct Hch. }
  destruct (decide (id = id0)) as [-> |].
  2: { rewrite lookup_alter_ne in Hr' by done.
       assert (r' = r) as -> by congruence. by destruct Hch. }
  rewrite lookup_alter_eq, Hr in Hr'. injection Hr' as <-.
  destruct Hf as [(c & -> & ->) | [(a & r0 & -> & Hr0 & Hs & ->)
                                  | (c & r0 & -> & Hr0 & Hs & Hc & ->)]].
  - left. by exists c.
  - right. left. assert (r0 = r) as -> by congruence. by exists a.
  - right. right. assert (r0 = r) as -> by congruence. exists c.
    split_and!; try done.
Qed.

Lemma ride_status_transitions_witness :
  (∃ c, StartReq (Some 11%nat) 0 "000042" = ConfirmReq (Some c) 0
        ∧ rideStatus
            (mkRide 1 (Some 11%nat) "12.97,77.59" "12.93,77.62" 83 ROngoing
               "000042") = RAccepted
        ∧ rideCaptain
            (mkRide 1 (Some 11%nat) "12.97,77.59" "12.93,77.62" 83 ROngoing
               "000042") = Some c)
  ∨ (∃ a, StartReq (Some 11%nat) 0 "000042"
          = StartReq (Some a) 0
              (otp (mkRide 1 (Some 11%nat) "12.97,77.59" "12.93,77.62" 83
                      RAccepted "000042"))
          ∧ rideStatus
              (mkRide 1 (Some 11%nat) "12.97,77.59" "12.93,77.62" 83 RAccepted
                 "000042") = RAccepted
          ∧ rideStatus
              (mkRide 1 (Some 11%nat) "12.97,77.59" "12.93,77.62" 83 ROngoing
                 "000042") = ROngoing
          ∧ rideCaptain
              (mkRide 1 (Some 11%nat) "12.97,77.59" "12.93,77.62" 83 ROngoing
                 "000042")
            = rideCaptain
                (mkRide 1 (Some 11%nat) "12.97,77.59" "12.93,77.62" 83
                   RAccepted "000042"))
  ∨ (∃ c, StartReq (Some 11%nat) 0 "000042" = EndReq (Some c) 0
          ∧ rideStatus
              (mkRide 1 (Some 11%nat) "12.97,77.59" "12.93,77.62" 83 RAccepted
                 "000042") = ROngoing
          ∧ rideCaptain
              (mkRide 1 (Some 11%nat) "12.97,77.59" "12.93,77.62" 83 RAccepted
                 "000042") = Some c
          ∧ rideStatus
              (mkRide 1 (Some 11%nat) "12.97,77.59" "12.93,77.62" 83 ROngoing
                 "000042") = RCompleted
          ∧ rideCaptain
              (mkRide 1 (Some 11%nat) "12.97,77.59" "12.93,77.62" 83 ROngoing
                 "000042") = Some c).
Proof.
  apply (ride_status_transitions (StartReq (Some 11%nat) 0 "000042")
           afterConfirm 0
           (mkRide 1 (Some 11%nat) "12.97,77.59" "12.93,77.62" 83 RAccepted
              "000042")
           (mkRide 1 (Some 11%nat) "12.97,77.59" "12.93,77.62" 83 ROngoing
              "000042")).
  - vm_compute. reflexivity.
  - vm_compute. reflexivity.
  - left. discriminate.
Defined.

(** ** What one job of the worker does *)

Lemma await_captains w : captains (await w) = captains w.
Proof.
  apply (await_preserves (λ w', captains w' = captains w)); try done.
  intros a w' Hw'.
  serve_frame a w'; done.
Qed.

Lemma tracked_await id ident n w :
  tracked id ident n w → tracked id ident n (await w).
Proof.
  apply (await_dispatch (λ d, identityOf d = ident ∧ currentIndex d = n) id w).
  - intros d idx s _ [<- <-]. split; [apply identityOf_setCandStatus | done].
  - done.
Qed.

Lemma tracked_waitForAck id ident n fuel i started ackSec w r w' :
  tracked id ident n w →
  waitForAck fuel id i started ackSec w = Some (r, w') → tracked id ident n w'.
Proof.
  apply (waitForAck_preserves (tracked id ident n)).
  - apply tracked_await.
  - done.
Qed.

Lemma tracked_markTimeout id ident n i w :
  tracked id ident n w → tracked id ident (S i) (markTimeout id i w).
Proof.
  intros H. apply tracked_await in H as (d & Hd & Hi & _).
  exists (setCurrentIndex (S i) (setCandStatus i CTimeout d)).
  unfold markTimeout.
  rewrite lookup_updateDispatch, decide_True, Hd by done.
  split_and!; [done | | done]. rewrite <- Hi.
  apply (identityOf_setCandStatus i CTimeout d).
Qed.

Lemma waitForAck_users fuel id i started ackSec w r w' :
  waitForAck fuel id i started ackSec w = Some (r, w') → users w' = users w.
Proof.
  apply (waitForAck_preserves (λ w0, users w0 = users w)); [| done | done].
  intros w0 <-. apply await_users.
Qed.

Lemma waitForAck_captains fuel id i started ackSec w r w' :
  waitForAck fuel id i started ackSec w = Some (r, w') →
  captains w' = captains w.
Proof.
  apply (waitForAck_preserves (λ w0, captains w0 = captains w)); [| done | done].
  intros w0 <-. apply await_captains.
Qed.

Lemma waitForAck_clock fuel id i started ackSec : ∀ w r w',
  waitForAck fuel id i started ackSec w = Some (r, w') → clock w ≤ clock w'.
Proof.
  induction fuel as [|fuel IH]; intros w r w'; simpl.
  - destruct (_ <? _); [done |]. by intros [= _ <-].
  - destruct (_ <? _); [| by intros [= _ <-]].
    pose proof (await_clock w) as Hc.
    pose proof (sleep_clock 1000 (await w)) as Hs.
    destruct (dispatches (await w) !! id) as [cur|]; [| by intros [= _ <-]].
    destruct (decide (dispatchStatus cur = DPending)); [| by intros [= _ <-]].
    assert (waitForAck fuel id i started ackSec (sleep 1000 (await w))
            = Some (r, w') → clock w ≤ clock w') as Hrec.
    { intros H. apply IH in H. lia. }
    destruct (candidates cur !! i) as [cand|]; [| done].
    destruct (decide (candStatus cand = CAck)); [by intros [= _ <-] | done].
Qed.

Lemma identityOf_candidate d d' i c :
  identityOf d' = identityOf d → candidates d !! i = Some c →
  ∃ c', candidates d' !! i = Some c' ∧ captainId c' = captainId c
        ∧ socketId c' = socketId c ∧ etaSec c' = etaSec c.
Proof.
  unfold identityOf. intros [= _ _ _ _ Hc] Hi.
  assert (((λ c, (captainId c, socketId c, etaSec c)) <$> candidates d') !! i
          = Some (captainId c, socketId c, etaSec c)) as Hl
    by by rewrite Hc, list_lookup_fmap, Hi.
  rewrite list_lookup_fmap in Hl.
  destruct (candidates d' !! i) as [c'|]; [| done].
  injection Hl as H1 H2 H3. by exists c'.
Qed.

Lemma workerRide_identity env d d' captain :
  identityOf d' = identityOf d →
  workerRide env d' captain = workerRide env d captain.
Proof.
  intros Hi. unfold workerRide. rewrite (workerFare_identity env d d' Hi).
  unfold identityOf in Hi. by injection Hi as -> -> -> _ _.
Qed.

Lemma committed_ext w id i rid ident w' :
  dispatches w' = dispatches w →
  committed id i rid ident w → committed id i rid ident w'.
Proof. unfold committed. by intros ->. Qed.

(** What the commit wrote stays, whatever the other clients do. *)
Lemma committed_await id i rid ident w :
  committed id i rid ident w → committed id i rid ident (await w).
Proof.
  apply (await_dispatch
           (λ d, dispatchStatus d = DAssigned ∧ currentIndex d = i
                 ∧ rideId d = Some rid ∧ identityOf d = ident) id w).
  - intros d idx s _ (H1 & H2 & H3 & H4).
    by rewrite identityOf_setCandStatus.
  - intros d Hp (H1 & _). congruence.
Qed.

(** The acked branch, on a dispatch that is in the store. *)
Lemma commitAssignment_outcome env id i d n w exit w' :
  tracked id (identityOf d) n w →
  is_Some (candidates d !! i) →
  commitAssignment env id i w = (exit, w') →
  users w' = users w
  ∧ clock w ≤ clock w'
  ∧ exit = Assigned
  ∧ ∃ c rid d',
      candidates d !! i = Some c
      ∧ rides w !! rid = None
      ∧ rides w' = <[rid := workerRide env d (captainId c)]> (rides w)
      ∧ captains w'
        = alter (setAccountStatus "inactive") (captainId c) (captains w)
      ∧ emitted w' = emitted w ++ assignmentEvents id rid c (riderSocketOf w d)
      ∧ dispatches w' !! id = Some d'
      ∧ dispatchStatus d' = DAssigned
      ∧ currentIndex d' = i
      ∧ rideId d' = Some rid
      ∧ identityOf d' = identityOf d.
Proof.
  intros Ht [c Hc]. unfold commitAssignment.
  apply tracked_await in Ht as H1. destruct H1 as (cur & Hcur & Hident & _).
  rewrite Hcur.
  destruct (identityOf_candidate d cur i c Hident Hc)
    as (cand & Hcand & Hcap & Hsock & _).
  rewrite Hcand.
  set (w3 := await (await (await w))).
  set (w4 := setCaptains _ w3).
  set (w5 := await w4).
  set (ride := mkRide _ _ _ _ _ _ _).
  set (rid := fresh (dom (rides w5))).
  set (w6 := setRides (insert rid ride) w5).
  set (G := λ d, setCandStatus i CAssigned
                   (setRideId rid (setCurrentIndex i
                      (setDispatchStatus DAssigned d)))).
  set (w7 := updateDispatch id G (await w6)).
  set (e8 := mkEmit (socketId cand) _ _).
  assert (ride = workerRide env d (captainId c)) as Hride.
  { rewrite <- Hcap, <- (workerRide_identity env d cur _ Hident). done. }
  assert (tracked id (identityOf d) n (await w6)) as (d6 & Hd6 & Hid6 & _).
  { apply tracked_await.
    assert (tracked id (identityOf d) n w3) as H3
      by (unfold w3; by do 3 apply tracked_await).
    apply (tracked_await id (identityOf d) n w4) in H3. exact H3. }
  assert (rides w5 = rides w) as Hr5.
  { unfold w5. rewrite await_rides. unfold w4. simpl. unfold w3.
    by rewrite !await_rides. }
  assert (rides w5 !! rid = None) as Hfree by apply not_elem_of_dom, is_fresh.
  assert (users w7 = users w) as Hu7.
  { unfold w7. simpl. rewrite await_users. unfold w6. simpl. unfold w5.
    rewrite await_users. unfold w4. simpl. unfold w3. by rewrite !await_users. }
  assert (captains w7
          = alter (setAccountStatus "inactive") (captainId c) (captains w))
    as Hc7.
  { unfold w7. simpl. rewrite await_captains. unfold w6. simpl. unfold w5.
    rewrite await_captains. unfold w4. simpl. unfold w3.
    by rewrite !await_captains, Hcap. }
  assert (rides w7 = <[rid := workerRide env d (captainId c)]> (rides w))
    as Hr7.
  { unfold w7. simpl. rewrite await_rides. unfold w6. simpl.
    by rewrite Hr5, Hride. }
  assert (emitted w7 = emitted w) as He7.
  { unfold w7. simpl.
    change (emitted (updateDispatch id G (await w6)))
      with (emitted (await w6)).
    rewrite await_emitted.
    change (emitted w6) with (emitted w5). unfold w5. rewrite await_emitted.
    change (emitted w4) with (emitted w3). unfold w3.
    by rewrite !await_emitted. }
  assert (clock w ≤ clock w7) as Hk7.
  { pose proof (await_clock w) as K1.
    pose proof (await_clock (await w)) as K2.
    pose proof (await_clock (await (await w))) as K3.
    pose proof (await_clock w4) as K4.
    pose proof (await_clock w6) as K6.
    change (clock w4) with (clock (await (await (await w)))) in K4.
    change (clock w6) with (clock (await w4)) in K6.
    change (clock w7) with (clock (await w6)). lia. }
  assert (dispatches w7 !! id = Some (G d6)) as Hd7.
  { unfold w7. by rewrite lookup_updateDispatch, decide_True, Hd6. }
  assert (identityOf (G d6) = identityOf d) as HidG.
  { rewrite <- Hid6. unfold G. by rewrite identityOf_setCandStatus. }
  assert (committed id i rid (identityOf d) w7) as Hm7 by by exists (G d6).
  set (w9 := await (emit e8 w7)).
  assert (users w9 = users w ∧ captains w9 = captains w7 ∧ rides w9 = rides w7
          ∧ emitted w9 = emitted w ++ [e8] ∧ clock w ≤ clock w9
          ∧ committed id i rid (identityOf d) w9)
    as (Hu9 & Hc9 & Hr9 & He9 & Hk9 & Hd9).
  { unfold w9, emit. split_and!.
    - rewrite await_users. simpl. by rewrite await_users.
    - rewrite await_captains. simpl. by rewrite await_captains.
    - rewrite await_rides. simpl. by rewrite await_rides.
    - by rewrite await_emitted, emitted_record_emitted, await_emitted, He7.
    - pose proof (await_clock (record (Emitted e8) (await w7))).
      pose proof (await_clock w7). simpl in *. lia.
    - apply committed_await.
      apply (committed_ext (await w7)); [done |]. by apply committed_await. }
  assert (riderSocketOf w d = users w9 !! dispatchUser cur ≫= accountSocketId)
    as Hsock9.
  { unfold riderSocketOf. rewrite Hu9.
    unfold identityOf in Hident. by injection Hident as -> _ _ _ _. }
  assert (e8 = mkEmit (socketId c) "ride-offer-accepted"
                 (OfferAcceptedData id rid)) as He8
    by (unfold e8; by rewrite Hsock).
  assert (∀ w0 evs,
            users w0 = users w → captains w0 = captains w7 →
            rides w0 = rides w7 → clock w ≤ clock w0 →
            committed id i rid (identityOf d) w0 →
            emitted w0 = emitted w ++ evs →
            assignmentEvents id rid c (riderSocketOf w d) = evs →
            (exit, w') = (Assigned, w0) →
            users w' = users w ∧ clock w ≤ clock w' ∧ exit = Assigned
            ∧ ∃ c0 rid0 d',
                candidates d !! i = Some c0
                ∧ rides w !! rid0 = None
                ∧ rides w' = <[rid0 := workerRide env d (captainId c0)]> (rides w)
                ∧ captains w'
                  = alter (setAccountStatus "inactive") (captainId c0)
                      (captains w)
                ∧ emitted w'
                  = emitted w ++ assignmentEvents id rid0 c0 (riderSocketOf w d)
                ∧ dispatches w' !! id = Some d'
                ∧ dispatchStatus d' = DAssigned
                ∧ currentIndex d' = i
                ∧ rideId d' = Some rid0
                ∧ identityOf d' = identityOf d) as Hfin.
  { intros w0 evs Hu0 Hc0 Hr0 Hk0 (d0 & Hd0 & Hs0 & Hi0 & Hrid0 & Hident0) He0
      Hevs [= -> ->].
    split_and!; [done | done | done |].
    exists c, rid, d0. split_and!; try done.
    - by rewrite <- Hr5.
    - by rewrite Hr0.
    - by rewrite Hc0.
    - by rewrite Hevs. }
  fold w3 w4 w5 ride rid w6 G w7 e8 w9.
  destruct (users w9 !! dispatchUser cur) as [u|] eqn:Hu.
  2: { intros E.
       apply (Hfin w9 [e8]); [done | done | done | done | done | done | |
                              by symmetry].
       unfold assignmentEvents. rewrite Hsock9. simpl. by rewrite He8. }
  destruct (accountSocketId u) as [s|] eqn:Hs.
  2: { intros E.
       apply (Hfin w9 [e8]); [done | done | done | done | done | done | |
                              by symmetry].
       unfold assignmentEvents. rewrite Hsock9. simpl.
       by rewrite Hs, He8. }
  destruct (String.eqb s EmptyString) eqn:Hse.
  { intros E.
    apply (Hfin w9 [e8]); [done | done | done | done | done | done | |
                           by symmetry].
    unfold assignmentEvents. rewrite Hsock9. simpl.
    by rewrite Hs, Hse, He8. }
  intros E.
  apply (Hfin (emit (mkEmit (Some s) "ride-assigned" (RideAssignedData rid)) w9)
           [e8; mkEmit (Some s) "ride-assigned" (RideAssignedData rid)]);
    [| | | | | | | by symmetry].
  - unfold emit. simpl. by rewrite await_users.
  - unfold emit. simpl. by rewrite await_captains.
  - unfold emit. simpl. by rewrite await_rides.
  - unfold emit. simpl. pose proof (await_clock w9). lia.
  - apply (committed_ext (await w9)); [done |]. by apply committed_await.
  - unfold emit. by rewrite emitted_record_emitted, await_emitted, He9,
      <- app_assoc.
  - unfold assignmentEvents. rewrite Hsock9. simpl.
    by rewrite Hs, Hse, He8.
Qed.

Lemma riderSocketOf_users w w' d :
  users w' = users w → riderSocketOf w' d = riderSocketOf w d.
Proof. unfold riderSocketOf. by intros ->. Qed.

Lemma drop_cons_lookup {A} (l : list A) i c rest :
  drop i l = c :: rest → l !! i = Some c ∧ drop (S i) l = rest.
Proof.
  intros H.
  assert (l !! i = Some c) as Hl
    by by rewrite <- (Nat.add_0_r i), <- lookup_drop, H.
  split; [done |]. rewrite (drop_S l c i Hl) in H. by injection H.
Qed.

(** The loop, from any index on. *)
Lemma offerLoop_outcome env id d ackSec : ∀ rest i w exit w',
  tracked id (identityOf d) i w →
  drop i (candidates d) = rest →
  offerLoop env id d ackSec rest i w = Some (exit, w') →
  ∃ k, loopOutcome env id d ackSec rest i w w' exit k.
Proof.
  induction rest as [|c rest IH]; intros i w exit w' Ht Hdrop; simpl.
  - intros [= <- <-]. exists 0%nat. unfold loopOutcome, noCandidateAccepted.
    apply tracked_await in Ht as (d1 & Hd1 & Hi1 & Hc1).
    pose proof (await_clock w) as Hk.
    split_and!; simpl.
    + apply await_users.
    + lia.
    + done.
    + apply await_rides.
    + apply await_captains.
    + change (emitted (updateDispatch id (setDispatchStatus DCancelled) (await w)))
        with (emitted (await w)).
      by rewrite await_emitted, app_nil_r.
    + exists (setDispatchStatus DCancelled d1).
      rewrite lookup_alter_eq, Hd1. split_and!; [done | done | done |].
      simpl. lia.
  - apply drop_cons_lookup in Hdrop as [Hc Hrest].
    set (w1 := emit (offerEvent id d c) w).
    destruct (waitForAck _ _ _ _ _ _) as [[r w2]|] eqn:Hwait; [| done].
    assert (tracked id (identityOf d) i w1) as Ht1 by by apply tracked_await.
    pose proof (tracked_waitForAck _ _ _ _ _ _ _ _ _ _ Ht1 Hwait) as Ht2.
    assert (users w2 = users w) as Hu2.
    { rewrite (waitForAck_users _ _ _ _ _ _ _ _ Hwait). apply await_users. }
    assert (rides w2 = rides w) as Hr2.
    { rewrite (waitForAck_rides _ _ _ _ _ _ _ _ Hwait). apply await_rides. }
    assert (captains w2 = captains w) as Hc2.
    { rewrite (waitForAck_captains _ _ _ _ _ _ _ _ Hwait). apply await_captains. }
    assert (emitted w2 = emitted w ++ [offerEvent id d c]) as He2.
    { rewrite (waitForAck_emitted _ _ _ _ _ _ _ _ Hwait). unfold w1, emit.
      by rewrite emitted_record_emitted, await_emitted. }
    assert (clock w ≤ clock w1) as Hk1 by apply await_clock.
    pose proof (waitForAck_clock _ _ _ _ _ _ _ _ Hwait) as Hk2.
    destruct r.
    + intros [= E]. destruct (commitAssignment env id i w2) as [x w3] eqn:Hcm.
      injection E as -> ->.
      destruct (commitAssignment_outcome env id i d i w2 exit w' Ht2
                  ltac:(eauto) Hcm)
        as (Hu & Hk & -> & c0 & rid & d' & Hc0 & Hfree & Hr & Hcap & He & Hd'
            & Hs & Hci & Hrid & Hid).
      assert (c0 = c) as -> by congruence.
      exists 0%nat. unfold loopOutcome. split_and!; [congruence | lia |].
      exists c, rid, d'. split_and!; try done.
      * by rewrite <- Hr2.
      * by rewrite Hr, Hr2.
      * by rewrite Hcap, Hc2.
      * rewrite He, He2, (riderSocketOf_users w w2 d Hu2), <- app_assoc.
        simpl. by destruct rest.
      * lia.
    + intros Hloop.
      apply waitForAck_elapsed in Hwait as Hwin.
      pose proof (tracked_markTimeout id (identityOf d) i i w2 Ht2) as Htm.
      destruct (IH (S i) (markTimeout id i w2) exit w' Htm Hrest Hloop) as [k Hout].
      exists (S k). unfold loopOutcome in *.
      assert (users (markTimeout id i w2) = users w) as Hum
        by (unfold markTimeout; simpl; by rewrite await_users).
      assert (rides (markTimeout id i w2) = rides w) as Hrm
        by (unfold markTimeout; simpl; by rewrite await_rides).
      assert (captains (markTimeout id i w2) = captains w) as Hcm
        by (unfold markTimeout; simpl; by rewrite await_captains).
      assert (emitted (markTimeout id i w2) = emitted w ++ [offerEvent id d c])
        as Hem.
      { change (emitted (markTimeout id i w2)) with (emitted (await w2)).
        by rewrite await_emitted. }
      assert (clock w + ackSec * 1000 ≤ clock (markTimeout id i w2)) as Hkm.
      { change (clock (markTimeout id i w2)) with (clock (await w2)).
        pose proof (await_clock w2). pose proof (await_clock w). lia. }
      destruct Hout as (Hu & Hk & Hex). split_and!.
      * congruence.
      * rewrite Nat2Z.inj_succ, Z.mul_succ_l. lia.
      * destruct exit; try done.
        -- destruct Hex as (Hlt & Hr & Hcp & He & d' & Hd' & Hs & Hid & Hci).
           split_and!; [simpl; lia | congruence | congruence | |].
           ++ by rewrite He, Hem, <- app_assoc.
           ++ exists d'. split_and!; [done | done | done | lia].
        -- destruct Hex as (c0 & rid & d' & Hc0 & Hfree & Hr & Hcp & He & Hd'
                            & Hs & Hci & Hrid & Hid).
           exists c0, rid, d'. split_and!; try done.
           ++ by rewrite <- Hrm.
           ++ by rewrite Hr, Hrm.
           ++ by rewrite Hcp, Hcm.
           ++ rewrite He, Hem, (riderSocketOf_users w _ d Hum), <- !app_assoc.
              done.
           ++ lia.
        -- destruct Hex as (-> & Hr & Hcp & He & d' & Hd' & Hs & Hid & Hci).
           split_and!; [done | congruence | congruence | |].
           ++ by rewrite He, Hem, <- app_assoc.
           ++ exists d'. split_and!; [done | done | done | lia].
    + intros [= <- <-].
      apply waitForAck_result in Hwait as Hstop.
      destruct Ht2 as (d2 & Hd2 & Hid2 & Hci2).
      exists 0%nat. unfold loopOutcome. split; [done |]. split; [lia |].
      split_and!; [simpl; lia | done | done | |].
      * simpl. by destruct rest.
      * exists d2. split_and!; [done | by apply Hstop | done | lia].
Qed.

(** The job: the outcome of the loop from the cursor of the dispatch read
    at the start. *)
Lemma offerJob_outcome env job id d w exit w' :
  jobDispatchId job = Some id →
  dispatches (await w) !! id = Some d →
  dispatchStatus d = DPending →
  offerJob env job w = Some (exit, w') →
  ∃ k, loopOutcome env id d (ackSecOf env job)
         (drop (currentIndex d) (candidates d)) (currentIndex d) (await w) w'
         exit k.
Proof.
  intros Hid Hd Hp. unfold offerJob. rewrite Hid, Hd.
  rewrite decide_True by done.
  apply offerLoop_outcome; [| done]. by exists d.
Qed.

(** X15. The events of a job on a pending dispatch are ride-offer events to
    the candidates from the cursor on, one each, in the stored order and
    without a gap, and nothing else, unless the job ends by an assignment:
    then they are followed by ride-offer-accepted to the candidate offered
    last and, when the rider's account has a socket id, ride-assigned to
    the rider. A candidate before the cursor gets no event. *)
Theorem offerJob_events (env : WorkerEnv) (job : Job) (id : nat)
    (d : Dispatch) (w w' : World) (exit : Exit) :
  jobDispatchId job = Some id →
  dispatches (await w) !! id = Some d →
  dispatchStatus d = DPending →
  offerJob env job w = Some (exit, w') →
  ∃ n,
    (n ≤ length (drop (currentIndex d) (candidates d)))%nat
    ∧ match exit with
      | Assigned =>
          ∃ c rid,
            (0 < n)%nat
            ∧ drop (currentIndex d) (candidates d) !! (n - 1)%nat = Some c
            ∧ emitted w'
              = emitted w
                ++ (offerEvent id d
                      <$> take n (drop (currentIndex d) (candidates d)))
                ++ assignmentEvents id rid c (riderSocketOf w d)
      | _ =>
          emitted w'
          = emitted w
            ++ (offerEvent id d
                  <$> take n (drop (currentIndex d) (candidates d)))
      end.
Proof.
  intros Hid Hd Hp Hjob.
  destruct (offerJob_outcome env job id d w exit w' Hid Hd Hp Hjob)
    as (k & Hu & Hk & Hex).
  rewrite await_emitted in Hex.
  destruct exit; try done.
  - destruct Hex as (Hlt & _ & _ & He & _). exists (S k). split; [lia | done].
  - destruct Hex as (c & rid & d' & Hc & _ & _ & _ & He & _).
    exists (S k). split; [by apply lookup_lt_Some in Hc |].
    exists c, rid. split_and!; [lia | by rewrite Nat.sub_1_r |].
    by rewrite He, (riderSocketOf_users w (await w) d (await_users w)).
  - destruct Hex as (-> & _ & _ & He & _).
    exists (length (drop (currentIndex d) (candidates d))).
    split; [done |]. by rewrite firstn_all.
Qed.

Lemma offerJob_events_witness :
  ∃ n,
    (n ≤ length (drop (currentIndex (dispatchOf [candA; candB; candC]))
                   (candidates (dispatchOf [candA; candB; candC]))))%nat
    ∧ ∃ c rid,
        (0 < n)%nat
        ∧ drop (currentIndex (dispatchOf [candA; candB; candC]))
            (candidates (dispatchOf [candA; candB; candC])) !! (n - 1)%nat
          = Some c
        ∧ emitted (runJob workerEnv (jobFor 30) happyPath).2
          = emitted happyPath
            ++ (offerEvent 0 (dispatchOf [candA; candB; candC])
                  <$> take n
                        (drop (currentIndex (dispatchOf [candA; candB; candC]))
                           (candidates (dispatchOf [candA; candB; candC]))))
            ++ assignmentEvents 0 rid c
                 (riderSocketOf happyPath (dispatchOf [candA; candB; candC])).
Proof.
  apply (offerJob_events workerEnv (jobFor 30) 0
           (dispatchOf [candA; candB; candC]) happyPath
           (runJob workerEnv (jobFor 30) happyPath).2 Assigned).
  - reflexivity.
  - vm_compute. reflexivity.
  - reflexivity.
  - vm_compute. reflexivity.
Defined.

(** X16. A job ends with its candidates exhausted only after it has waited
    the whole ack window for each candidate from the cursor on: between
    its start and its end at least (number of those candidates) x ackSec
    seconds pass, whatever the other clients do meanwhile. *)
Theorem offerJob_exhausted_not_before (env : WorkerEnv) (job : Job) (id : nat)
    (d : Dispatch) (w w' : World) :
  jobDispatchId job = Some id →
  dispatches (await w) !! id = Some d →
  dispatchStatus d = DPending →
  offerJob env job w = Some (Exhausted, w') →
  clock w
  + Z.of_nat (length (candidates d) - currentIndex d)
    * (ackSecOf env job * 1000)
  ≤ clock w'.
Proof.
  intros Hid Hd Hp Hjob.
  destruct (offerJob_outcome env job id d w Exhausted w' Hid Hd Hp Hjob)
    as (k & _ & Hk & -> & _).
  rewrite length_drop in Hk. pose proof (await_clock w). lia.
Qed.

Lemma offerJob_exhausted_not_before_witness :
  clock oneSilentCandidate
  + Z.of_nat (length (candidates (dispatchOf [candA]))
              - currentIndex (dispatchOf [candA]))
    * (ackSecOf workerEnv (jobFor 5) * 1000)
  ≤ clock (runJob workerEnv (jobFor 5) oneSilentCandidate).2.
Proof.
  apply (offerJob_exhausted_not_before workerEnv (jobFor 5) 0
           (dispatchOf [candA]) oneSilentCandidate
           (runJob workerEnv (jobFor 5) oneSilentCandidate).2).
  - reflexivity.
  - vm_compute. reflexivity.
  - reflexivity.
  - vm_compute. reflexivity.
Defined.

(** X17. A job never changes a user account. Unless it ends by an
    assignment it creates no ride and changes no captain account. When it
    ends by an assignment it has created exactly one ride, under a new id,
    for one of the candidates from the cursor on, has set that captain's
    status to inactive and has changed no other account; the dispatch then
    names that ride and its cursor names that candidate. *)
Theorem offerJob_footprint (env : WorkerEnv) (job : Job) (w w' : World)
    (exit : Exit) :
  offerJob env job w = Some (exit, w') →
  users w' = users w
  ∧ (exit ≠ Assigned → rides w' = rides w ∧ captains w' = captains w)
  ∧ (exit = Assigned →
     ∃ id d d' c rid,
       jobDispatchId job = Some id
       ∧ dispatches (await w) !! id = Some d
       ∧ (currentIndex d ≤ currentIndex d')%nat
       ∧ candidates d !! currentIndex d' = Some c
       ∧ rides w !! rid = None
       ∧ rides w' = <[rid := workerRide env d (captainId c)]> (rides w)
       ∧ captains w'
         = alter (setAccountStatus "inactive") (captainId c) (captains w)
       ∧ dispatches w' !! id = Some d'
       ∧ rideId d' = Some rid).
Proof.
  intros Hjob.
  assert (∀ x, (x, await w) = (exit, w') →
            users w' = users w
            ∧ (exit ≠ Assigned → rides w' = rides w ∧ captains w' = captains w)
            ∧ (x = NoOp → exit ≠ Assigned)) as Hnoop.
  { intros x [= -> <-].
    split_and!; [apply await_users | | by intros ->].
    intros _. split; [apply await_rides | apply await_captains]. }
  unfold offerJob in Hjob.
  destruct (jobDispatchId job) as [id|] eqn:Hid.
  2: { injection Hjob as <- <-. split_and!; done. }
  destruct (dispatches (await w) !! id) as [d|] eqn:Hd.
  2: { injection Hjob as E. destruct (Hnoop NoOp) as (? & ? & Hx);
         [congruence |].
       split_and!; [done | done |]. intros ->. by destruct Hx. }
  destruct (decide (dispatchStatus d = DPending)) as [Hp|].
  2: { injection Hjob as E. destruct (Hnoop NoOp) as (? & ? & Hx);
         [congruence |].
       split_and!; [done | done |]. intros ->. by destruct Hx. }
  destruct (offerLoop_outcome env id d (ackSecOf env job) _ _ _ _ _
              ltac:(by exists d) eq_refl Hjob) as (k & Hu & Hk & Hex).
  rewrite await_users in Hu. rewrite await_rides, await_captains in Hex.
  split; [done |]. destruct exit; try done.
  - destruct Hex as (_ & Hr & Hc & _). split; [done | by intros].
  - destruct Hex as (c & rid & d' & Hc & Hfree & Hr & Hcap & _ & Hd' & _ & Hci
                     & Hrid & _).
    split; [done |]. intros _. exists id, d, d', c, rid.
    rewrite lookup_drop in Hc.
    split_and!; try done; [lia | by rewrite Hci].
  - destruct Hex as (_ & Hr & Hc & _). split; [done | by intros].
Qed.

Lemma offerJob_footprint_witness :
  users (runJob workerEnv (jobFor 30) happyPath).2 = users happyPath
  ∧ (Assigned ≠ Assigned →
     rides (runJob workerEnv (jobFor 30) happyPath).2 = rides happyPath
     ∧ captains (runJob workerEnv (jobFor 30) happyPath).2
       = captains happyPath)
  ∧ (Assigned = Assigned →
     ∃ id d d' c rid,
       jobDispatchId (jobFor 30) = Some id
       ∧ dispatches (await happyPath) !! id = Some d
       ∧ (currentIndex d ≤ currentIndex d')%nat
       ∧ candidates d !! currentIndex d' = Some c
       ∧ rides happyPath !! rid = None
       ∧ rides (runJob workerEnv (jobFor 30) happyPath).2
         = <[rid := workerRide workerEnv d (captainId c)]> (rides happyPath)
       ∧ captains (runJob workerEnv (jobFor 30) happyPath).2
         = alter (setAccountStatus "inactive") (captainId c)
             (captains happyPath)
       ∧ dispatches (runJob workerEnv (jobFor 30) happyPath).2 !! id = Some d'
       ∧ rideId d' = Some rid).
Proof.
  apply (offerJob_footprint workerEnv (jobFor 30) happyPath
           (runJob workerEnv (jobFor 30) happyPath).2 Assigned).
  vm_compute. reflexivity.
Defined.

(** X18. Once a job has run to its end, however it ended, running the same
    job again (a redelivery) does nothing: it ends as a no-op, emits no
    event, creates no ride and changes no account. *)
Theorem offerJob_replay_is_noop (env env' : WorkerEnv) (job job' : Job)
    (w w' : World) (exit : Exit) :
  offerJob env job w = Some (exit, w') →
  jobDispatchId job' = jobDispatchId job →
  ∃ w'',
    offerJob env' job' w' = Some (NoOp, w'')
    ∧ emitted w'' = emitted w'
    ∧ rides w'' = rides w'
    ∧ users w'' = users w'
    ∧ captains w'' = captains w'.
Proof.
  intros Hjob Hsame.
  assert (∀ id d', jobDispatchId job' = Some id →
            dispatches w' !! id = Some d' → dispatchStatus d' ≠ DPending →
            ∃ w'',
              offerJob env' job' w' = Some (NoOp, w'')
              ∧ emitted w'' = emitted w' ∧ rides w'' = rides w'
              ∧ users w'' = users w' ∧ captains w'' = captains w') as Hsettled.
  { intros id d' Hid Hd' Hs. exists (await w').
    destruct (await_settled id d' w' Hd' Hs) as (d'' & Hd'' & Hs'' & _).
    rewrite <- Hs'' in Hs.
    destruct (offerJob_settled_is_noop env' job' id d'' w' Hid Hd'' Hs)
      as (-> & He & Hr).
    split_and!; [done | done | done | apply await_users | apply await_captains]. }
  unfold offerJob in Hjob.
  destruct (jobDispatchId job) as [id|] eqn:Hid.
  2: { injection Hjob as <- <-. exists w. unfold offerJob. by rewrite Hsame. }
  destruct (dispatches (await w) !! id) as [d|] eqn:Hd.
  2: { injection Hjob as <- <-. exists (await (await w)).
       unfold offerJob. rewrite Hsame, (await_dispatch_None id (await w) Hd).
       split_and!; [done | apply await_emitted | apply await_rides
                    | apply await_users | apply await_captains]. }
  destruct (decide (dispatchStatus d = DPending)) as [Hp|Hnp].
  2: { injection Hjob as <- <-. by apply (Hsettled id d). }
  destruct (offerLoop_outcome env id d (ackSecOf env job) _ _ _ _ _
              ltac:(by exists d) eq_refl Hjob) as (k & _ & _ & Hex).
  destruct exit; try done.
  - destruct Hex as (_ & _ & _ & _ & d' & Hd' & Hs & _). by apply (Hsettled id d').
  - destruct Hex as (c & rid & d' & _ & _ & _ & _ & _ & Hd' & Hs & _).
    apply (Hsettled id d'); [done | done | by rewrite Hs].
  - destruct Hex as (_ & _ & _ & _ & d' & Hd' & Hs & _).
    apply (Hsettled id d'); [done | done | by rewrite Hs].
Qed.

Lemma offerJob_replay_is_noop_witness :
  ∃ w'',
    offerJob workerEnvNoFare (jobFor 7)
      (runJob workerEnv (jobFor 30) happyPath).2 = Some (NoOp, w'')
    ∧ emitted w'' = emitted (runJob workerEnv (jobFor 30) happyPath).2
    ∧ rides w'' = rides (runJob workerEnv (jobFor 30) happyPath).2
    ∧ users w'' = users (runJob workerEnv (jobFor 30) happyPath).2
    ∧ captains w'' = captains (runJob workerEnv (jobFor 30) happyPath).2.
Proof.
  apply (offerJob_replay_is_noop workerEnv workerEnvNoFare (jobFor 30)
           (jobFor 7) happyPath (runJob workerEnv (jobFor 30) happyPath).2
           Assigned).
  - vm_compute. reflexivity.
  - reflexivity.
Defined.

(** X19. A job that starts on a pending dispatch leaves that dispatch
    settled (not pending), with the rider, the pickup, the destination, the
    vehicle type and the candidates' captains, sockets and ETAs in their
    order as they were, and with a cursor that has not moved back and has
    not passed the end of the candidates (unless it started beyond it). *)
Theorem offerJob_settles_dispatch (env : WorkerEnv) (job : Job) (id : nat)
    (d : Dispatch) (w w' : World) (exit : Exit) :
  jobDispatchId job = Some id →
  dispatches (await w) !! id = Some d →
  dispatchStatus d = DPending →
  offerJob env job w = Some (exit, w') →
  ∃ d',
    dispatches w' !! id = Some d'
    ∧ dispatchStatus d' ≠ DPending
    ∧ identityOf d' = identityOf d
    ∧ (currentIndex d ≤ currentIndex d'
       ≤ currentIndex d `max` length (candidates d))%nat.
Proof.
  intros Hid Hd Hp Hjob.
  destruct (offerJob_outcome env job id d w exit w' Hid Hd Hp Hjob)
    as (k & _ & _ & Hex).
  destruct exit; try done.
  - destruct Hex as (Hlt & _ & _ & _ & d' & Hd' & Hs & Hi & Hci).
    rewrite length_drop in Hlt. exists d'. split_and!; try done; lia.
  - destruct Hex as (c & rid & d' & Hc & _ & _ & _ & _ & Hd' & Hs & Hci & _ & Hi).
    apply lookup_lt_Some in Hc. rewrite length_drop in Hc.
    exists d'. split_and!; try done; [by rewrite Hs | lia | lia].
  - destruct Hex as (Hk & _ & _ & _ & d' & Hd' & Hs & Hi & Hci).
    rewrite length_drop in Hk.
    exists d'. split_and!; try done; [by rewrite Hs | lia | lia].
Qed.

Lemma offerJob_settles_dispatch_witness :
  ∃ d',
    dispatches (runJob workerEnv (jobFor 5) firstDeclines).2 !! 0%nat = Some d'
    ∧ dispatchStatus d' ≠ DPending
    ∧ identityOf d' = identityOf (dispatchOf [candA; candB])
    ∧ (currentIndex (dispatchOf [candA; candB]) ≤ currentIndex d'
       ≤ currentIndex (dispatchOf [candA; candB])
         `max` length (candidates (dispatchOf [candA; candB])))%nat.
Proof.
  apply (offerJob_settles_dispatch workerEnv (jobFor 5) 0
           (dispatchOf [candA; candB]) firstDeclines
           (runJob workerEnv (jobFor 5) firstDeclines).2
           (runJob workerEnv (jobFor 5) firstDeclines).1).
  - reflexivity.
  - vm_compute. reflexivity.
  - reflexivity.
  - vm_compute. reflexivity.
Defined.

(** ** rides-service in front of the maps-service *)









Lemma omap_lookup_all_Some {A B} (f : A → option B) (l : list A) i :
  Forall (λ x, is_Some (f x)) l → omap f l !! i = l !! i ≫= f.
Proof.
  intros H. revert i. induction H as [|x l [y Hy] _ IH]; intros i; [done |].
  cbn [omap list_omap]. rewrite Hy. destruct i as [|i]; simpl; [done |].
  apply IH.
Qed.

(** X21. computeDispatch drops the captains without a location from the
    sources it sends to /multi-eta, but /offers/start pairs captains and
    durations by index. So when the first captain found has no location
    (the others having one) and no bound is given, every candidate is
    stored with the routing ETA of the captain after it, and the last
    candidate with none. [eta] gives the routing duration from a source. *)
Theorem offersStart_eta_shifted (eta : string → option Z) (mock : bool)
    (google : option (list Z)) (resolve : string → option string)
    (find : option string → string → Q → Z → list CaptainDoc)
    (c0 : CaptainDoc) (rest : list CaptainDoc) (queueConfigured : bool)
    (req : StartRequest) (w w' : World) (r : StartReply) :
  (∀ vt ll m l, find vt ll m l = c0 :: rest) →
  capCoords c0 = None →
  Forall (λ c, is_Some (capCoords c)) rest →
  startBoundSec req = None →
  offersStart
    (upstreamVia
       (mkMapsEnv mock None (Some (Some (routeColumn eta rest))) google)
       resolve find)
    queueConfigured req w = (Reply 201 r, w') →
  ∃ doc,
    dispatches w' !! replyDispatchId r = Some doc
    ∧ captainId <$> candidates doc = capId <$> (c0 :: rest)
    ∧ ∀ i c,
        candidates doc !! i = Some c →
        etaSec c = rest !! i ≫= routeEta eta.
Proof.
  intros Hfind Hc0 Hrest Hb. unfold offersStart.
  destruct (startAuth req) as [uid|]; [| done].
  unfold computeDispatch. simpl.
  destruct (resolve (startPickup req)) as [latLon|]; [| done]. simpl.
  rewrite Hfind. cbn [omap list_omap]. rewrite Hc0. unfold routeColumn.
  destruct (omap capCoords rest) as [|s0 srcs] eqn:Esrc; [done |].
  rewrite Hb. simpl. intros [= <- <-]. eexists. split.
  { destruct queueConfigured; simpl; apply lookup_insert_eq. }
  simpl. split.
  - f_equal. apply list_eq. intros i. rewrite !list_lookup_fmap.
    rewrite list_lookup_imap. by destruct (rest !! i).
  - intros i c Hc.
    assert (etaSec c
            = default None ((eta s0 :: (eta <$> srcs)) !! i)) as ->.
    { destruct i as [|i]; simpl in Hc; [by injection Hc as <- |].
      rewrite list_lookup_imap in Hc.
      destruct (rest !! i); [| done]. by injection Hc as <-. }
    change (eta s0 :: (eta <$> srcs)) with (eta <$> (s0 :: srcs)).
    rewrite <- Esrc, list_lookup_fmap, (omap_lookup_all_Some _ _ _ Hrest).
    destruct (rest !! i) as [next|]; simpl; [| done].
    unfold routeEta. by destruct (capCoords next).
Qed.

Lemma offersStart_eta_shifted_witness :
  ∃ doc,
    dispatches
      (offersStart
         (upstreamVia
            (mkMapsEnv false None
               (Some (Some (routeColumn
                              (λ s, if String.eqb s "12.99,77.61" then Some 300
                                    else Some 120)
                              [mkCaptainDoc 12 (Some "sB"%string)
                                 (Some "12.99,77.61"%string);
                               mkCaptainDoc 13 (Some "sC"%string)
                                 (Some "12.96,77.58"%string)])))
               None)
            (λ pickup, Some pickup)
            (λ _ _ _ _,
               [mkCaptainDoc 11 (Some "sA"%string) None;
                mkCaptainDoc 12 (Some "sB"%string) (Some "12.99,77.61"%string);
                mkCaptainDoc 13 (Some "sC"%string) (Some "12.96,77.58"%string)]))
         true (startRequest None None) emptyWorld).2
      !! replyDispatchId (mkStartReply 0 3 1 10)
    = Some doc
    ∧ captainId <$> candidates doc
      = capId
        <$> [mkCaptainDoc 11 (Some "sA"%string) None;
             mkCaptainDoc 12 (Some "sB"%string) (Some "12.99,77.61"%string);
             mkCaptainDoc 13 (Some "sC"%string) (Some "12.96,77.58"%string)]
    ∧ ∀ i c,
        candidates doc !! i = Some c →
        etaSec c
        = [mkCaptainDoc 12 (Some "sB"%string) (Some "12.99,77.61"%string);
           mkCaptainDoc 13 (Some "sC"%string) (Some "12.96,77.58"%string)]
            !! i
          ≫= routeEta
               (λ s, if String.eqb s "12.99,77.61" then Some 300 else Some 120).
Proof.
  apply (offersStart_eta_shifted
           (λ s, if String.eqb s "12.99,77.61" then Some 300 else Some 120)
           false None (λ pickup, Some pickup)
           (λ _ _ _ _,
              [mkCaptainDoc 11 (Some "sA"%string) None;
               mkCaptainDoc 12 (Some "sB"%string) (Some "12.99,77.61"%string);
               mkCaptainDoc 13 (Some "sC"%string) (Some "12.96,77.58"%string)])
           (mkCaptainDoc 11 (Some "sA"%string) None)
           [mkCaptainDoc 12 (Some "sB"%string) (Some "12.99,77.61"%string);
            mkCaptainDoc 13 (Some "sC"%string) (Some "12.96,77.58"%string)]
           true (startRequest None None) emptyWorld).
  - reflexivity.
  - reflexivity.
  - repeat constructor; eauto.
  - reflexivity.
  - vm_compute. reflexivity.
Defined.

(** ** POST /auto-assign and POST /dispatch *)

(** X22. POST /auto-assign does to the store exactly what POST /offers/start
    does for the same request: the same dispatch document under the same
    id and the same job. It answers 202 where /offers/start answers 201,
    with the same dispatchId, ackSec and number of candidates, and fails
    with the same status and message. *)
Theorem autoAssign_as_offersStart (up : Upstream) (queueConfigured : bool)
    (req : StartRequest) (w : World) :
  (autoAssign up queueConfigured req w).2
  = (offersStart up queueConfigured req w).2
  ∧ match (autoAssign up queueConfigured req w).1,
          (offersStart up queueConfigured req w).1 with
    | Reply code a, Reply code' s =>
        code = 202 ∧ code' = 201
        ∧ autoDispatchId a = replyDispatchId s
        ∧ autoAckSec a = replyAckSec s
        ∧ autoCandidates a = replyCandidates s
    | Failure code msg, Failure code' msg' => code = code' ∧ msg = msg'
    | _, _ => False
    end.
Proof.
  unfold autoAssign, offersStart.
  destruct (startAuth req) as [uid|]; [| done].
  destruct (computeDispatch _ _ _ _ _ _) as [plan|]; [| done].
  by destruct (planCaptains plan).
Qed.

(** X23. What POST /dispatch previews is what POST /offers/start then does:
    when /dispatch answers 200, the ML endpoint is unset, the request names
    its limit (the defaults differ: 10 and 5) and carries a valid token,
    /offers/start with the same upstream answers persists a dispatch with
    the same captains in the same order and with its cursor at the
    previewed bestIndex. *)
Theorem dispatchPreview_agrees (up : Upstream)
    (etaOnce : list string → string → option Z → option EtaPayload)
    (queueConfigured : bool) (req : StartRequest) (w : World)
    (body : DispatchPreview) (uid : nat) (l : Z) :
  calibrate up = None →
  (∀ s d b p, etaOnce s d b = Some p → multiEtaCall up s d b = Some p) →
  startLimit req = Some l → l ≠ 0 →
  startAuth req = Some uid →
  dispatchPreview up etaOnce req = Reply 200 body →
  ∃ r w' doc,
    offersStart up queueConfigured req w = (Reply 201 r, w')
    ∧ dispatches w' !! replyDispatchId r = Some doc
    ∧ Z.of_nat (currentIndex doc) = previewBestIndex body
    ∧ captainId <$> candidates doc = previewId <$> previewCandidates body
    ∧ (∀ i c, candidates doc !! i = Some c →
         ∃ pc, previewCandidates body !! i = Some pc
               ∧ etaSec c = default None (previewEtaSec pc)).
Proof.
  intros Hml Hsame Hl Hne Hauth.
  unfold dispatchPreview, offersStart, computeDispatch. rewrite Hauth, Hl.
  assert (orDefaultZ (Some l) 10 = l ∧ orDefaultZ (Some l) 5 = l) as [-> ->].
  { unfold orDefaultZ. by destruct (Z.eqb_spec l 0). }
  rewrite normalizeVehicle_idem.
  destruct (resolvePickup up (startPickup req)) as [latLon|]; [| done].
  cbn -[omap imap buildCandidates].
  destruct (findCaptains up _ latLon _ l) as [|c0 caps0] eqn:Ecaps; [done |].
  destruct (omap capCoords (c0 :: caps0)) as [|s0 srcs] eqn:Esrc; [done |].
  destruct (etaOnce (s0 :: srcs) latLon (startBoundSec req)) as [p1|] eqn:E1;
    [| done].
  rewrite (Hsame _ _ _ _ E1). cbn -[omap imap buildCandidates].
  unfold calibrated. rewrite Hml.
  assert (∀ p calls,
            (if bestIndex p <? 0 then Failure 404 "No captain within bound"
             else Reply 200
                    (mkDispatchPreview latLon
                       (imap (λ i c, mkPreviewCandidate (capId c) (capCoords c)
                                       (durations p !! i)) (c0 :: caps0))
                       (bestIndex p)
                       (capId <$> (c0 :: caps0) !! Z.to_nat (bestIndex p))
                       (durations p !! Z.to_nat (bestIndex p))))
            = Reply 200 body →
            ∃ r w' doc,
              match planCaptains (mkPlan latLon (c0 :: caps0) (durations p)
                                    (bestIndex p) calls) with
              | [] => (Failure 404 "No captains nearby", w)
              | _ =>
                let cands := buildCandidates (c0 :: caps0) (durations p) in
                let id := fresh (dom (dispatches w)) in
                let doc := mkDispatch uid (startPickup req)
                             (startDestination req)
                             (normalizeVehicle (startVehicleType req)) cands
                             (startIndex (bestIndex p)) None DPending in
                let w1 := setDispatches (insert id doc) w in
                let w2 := if queueConfigured
                          then enqueue (mkJob (Some id)
                                 (Some (orDefaultZ (startAckSec req) 30))) w1
                          else w1 in
                (Reply 201 (mkStartReply id (length cands) (currentIndex doc)
                              (orDefaultZ (startAckSec req) 30)), w2)
              end = (Reply 201 r, w')
              ∧ dispatches w' !! replyDispatchId r = Some doc
              ∧ Z.of_nat (currentIndex doc) = previewBestIndex body
              ∧ captainId <$> candidates doc
                = previewId <$> previewCandidates body
              ∧ (∀ i c, candidates doc !! i = Some c →
                   ∃ pc, previewCandidates body !! i = Some pc
                         ∧ etaSec c = default None (previewEtaSec pc)))
    as Hfin.
  { intros p calls. destruct (Z.ltb_spec (bestIndex p) 0); [done |].
    intros [= <-]. simpl. eexists _, _, _. split; [reflexivity |].
    split_and!.
    - destruct queueConfigured; simpl; apply lookup_insert_eq.
    - cbn [currentIndex previewBestIndex]. unfold startIndex. lia.
    - simpl. f_equal. apply list_eq. intros i. rewrite !list_lookup_fmap.
      unfold buildCandidates. rewrite !list_lookup_imap.
      by destruct (caps0 !! i).
    - simpl. intros i c Hc. destruct i as [|i].
      + injection Hc as <-. eexists. split; [reflexivity | done].
      + simpl in Hc. rewrite list_lookup_imap in Hc.
        simpl. rewrite list_lookup_imap.
        destruct (caps0 !! i); [| done]. injection Hc as <-.
        eexists. split; [reflexivity | done]. }
  destruct (startBoundSec req) as [b|].
  - destruct ((bestIndex p1 =? -1) || allNull (durations p1)).
    + destruct (etaOnce (s0 :: srcs) latLon None) as [p2|] eqn:E2; [| done].
      rewrite (Hsame _ _ _ _ E2). cbn -[omap imap buildCandidates].
      apply (Hfin p2 [Some b; None]).
    + apply (Hfin p1 [Some b]).
  - apply (Hfin p1 [None]).
Qed.

Lemma dispatchPreview_agrees_witness :
  ∃ r w' doc,
    offersStart fallbackUpstream true
      (mkStartRequest (Some 1%nat) "12.97,77.59" "12.93,77.62"
         (Some "car"%string) None (Some 5) (Some 200) (Some 10) None)
      emptyWorld = (Reply 201 r, w')
    ∧ dispatches w' !! replyDispatchId r = Some doc
    ∧ Z.of_nat (currentIndex doc)
      = previewBestIndex
          (mkDispatchPreview "12.97,77.59"
             [mkPreviewCandidate 11 (Some "12.98,77.60"%string) (Some None);
              mkPreviewCandidate 12 (Some "12.99,77.61"%string) (Some None);
              mkPreviewCandidate 13 (Some "12.96,77.58"%string)
                (Some (Some 120))]
             2 (Some 13%nat) (Some (Some 120)))
    ∧ captainId <$> candidates doc
      = previewId
        <$> previewCandidates
              (mkDispatchPreview "12.97,77.59"
                 [mkPreviewCandidate 11 (Some "12.98,77.60"%string) (Some None);
                  mkPreviewCandidate 12 (Some "12.99,77.61"%string) (Some None);
                  mkPreviewCandidate 13 (Some "12.96,77.58"%string)
                    (Some (Some 120))]
                 2 (Some 13%nat) (Some (Some 120)))
    ∧ (∀ i c, candidates doc !! i = Some c →
         ∃ pc,
           previewCandidates
             (mkDispatchPreview "12.97,77.59"
                [mkPreviewCandidate 11 (Some "12.98,77.60"%string) (Some None);
                 mkPreviewCandidate 12 (Some "12.99,77.61"%string) (Some None);
                 mkPreviewCandidate 13 (Some "12.96,77.58"%string)
                   (Some (Some 120))]
                2 (Some 13%nat) (Some (Some 120))) !! i = Some pc
           ∧ etaSec c = default None (previewEtaSec pc)).
Proof.
  apply (dispatchPreview_agrees fallbackUpstream
           (multiEtaCall fallbackUpstream) true
           (mkStartRequest (Some 1%nat) "12.97,77.59" "12.93,77.62"
              (Some "car"%string) None (Some 5) (Some 200) (Some 10) None)
           emptyWorld
           (mkDispatchPreview "12.97,77.59"
              [mkPreviewCandidate 11 (Some "12.98,77.60"%string) (Some None);
               mkPreviewCandidate 12 (Some "12.99,77.61"%string) (Some None);
               mkPreviewCandidate 13 (Some "12.96,77.58"%string)
                 (Some (Some 120))]
              2 (Some 13%nat) (Some (Some 120)))
           1 5).
  - reflexivity.
  - intros s d b p H. exact H.
  - reflexivity.
  - lia.
  - reflexivity.
  - vm_compute. reflexivity.
Defined.

(** ** POST /ack-offer, called again *)

Lemma findIndexFrom_alter (f : Candidate → Candidate) captain :
  (∀ c, captainId (f c) = captainId c) →
  ∀ cs i k, findIndexFrom i captain (alter f k cs) = findIndexFrom i captain cs.
Proof.
  intros Hf. induction cs as [|c cs IH]; intros i k; [done |].
  destruct k as [|k]; simpl.
  - by rewrite Hf.
  - destruct (decide (captainId c = captain)); [done | apply IH].
Qed.

Lemma findIndex_setCandStatus captain idx s d :
  findIndex captain (candidates (setCandStatus idx s d))
  = findIndex captain (candidates d).
Proof. unfold findIndex. simpl. by apply findIndexFrom_alter. Qed.

Lemma setDispatches_alter_twice id (f g h : Dispatch → Dispatch) w :
  (∀ d, f (g d) = h d) →
  updateDispatch id f (updateDispatch id g w) = updateDispatch id h w.
Proof.
  intros Hfg. unfold updateDispatch, setDispatches. simpl. f_equal.
  apply map_eq. intros j. destruct (decide (j = id)) as [-> |].
  - rewrite !lookup_alter_eq.
    destruct (dispatches w !! id); simpl; [| done]. by rewrite Hfg.
  - by rewrite !lookup_alter_ne.
Qed.

(** X24. The last answer of a captain wins: answering /ack-offer again for
    the same dispatch and captain leaves the store exactly as if only the
    second answer had been given, and is answered as the second alone
    would be. In particular repeating an answer changes nothing, and an
    accept after a decline (or a decline after an accept) replaces it. *)
Theorem ackOffer_last_answer_wins (dispatchId captain : nat)
    (first second : bool) (w : World) :
  ackOffer dispatchId captain second
    (ackOffer dispatchId captain first w).2
  = ackOffer dispatchId captain second w.
Proof.
  unfold ackOffer at 2.
  destruct (dispatches w !! dispatchId) as [d|] eqn:Ed; [| done].
  destruct (decide (dispatchStatus d = DPending)) as [Hp|]; [| done].
  destruct (findIndex captain (candidates d)) as [idx|] eqn:Ei; [| done].
  simpl. unfold ackOffer.
  rewrite lookup_updateDispatch, decide_True, Ed by done. simpl.
  rewrite decide_True by done.
  change (alter _ idx (candidates d))
    with (candidates (setCandStatus idx (if first then CAck else CRejected) d)).
  rewrite findIndex_setCandStatus, Ei.
  rewrite decide_True by done. f_equal.
  apply setDispatches_alter_twice. intros d0. unfold setCandStatus. simpl.
  f_equal. apply list_eq. intros j. destruct (decide (j = idx)) as [-> |].
  - rewrite !list_lookup_alter_eq. by destruct (candidates d0 !! idx).
  - by rewrite !list_lookup_alter_ne.
Qed.

(** ** routing-service: GET /table *)

Lemma needsFill_false same x :
  Routing.needsFill same x = false → ∃ v, x = Some v.
Proof. destruct x as [v|]; [eauto | done]. Qed.

Lemma hd_Some_lookup {A} (l : list (option A)) v :
  hd None l = Some v → l !! 0%nat = Some (Some v).
Proof. destruct l as [|x l]; simpl; [done | by intros ->]. Qed.

Lemma lookup_tl {A} (l : list A) j : tl l !! j = l !! S j.
Proof. by destruct l. Qed.

Lemma fillRow_cell haversine s : ∀ dsts durs dists j d,
  dsts !! j = Some d →
  ∃ dur dist,
    (Routing.fillRow haversine s dsts durs dists).1 !! j = Some (Some dur)
    ∧ (Routing.fillRow haversine s dsts durs dists).2 !! j = Some (Some dist)
    ∧ (dur = Routing.estimateDurationMeters (haversine s d)
       ∨ durs !! j = Some (Some dur)).
Proof.
  induction dsts as [|d0 dsts IH]; intros durs dists j d; [done |].
  destruct j as [|j]; simpl.
  - intros [= ->].
    destruct (Routing.needsFill (Routing.samePoint s d) (hd None durs))
      eqn:Hdur; simpl.
    + eexists _, _. split_and!; [done | done | by left].
    + apply needsFill_false in Hdur as [v Hv]. rewrite Hv.
      apply hd_Some_lookup in Hv.
      destruct (Routing.needsFill (Routing.samePoint s d) (hd None dists))
        eqn:Hdist; simpl.
      * eexists _, _. split_and!; [done | done | by right].
      * apply needsFill_false in Hdist as [v' ->].
        eexists _, _. split_and!; [done | done | by right].
  - intros Hd. destruct (IH (tl durs) (tl dists) j d Hd)
      as (dur & dist & H1 & H2 & H3).
    exists dur, dist. split_and!; [done | done |].
    destruct H3 as [-> | H3]; [by left | right]. by rewrite <- lookup_tl.
Qed.

Lemma fillRows_cell haversine dsts j d :
  dsts !! j = Some d →
  ∀ srcs durRows distRows r i s,
    Routing.fillRows haversine srcs dsts durRows distRows = Some r →
    srcs !! i = Some s →
    ∃ dur dist,
      Routing.cell r.1 i j = Some (Some dur)
      ∧ Routing.cell r.2 i j = Some (Some dist)
      ∧ (dur = Routing.estimateDurationMeters (haversine s d)
         ∨ Routing.cell durRows i j = Some (Some dur)).
Proof.
  intros Hd. induction srcs as [|s0 srcs IH]; intros durRows distRows r i s;
    [done |].
  simpl. destruct dsts as [|d0 dsts']; [done |].
  destruct durRows as [|durs durRows]; [done |].
  destruct distRows as [|dists distRows]; [done |].
  destruct (Routing.fillRows haversine srcs (d0 :: dsts') durRows distRows)
    as [rest|] eqn:Hrest; [| done].
  intros [= <-]. destruct i as [|i].
  - intros [= ->]. unfold Routing.cell. cbn [fst snd lookup list_lookup mbind option_bind].
    apply (fillRow_cell haversine s (d0 :: dsts') durs dists j d Hd).
  - intros Hs. apply (IH durRows distRows rest i s Hrest Hs).
Qed.

Lemma haversineTable_cell haversine srcs dsts i j s d :
  srcs !! i = Some s → dsts !! j = Some d →
  Routing.cell (Routing.tableDurations (Routing.haversineTable haversine srcs dsts))
    i j
  = Some (Some (Routing.estimateDurationMeters (haversine s d)))
  ∧ Routing.cell
      (Routing.tableDistances (Routing.haversineTable haversine srcs dsts)) i j
    = Some (Some (haversine s d)).
Proof.
  intros Hs Hd. unfold Routing.cell, Routing.haversineTable. simpl.
  rewrite !list_lookup_fmap, Hs. simpl.
  by rewrite !list_lookup_fmap, Hd.
Qed.

(** X25. On a cache miss GET /table answers with a number, never null, in
    every cell of durations and of distances for a requested source and
    destination (with numeric coordinates), whatever OSRM returned (nulls,
    zeros, missing distances, short or missing rows) and also without
    OSRM. The duration is the one OSRM gave for that cell or the haversine
    estimate (distance / 8.33). *)
Theorem table_has_no_null (haversine : Routing.Point → Routing.Point → Q)
    (osrm : option Routing.OsrmData) (srcs dsts : list Routing.Point)
    (i j : nat) (s d : Routing.Point) :
  srcs !! i = Some s →
  dsts !! j = Some d →
  ∃ dur dist,
    Routing.cell (Routing.tableDurations (Routing.table haversine osrm srcs dsts))
      i j = Some (Some dur)
    ∧ Routing.cell
        (Routing.tableDistances (Routing.table haversine osrm srcs dsts)) i j
      = Some (Some dist)
    ∧ (dur = Routing.estimateDurationMeters (haversine s d)
       ∨ ∃ data, osrm = Some data
                 ∧ Routing.cell (Routing.osrmDurations data) i j
                   = Some (Some dur)).
Proof.
  intros Hs Hd.
  destruct (haversineTable_cell haversine srcs dsts i j s d Hs Hd) as [H1 H2].
  unfold Routing.table. destruct osrm as [data|].
  2: { eexists _, _. split_and!; [done | done | by left]. }
  destruct (Routing.fillRows _ _ _ _ _) as [[durs dists]|] eqn:Hfill.
  2: { eexists _, _. split_and!; [done | done | by left]. }
  destruct (fillRows_cell haversine dsts j d Hd _ _ _ _ i s Hfill Hs)
    as (dur & dist & Hdur & Hdist & Hsrc).
  exists dur, dist. split_and!; [done | done |].
  destruct Hsrc as [-> | Hsrc]; [by left | right; eauto].
Qed.

Lemma table_has_no_null_witness :
  ∃ dur dist,
    Routing.cell
      (Routing.tableDurations
         (Routing.table (λ _ _, 833%Q)
            (Some (Routing.mkOsrmData [[None; Some 0%Q]] None))
            [(1, 2)%Q] [(1, 2)%Q; (3, 4)%Q]))
      0 1 = Some (Some dur)
    ∧ Routing.cell
        (Routing.tableDistances
           (Routing.table (λ _ _, 833%Q)
              (Some (Routing.mkOsrmData [[None; Some 0%Q]] None))
              [(1, 2)%Q] [(1, 2)%Q; (3, 4)%Q]))
        0 1 = Some (Some dist)
    ∧ (dur = Routing.estimateDurationMeters ((λ _ _, 833%Q) (1, 2)%Q (3, 4)%Q)
       ∨ ∃ data,
           Some (Routing.mkOsrmData [[None; Some 0%Q]] None) = Some data
           ∧ Routing.cell (Routing.osrmDurations data) 0 1 = Some (Some dur)).
Proof.
  apply (table_has_no_null (λ _ _, 833%Q)
           (Some (Routing.mkOsrmData [[None; Some 0%Q]] None))
           [(1, 2)%Q] [(1, 2)%Q; (3, 4)%Q] 0 1 (1, 2)%Q (3, 4)%Q).
  - reflexivity.
  - reflexivity.
Defined.

(** ** users-service: one-time passwords *)

Lemma incr_live windowSec key now m n expiry :
  m !! key = Some (n, expiry) → now < expiry →
  Otp.incr windowSec key now m = (n + 1, <[key := (n + 1, expiry)]> m).
Proof.
  intros Hm Hlive. unfold Otp.incr. rewrite Hm.
  destruct (Z.ltb_spec now expiry); [done | lia].
Qed.

Lemma incr_dead {windowSec key now} {m : gmap string (Z * Z)} :
  Otp.dead m key now →
  Otp.incr windowSec key now m
  = (1, <[key := (1, now + windowSec * 1000)]> m).
Proof.
  intros Hdead. unfold Otp.incr.
  destruct (m !! key) as [[n expiry]|] eqn:Hm; [| done].
  specialize (Hdead n expiry Hm).
  destruct (Z.ltb_spec now expiry); [lia | done].
Qed.

(** One request on a live counter. *)
Lemma request_counted env email phone ident otp now st c expiry :
  Otp.redisOn env = true →
  Otp.identOf email phone = Some ident →
  Otp.rateLimits st !! ident = Some (c, expiry) → now < expiry →
  let r := Otp.request env email phone otp now st in
  Otp.rateLimits r.2 !! ident = Some (c + 1, expiry)
  ∧ (c < 3 →
     Otp.codeOf r.1 = 200
     ∧ Otp.otpHashes r.2 !! ident
       = Some (Otp.sha256 env (otp +:+ Otp.pepper env), now + 300 * 1000))
  ∧ (3 ≤ c →
     Otp.codeOf r.1 = 429 ∧ Otp.otpHashes r.2 = Otp.otpHashes st).
Proof.
  intros Hon Hid Hc Hlive. unfold Otp.request. rewrite Hon, Hid. simpl.
  rewrite (incr_live 60 ident now _ c expiry Hc Hlive).
  destruct (Z.ltb_spec 3 (c + 1)); simpl.
  - split_and!; [apply lookup_insert_eq | lia | done].
  - split_and!; [apply lookup_insert_eq | | lia].
    intros _. split; [done | apply lookup_insert_eq].
Qed.

Lemma requests_counted env email phone ident :
  Otp.redisOn env = true →
  Otp.identOf email phone = Some ident →
  ∀ calls st c expiry,
    Otp.rateLimits st !! ident = Some (c, expiry) → 1 ≤ c →
    (∀ t o, (t, o) ∈ calls → t < expiry) →
    (Otp.requests env email phone calls st).1
    = replicate (length calls `min` Z.to_nat (3 - c)) 200
      ++ replicate (length calls - Z.to_nat (3 - c)) 429
    ∧ Otp.otpHashes (Otp.requests env email phone calls st).2 !! ident
      = match last (take (Z.to_nat (3 - c)) calls) with
        | Some (t, o) =>
            Some (Otp.sha256 env (o +:+ Otp.pepper env), t + 300 * 1000)
        | None => Otp.otpHashes st !! ident
        end.
Proof.
  intros Hon Hid. induction calls as [|[t o] calls IH];
    intros st c expiry Hc Hpos Hlive.
  { simpl. by rewrite take_nil. }
  assert (t < expiry) as Ht by (apply (Hlive t o); left).
  destruct (request_counted env email phone ident o t st c expiry Hon Hid Hc Ht)
    as (Hc' & Hlt & Hge).
  specialize (IH (Otp.request env email phone o t st).2 (c + 1) expiry Hc'
                ltac:(lia) ltac:(intros t0 o0 H0; apply (Hlive t0 o0); by right)).
  destruct IH as [IHcodes IHhash].
  cbn [Otp.requests fst snd]. rewrite IHcodes, IHhash.
  destruct (Z_lt_le_dec c 3) as [Hc3 | Hc3].
  - destruct (Hlt Hc3) as [-> Hh].
    assert (Z.to_nat (3 - c) = S (Z.to_nat (3 - (c + 1)))) as -> by lia.
    cbn [length take]. split.
    + replace (S (length calls) `min` S (Z.to_nat (3 - (c + 1))))%nat
        with (S (length calls `min` Z.to_nat (3 - (c + 1)))) by lia.
      done.
    + destruct (take (Z.to_nat (3 - (c + 1))) calls) as [|x l] eqn:Etake.
      * simpl. done.
      * rewrite !last_cons. destruct (last l) as [[t' o']|]; [done |].
        by destruct x.
  - destruct (Hge Hc3) as [-> Hh].
    assert (Z.to_nat (3 - c) = 0%nat) as -> by lia.
    assert (Z.to_nat (3 - (c + 1)) = 0%nat) as -> by lia.
    rewrite !take_0, !Nat.min_0_r, !Nat.sub_0_r. simpl.
    split; [done | by rewrite Hh].
Qed.

(** X26. POST /otp/request serves at most three requests per identifier in
    the 60 seconds that start with the first one: of any sequence of
    requests in that window the first three are answered 200 and all later
    ones 429, and the OTP left in Redis is the one of the last request
    that was answered 200, valid for 300 seconds from that request. *)
Theorem otp_requests_rate_limited (env : Otp.Env) (email phone : option string)
    (ident : string) (t1 : Z) (o1 : string) (calls : list (Z * string))
    (st : Otp.Store) :
  Otp.redisOn env = true →
  Otp.identOf email phone = Some ident →
  Otp.dead (Otp.rateLimits st) ident t1 →
  (∀ t o, (t, o) ∈ calls → t < t1 + 60 * 1000) →
  (Otp.requests env email phone ((t1, o1) :: calls) st).1
  = replicate (S (length calls) `min` 3) 200
    ++ replicate (S (length calls) - 3) 429
  ∧ ∃ t o,
      last (take 3 ((t1, o1) :: calls)) = Some (t, o)
      ∧ Otp.otpHashes (Otp.requests env email phone ((t1, o1) :: calls) st).2
          !! ident
        = Some (Otp.sha256 env (o +:+ Otp.pepper env), t + 300 * 1000).
Proof.
  intros Hon Hid Hdead Hwin. cbn [Otp.requests fst snd].
  assert (Otp.request env email phone o1 t1 st
          = (Reply 200
               (Otp.mkSent (match Otp.truthy email with
                            | Some _ => "email"
                            | None => "sms"
                            end)
                  (if Otp.production env then None else Some o1)),
             Otp.mkStore (<[ident := (1, t1 + 60 * 1000)]> (Otp.rateLimits st))
               (Otp.attemptCounts st)
               (<[ident := (Otp.sha256 env (o1 +:+ Otp.pepper env),
                            t1 + 300 * 1000)]> (Otp.otpHashes st)))) as ->.
  { unfold Otp.request. rewrite Hon, Hid. simpl. by rewrite (incr_dead Hdead). }
  destruct (requests_counted env email phone ident Hon Hid calls
              (Otp.mkStore (<[ident := (1, t1 + 60 * 1000)]> (Otp.rateLimits st))
                 (Otp.attemptCounts st)
                 (<[ident := (Otp.sha256 env (o1 +:+ Otp.pepper env),
                              t1 + 300 * 1000)]> (Otp.otpHashes st)))
              1 (t1 + 60 * 1000))
    as [Hcodes Hhash]; [apply lookup_insert_eq | lia | done |].
  cbn [fst snd Otp.codeOf]. rewrite Hcodes, Hhash. split.
  - change (Z.to_nat (3 - 1)) with 2%nat.
    replace (S (length calls) `min` 3)%nat
      with (S (length calls `min` 2)) by lia.
    done.
  - change (Z.to_nat (3 - 1)) with 2%nat. cbn [take].
    destruct (take 2 calls) as [|x l] eqn:Etake.
    + exists t1, o1. split; [done |]. simpl. apply lookup_insert_eq.
    + rewrite last_cons. destruct (last (x :: l)) as [[t o]|] eqn:El.
      * by exists t, o.
      * by apply last_None in El.
Qed.

Lemma otp_requests_rate_limited_witness :
  (Otp.requests (Otp.mkEnv true (λ s, ("#" +:+ s)%string) "pp" false (λ _, None))
     (Some "a@b.co"%string) None
     [(0, "111111"%string); (10, "222222"%string); (20, "333333"%string);
      (30, "444444"%string); (59999, "555555"%string)]
     (Otp.mkStore ∅ ∅ ∅)).1
  = replicate (S (length [(10, "222222"%string); (20, "333333"%string);
                          (30, "444444"%string); (59999, "555555"%string)])
               `min` 3) 200
    ++ replicate (S (length [(10, "222222"%string); (20, "333333"%string);
                             (30, "444444"%string); (59999, "555555"%string)])
                  - 3) 429
  ∧ ∃ t o,
      last (take 3 [(0, "111111"%string); (10, "222222"%string);
                    (20, "333333"%string); (30, "444444"%string);
                    (59999, "555555"%string)]) = Some (t, o)
      ∧ Otp.otpHashes
          (Otp.requests
             (Otp.mkEnv true (λ s, ("#" +:+ s)%string) "pp" false (λ _, None))
             (Some "a@b.co"%string) None
             [(0, "111111"%string); (10, "222222"%string);
              (20, "333333"%string); (30, "444444"%string);
              (59999, "555555"%string)]
             (Otp.mkStore ∅ ∅ ∅)).2 !! "a@b.co"%string
        = Some (Otp.sha256
                  (Otp.mkEnv true (λ s, ("#" +:+ s)%string) "pp" false
                     (λ _, None))
                  (o +:+ Otp.pepper
                           (Otp.mkEnv true (λ s, ("#" +:+ s)%string) "pp" false
                              (λ _, None))),
                t + 300 * 1000).
Proof.
  apply (otp_requests_rate_limited
           (Otp.mkEnv true (λ s, ("#" +:+ s)%string) "pp" false (λ _, None))
           (Some "a@b.co"%string) None "a@b.co" 0 "111111"
           [(10, "222222"%string); (20, "333333"%string);
            (30, "444444"%string); (59999, "555555"%string)]
           (Otp.mkStore ∅ ∅ ∅)).
  - reflexivity.
  - reflexivity.
  - intros v expiry. simpl. by rewrite lookup_empty.
  - intros t o Hin. repeat (apply elem_of_cons in Hin as [[= -> ->] | Hin]; [lia |]).
    by apply elem_of_nil in Hin.
Defined.

(** X27. An OTP that POST /otp/request handed out verifies once: when the
    request was answered 200, POST /otp/verify for the same identifier with
    that OTP, within 300 seconds and with fewer than five attempts counted
    in the running window, answers 200 with a token for the user registered
    under the email and removes the OTP from Redis. Outside production the
    200 answer of the request carries the OTP itself. *)
Theorem otp_round_trip (env : Otp.Env) (email phone : option string)
    (e ident otp : string) (uid : nat) (t t' : Z) (st st1 : Otp.Store)
    (body : Otp.Sent) :
  Otp.truthy email = Some e →
  Otp.userByEmail env e = Some uid →
  Otp.identOf email phone = Some ident →
  Otp.request env email phone otp t st = (Reply 200 body, st1) →
  t ≤ t' < t + 300 * 1000 →
  (∀ c expiry, Otp.attemptCounts st !! ident = Some (c, expiry) →
     t' < expiry → c < 5) →
  (Otp.production env = false → Otp.sentDevOtp body = Some otp)
  ∧ ∃ st2,
      Otp.verify env email phone otp t' st1 = (Reply 200 uid, st2)
      ∧ Otp.otpHashes st2 !! ident = None.
Proof.
  intros He Hu Hid Hreq Ht Hatt. unfold Otp.request in Hreq.
  destruct (Otp.redisOn env) eqn:Hon; [| done]. simpl in Hreq.
  rewrite Hid in Hreq.
  destruct (Otp.incr 60 ident t (Otp.rateLimits st)) as [count rl].
  destruct (3 <? count); [done |]. injection Hreq as <- <-.
  split; [by intros -> |].
  unfold Otp.verify. rewrite Hon, Hid. simpl.
  assert (∃ n ac, Otp.incr 600 ident t' (Otp.attemptCounts st) = (n, ac)
                  ∧ n ≤ 5) as (n & ac & -> & Hn).
  { unfold Otp.incr.
    destruct (Otp.attemptCounts st !! ident) as [[c expiry]|] eqn:Hc.
    - destruct (Z.ltb_spec t' expiry) as [Hlive|].
      + specialize (Hatt c expiry eq_refl Hlive). eexists _, _. split; [done | lia].
      + eexists _, _. split; [done | lia].
    - eexists _, _. split; [done | lia]. }
  destruct (Z.ltb_spec 5 n); [lia |].
  unfold Otp.stored. simpl. rewrite lookup_insert_eq.
  destruct (Z.ltb_spec t' (t + 300 * 1000)); [| lia].
  rewrite String.eqb_refl. simpl. rewrite He. simpl. rewrite Hu.
  eexists. split; [done |]. simpl. apply lookup_delete_eq.
Qed.

Lemma otp_round_trip_witness :
  (Otp.production
     (Otp.mkEnv true (λ s, ("#" +:+ s)%string) "pp" false
        (λ e, if String.eqb e "a@b.co" then Some 7%nat else None)) = false →
   Otp.sentDevOtp (Otp.mkSent "email" (Some "123456"%string))
   = Some "123456"%string)
  ∧ ∃ st2,
      Otp.verify
        (Otp.mkEnv true (λ s, ("#" +:+ s)%string) "pp" false
           (λ e, if String.eqb e "a@b.co" then Some 7%nat else None))
        (Some "a@b.co"%string) None "123456" 299999
        (Otp.request
           (Otp.mkEnv true (λ s, ("#" +:+ s)%string) "pp" false
              (λ e, if String.eqb e "a@b.co" then Some 7%nat else None))
           (Some "a@b.co"%string) None "123456" 0 (Otp.mkStore ∅ ∅ ∅)).2
      = (Reply 200 7%nat, st2)
      ∧ Otp.otpHashes st2 !! "a@b.co"%string = None.
Proof.
  apply (otp_round_trip
           (Otp.mkEnv true (λ s, ("#" +:+ s)%string) "pp" false
              (λ e, if String.eqb e "a@b.co" then Some 7%nat else None))
           (Some "a@b.co"%string) None "a@b.co" "a@b.co" "123456" 7 0 299999
           (Otp.mkStore ∅ ∅ ∅)).
  - reflexivity.
  - reflexivity.
  - reflexivity.
  - vm_compute. reflexivity.
  - lia.
  - intros c expiry. simpl. by rewrite lookup_empty.
Defined.

(** A verification for an identifier without a stored OTP is answered
    400, or 429 once the attempts are used up. *)
Lemma verify_without_otp env email phone ident otp now st :
  Otp.redisOn env = true →
  Otp.identOf email phone = Some ident →
  Otp.otpHashes st !! ident = None →
  Otp.codeOf (Otp.verify env email phone otp now st).1 = 400
  ∨ Otp.codeOf (Otp.verify env email phone otp now st).1 = 429.
Proof.
  intros Hon Hid Hst. unfold Otp.verify. rewrite Hon, Hid. simpl.
  destruct (Otp.incr 600 ident now (Otp.attemptCounts st)) as [n ac].
  destruct (5 <? n); [by right |].
  unfold Otp.stored. simpl. rewrite Hst. by left.
Qed.

(** No call but a request for the identifier itself stores an OTP for it:
    a verification, whatever its answer, stores none, and a request for
    another identifier writes under that other key. *)
Lemma serveCall_keeps_absent env ident c st :
  ¬ Otp.requestsOtpFor ident c →
  Otp.otpHashes st !! ident = None →
  Otp.otpHashes (Otp.serveCall env c st).2 !! ident = None.
Proof.
  intros Hc Hst.
  destruct c as [email phone otp now | email phone otp now]; simpl.
  - unfold Otp.verify.
    destruct (negb (Otp.redisOn env)); [done |].
    destruct (Otp.identOf email phone) as [i|]; [| done].
    destruct (Otp.incr 600 i now (Otp.attemptCounts st)) as [n ac].
    destruct (5 <? n); [done |].
    destruct (Otp.stored i now _) as [h|]; [| done].
    destruct (negb _); [done |].
    assert (delete i (Otp.otpHashes st) !! ident = None) as Hdel.
    { destruct (decide (i = ident)) as [-> | Hne];
        [apply lookup_delete_eq | by rewrite lookup_delete_ne]. }
    by destruct (Otp.truthy email ≫= Otp.userByEmail env).
  - unfold Otp.request. simpl in Hc.
    destruct (negb (Otp.redisOn env)); [done |].
    destruct (Otp.identOf email phone) as [i|]; [| done].
    destruct (Otp.incr 60 i now (Otp.rateLimits st)) as [n rl].
    destruct (3 <? n); [done |]. simpl.
    rewrite lookup_insert_ne; [done | congruence].
Qed.

(** A verification answered 200 or 404 has deleted the stored OTP. *)
Lemma verify_uses_up env email phone otp now st :
  Otp.codeOf (Otp.verify env email phone otp now st).1 = 200
  ∨ Otp.codeOf (Otp.verify env email phone otp now st).1 = 404 →
  Otp.redisOn env = true
  ∧ ∀ ident, Otp.identOf email phone = Some ident →
      Otp.otpHashes (Otp.verify env email phone otp now st).2 !! ident = None.
Proof.
  unfold Otp.verify.
  destruct (Otp.redisOn env); [| by intros [[=] | [=]]]. simpl.
  destruct (Otp.identOf email phone) as [i|]; [| by intros [[=] | [=]]].
  destruct (Otp.incr 600 i now (Otp.attemptCounts st)) as [n ac].
  destruct (5 <? n); [by intros [[=] | [=]] |].
  destruct (Otp.stored i now _) as [h|]; [| by intros [[=] | [=]]].
  destruct (negb _); [by intros [[=] | [=]] |].
  intros _. split; [done |]. intros ident [= <-].
  destruct (Otp.truthy email ≫= Otp.userByEmail env); apply lookup_delete_eq.
Qed.

(** While no OTP is requested for an identifier that has none stored, each
    verification for it is answered 400 or 429, whatever else is served in
    between. *)
Lemma serveCalls_without_otp env ident : ∀ later st k email phone otp now,
  Otp.redisOn env = true →
  Otp.otpHashes st !! ident = None →
  Forall (λ c, ¬ Otp.requestsOtpFor ident c) (take k later) →
  later !! k = Some (Otp.Verify email phone otp now) →
  Otp.identOf email phone = Some ident →
  (Otp.serveCalls env later st).1 !! k = Some 400
  ∨ (Otp.serveCalls env later st).1 !! k = Some 429.
Proof.
  induction later as [|c later IH]; intros st k email phone otp now Hon Hst Hno;
    [done |].
  destruct k as [|k]; simpl.
  - intros [= ->] Hid. simpl.
    destruct (verify_without_otp env email phone ident otp now st Hon Hid Hst)
      as [-> | ->]; auto.
  - intros Hk Hid. apply Forall_cons in Hno as [Hc Hno].
    apply (IH _ _ email phone otp now); try done.
    by apply serveCall_keeps_absent.
Qed.

(** X28. An OTP is used up by the verification that matches it, also when
    that verification ends in 404 because no user is registered under the
    email (or the identifier is a phone number). After an answer 200 or
    404 of POST /otp/verify, whatever calls of the two handlers follow,
    for this or any other identifier, with any OTP and at any time: as
    long as none of them requests a new OTP for the identifier, every
    verification for it is answered 400 or 429, so none is answered 200. *)
Theorem otp_single_use (env : Otp.Env) (email phone : option string)
    (otp : string) (now : Z) (st : Otp.Store) (ident : string)
    (later : list Otp.Call) (k : nat) (email' phone' : option string)
    (otp' : string) (now' : Z) :
  Otp.identOf email phone = Some ident →
  Otp.codeOf (Otp.verify env email phone otp now st).1 = 200
  ∨ Otp.codeOf (Otp.verify env email phone otp now st).1 = 404 →
  Forall (λ c, ¬ Otp.requestsOtpFor ident c) (take k later) →
  later !! k = Some (Otp.Verify email' phone' otp' now') →
  Otp.identOf email' phone' = Some ident →
  (Otp.serveCalls env later (Otp.verify env email phone otp now st).2).1 !! k
  = Some 400
  ∨ (Otp.serveCalls env later (Otp.verify env email phone otp now st).2).1
      !! k
    = Some 429.
Proof.
  intros Hid Hcode Hno Hk Hid'.
  apply verify_uses_up in Hcode as [Hon Hgone].
  apply (serveCalls_without_otp env ident later _ k email' phone' otp' now');
    auto.
Qed.

Lemma otp_single_use_witness :
  (Otp.serveCalls
     (Otp.mkEnv true (λ s, ("#" +:+ s)%string) "pp" false (λ _, None))
     [Otp.Verify None (Some "+4912345678"%string) "000000" 2000;
      Otp.Request None (Some "+4955555555"%string) "654321" 3000;
      Otp.Verify None (Some "+4955555555"%string) "654321" 4000;
      Otp.Verify None (Some "+4912345678"%string) "123456" 5000]
     (Otp.verify
        (Otp.mkEnv true (λ s, ("#" +:+ s)%string) "pp" false (λ _, None))
        None (Some "+4912345678"%string) "123456" 1000
        (Otp.request
           (Otp.mkEnv true (λ s, ("#" +:+ s)%string) "pp" false (λ _, None))
           None (Some "+4912345678"%string) "123456" 0
           (Otp.mkStore ∅ ∅ ∅)).2).2).1 !! 3%nat
  = Some 400
  ∨ (Otp.serveCalls
       (Otp.mkEnv true (λ s, ("#" +:+ s)%string) "pp" false (λ _, None))
       [Otp.Verify None (Some "+4912345678"%string) "000000" 2000;
        Otp.Request None (Some "+4955555555"%string) "654321" 3000;
        Otp.Verify None (Some "+4955555555"%string) "654321" 4000;
        Otp.Verify None (Some "+4912345678"%string) "123456" 5000]
       (Otp.verify
          (Otp.mkEnv true (λ s, ("#" +:+ s)%string) "pp" false (λ _, None))
          None (Some "+4912345678"%string) "123456" 1000
          (Otp.request
             (Otp.mkEnv true (λ s, ("#" +:+ s)%string) "pp" false (λ _, None))
             None (Some "+4912345678"%string) "123456" 0
             (Otp.mkStore ∅ ∅ ∅)).2).2).1 !! 3%nat
    = Some 429.
Proof.
  apply (otp_single_use
           (Otp.mkEnv true (λ s, ("#" +:+ s)%string) "pp" false (λ _, None))
           None (Some "+4912345678"%string) "123456" 1000
           (Otp.request
              (Otp.mkEnv true (λ s, ("#" +:+ s)%string) "pp" false (λ _, None))
              None (Some "+4912345678"%string) "123456" 0
              (Otp.mkStore ∅ ∅ ∅)).2
           "+4912345678"%string
           [Otp.Verify None (Some "+4912345678"%string) "000000" 2000;
            Otp.Request None (Some "+4955555555"%string) "654321" 3000;
            Otp.Verify None (Some "+4955555555"%string) "654321" 4000;
            Otp.Verify None (Some "+4912345678"%string) "123456" 5000]
           3%nat None (Some "+4912345678"%string) "123456" 5000).
  - reflexivity.
  - right. vm_compute. reflexivity.
  - repeat constructor; simpl; [tauto | discriminate | tauto].
  - reflexivity.
  - reflexivity.
Defined.

Lemma verify_counted env email phone ident otp now st c expiry :
  Otp.redisOn env = true →
  Otp.identOf email phone = Some ident →
  Otp.attemptCounts st !! ident = Some (c, expiry) → now < expiry →
  let r := Otp.verify env email phone otp now st in
  Otp.attemptCounts r.2 !! ident = Some (c + 1, expiry)
  ∧ (5 ≤ c → Otp.codeOf r.1 = 429 ∧ Otp.otpHashes r.2 = Otp.otpHashes st).
Proof.
  intros Hon Hid Hc Hlive. unfold Otp.verify. rewrite Hon, Hid. simpl.
  rewrite (incr_live 600 ident now _ c expiry Hc Hlive).
  destruct (Z.ltb_spec 5 (c + 1)); simpl.
  { split; [apply lookup_insert_eq | done]. }
  destruct (Otp.stored ident now _) as [h|]; simpl.
  2: { split; [apply lookup_insert_eq | lia]. }
  destruct (negb _); simpl; [split; [apply lookup_insert_eq | lia] |].
  destruct (Otp.truthy email ≫= Otp.userByEmail env); simpl;
    (split; [apply lookup_insert_eq | lia]).
Qed.

Lemma verifies_counted env email phone ident :
  Otp.redisOn env = true →
  Otp.identOf email phone = Some ident →
  ∀ calls st c expiry,
    Otp.attemptCounts st !! ident = Some (c, expiry) →
    (∀ t o, (t, o) ∈ calls → t < expiry) →
    ∀ k code,
      (Otp.verifies env email phone calls st).1 !! k = Some code →
      5 ≤ c + Z.of_nat k → code = 429.
Proof.
  intros Hon Hid. induction calls as [|[t o] calls IH];
    intros st c expiry Hc Hlive k code; [done |].
  assert (t < expiry) as Ht by (apply (Hlive t o); left).
  destruct (verify_counted env email phone ident o t st c expiry Hon Hid Hc Ht)
    as (Hc' & Hge).
  cbn [Otp.verifies fst snd]. destruct k as [|k].
  - simpl. intros [= <-] Hk. by destruct Hge as [-> _]; [lia |].
  - simpl. intros Hcode Hk.
    apply (IH _ (c + 1) expiry Hc'
             ltac:(intros t0 o0 H0; apply (Hlive t0 o0); by right) k code Hcode).
    lia.
Qed.

Lemma verifies_length env email phone calls :
  ∀ st, length (Otp.verifies env email phone calls st).1 = length calls.
Proof.
  induction calls as [|[t o] calls IH]; intros st; [done |].
  cbn [Otp.verifies fst snd length]. by rewrite IH.
Qed.

(** X29. POST /otp/verify looks at no more than five OTPs per identifier in
    the 600 seconds that start with the first attempt: of any sequence of
    verifications in that window, every one after the fifth is answered
    429, whatever OTP it tries, the right one included. *)
Theorem otp_verify_locks_after_five (env : Otp.Env)
    (email phone : option string) (ident : string) (t1 : Z) (o1 : string)
    (calls : list (Z * string)) (st : Otp.Store) (k : nat) :
  Otp.redisOn env = true →
  Otp.identOf email phone = Some ident →
  Otp.dead (Otp.attemptCounts st) ident t1 →
  (∀ t o, (t, o) ∈ calls → t < t1 + 600 * 1000) →
  (5 ≤ k ≤ length calls)%nat →
  (Otp.verifies env email phone ((t1, o1) :: calls) st).1 !! k = Some 429.
Proof.
  intros Hon Hid Hdead Hwin Hk.
  destruct (lookup_lt_is_Some_2
              (Otp.verifies env email phone ((t1, o1) :: calls) st).1 k)
    as [code Hcode].
  { rewrite verifies_length. simpl. lia. }
  rewrite Hcode. f_equal.
  cbn [Otp.verifies fst snd] in Hcode.
  destruct k as [|k]; [lia |]. simpl in Hcode.
  assert (Otp.attemptCounts (Otp.verify env email phone o1 t1 st).2 !! ident
          = Some (1, t1 + 600 * 1000)) as Hc.
  { unfold Otp.verify. rewrite Hon, Hid. simpl. rewrite (incr_dead Hdead).
    simpl. destruct (Otp.stored ident t1 _) as [h|]; simpl;
      [| apply lookup_insert_eq].
    destruct (negb _); simpl; [apply lookup_insert_eq |].
    destruct (Otp.truthy email ≫= Otp.userByEmail env); simpl;
      apply lookup_insert_eq. }
  apply (verifies_counted env email phone ident Hon Hid calls _ 1
           (t1 + 600 * 1000) Hc Hwin k code Hcode).
  lia.
Qed.

Lemma otp_verify_locks_after_five_witness :
  (Otp.verifies
     (Otp.mkEnv true (λ s, ("#" +:+ s)%string) "pp" false (λ _, Some 7%nat))
     (Some "a@b.co"%string) None
     [(100, "000001"%string); (200, "000002"%string); (300, "000003"%string);
      (400, "000004"%string); (500, "000005"%string); (600, "123456"%string)]
     (Otp.request
        (Otp.mkEnv true (λ s, ("#" +:+ s)%string) "pp" false (λ _, Some 7%nat))
        (Some "a@b.co"%string) None "123456" 0 (Otp.mkStore ∅ ∅ ∅)).2).1
    !! 5%nat
  = Some 429.
Proof.
  apply (otp_verify_locks_after_five
           (Otp.mkEnv true (λ s, ("#" +:+ s)%string) "pp" false (λ _, Some 7%nat))
           (Some "a@b.co"%string) None "a@b.co" 100 "000001"
           [(200, "000002"%string); (300, "000003"%string);
            (400, "000004"%string); (500, "000005"%string);
            (600, "123456"%string)]
           (Otp.request
              (Otp.mkEnv true (λ s, ("#" +:+ s)%string) "pp" false
                 (λ _, Some 7%nat))
              (Some "a@b.co"%string) None "123456" 0 (Otp.mkStore ∅ ∅ ∅)).2
           5).
  - reflexivity.
  - reflexivity.
  - intros v expiry H. vm_compute in H. discriminate H.
  - intros t o Hin. repeat (apply elem_of_cons in Hin as [[= -> ->] | Hin]; [lia |]).
    by apply elem_of_nil in Hin.
  - simpl. lia.
Defined.

(** ** From the routing table to the fare *)

(** The cell of a requested pair is a number in both matrices. *)
Lemma table_cell_number (haversine : Routing.Point → Routing.Point → Q)
    (osrm : option Routing.OsrmData) (srcs dsts : list Routing.Point)
    (i j : nat) (s d : Routing.Point) :
  srcs !! i = Some s →
  dsts !! j = Some d →
  ∃ dur dist,
    Routing.cell (Routing.tableDurations (Routing.table haversine osrm srcs dsts))
      i j = Some (Some dur)
    ∧ Routing.cell
        (Routing.tableDistances (Routing.table haversine osrm srcs dsts)) i j
      = Some (Some dist)
    ∧ (dur = Routing.estimateDurationMeters (haversine s d)
       ∨ ∃ data, osrm = Some data
                 ∧ Routing.cell (Routing.osrmDurations data) i j
                   = Some (Some dur)).
Proof.
  intros Hs Hd.
  destruct (haversineTable_cell haversine srcs dsts i j s d Hs Hd) as [H1 H2].
  unfold Routing.table. destruct osrm as [data|].
  2: { eexists _, _. split_and!; [done | done | by left]. }
  destruct (Routing.fillRows _ _ _ _ _) as [[durs dists]|] eqn:Hfill.
  2: { eexists _, _. split_and!; [done | done | by left]. }
  destruct (fillRows_cell haversine dsts j d Hd _ _ _ _ i s Hfill Hs)
    as (dur & dist & Hdur & Hdist & Hsrc).
  exists dur, dist. split_and!; [done | done |].
  destruct Hsrc as [-> | Hsrc]; [by left | right; eauto].
Qed.

Lemma estimateDurationMeters_nonneg m :
  (0 <= m)%Q → (0 <= Routing.estimateDurationMeters m)%Q.
Proof.
  intros H. unfold Routing.estimateDurationMeters, Qdiv.
  assert (/ (833 # 100) == 100 # 833)%Q as -> by reflexivity. lra.
Qed.

Lemma fillRow_nonneg haversine s :
  (∀ a b, (0 <= haversine a b)%Q) →
  ∀ dsts durs dists,
    (∀ j x, durs !! j = Some (Some x) → (0 <= x)%Q) →
    (∀ j x, dists !! j = Some (Some x) → (0 <= x)%Q) →
    (∀ j x, (Routing.fillRow haversine s dsts durs dists).1 !! j = Some (Some x) →
       (0 <= x)%Q)
    ∧ (∀ j x, (Routing.fillRow haversine s dsts durs dists).2 !! j
              = Some (Some x) → (0 <= x)%Q).
Proof.
  intros Hhav. induction dsts as [|d dsts IH]; intros durs dists Hdurs Hdists;
    [done |].
  destruct (IH (tl durs) (tl dists)) as [IH1 IH2].
  { intros j x. rewrite lookup_tl. apply Hdurs. }
  { intros j x. rewrite lookup_tl. apply Hdists. }
  assert (∀ v, hd None durs = Some v → (0 <= v)%Q) as Hd0
    by (intros v Hv; apply (Hdurs 0%nat), hd_Some_lookup, Hv).
  assert (∀ v, hd None dists = Some v → (0 <= v)%Q) as Hs0
    by (intros v Hv; apply (Hdists 0%nat), hd_Some_lookup, Hv).
  cbn [Routing.fillRow].
  destruct (Routing.needsFill (Routing.samePoint s d) (hd None durs)) eqn:Hf1.
  - split; intros [|j] x; simpl; try (by apply IH1 || by apply IH2).
    + intros [= <-]. apply estimateDurationMeters_nonneg, Hhav.
    + intros [= <-]. apply Hhav.
  - apply needsFill_false in Hf1 as [v Hv]. rewrite Hv in *.
    specialize (Hd0 v eq_refl).
    destruct (Routing.needsFill (Routing.samePoint s d) (hd None dists)) eqn:Hf2.
    + split; intros [|j] x; simpl; try (by apply IH1 || by apply IH2).
      * by intros [= <-].
      * intros [= <-]. nra.
    + apply needsFill_false in Hf2 as [v' Hv']. rewrite Hv' in *.
      specialize (Hs0 v' eq_refl).
      split; intros [|j] x; simpl; try (by apply IH1 || by apply IH2).
      * by intros [= <-].
      * by intros [= <-].
Qed.

Lemma nonNegative_cons row m :
  nonNegative (row :: m)
  ↔ (∀ j x, row !! j = Some (Some x) → (0 <= x)%Q) ∧ nonNegative m.
Proof.
  unfold nonNegative, Routing.cell. split.
  - intros H. split.
    + intros j x. apply (H 0%nat j x).
    + intros i j x. apply (H (S i) j x).
  - intros [H0 H] [|i] j x; [apply H0 | apply H].
Qed.

Lemma fillRows_nonneg haversine dsts :
  (∀ a b, (0 <= haversine a b)%Q) →
  ∀ srcs durRows distRows r,
    nonNegative durRows → nonNegative distRows →
    Routing.fillRows haversine srcs dsts durRows distRows = Some r →
    nonNegative r.1 ∧ nonNegative r.2.
Proof.
  intros Hhav. induction srcs as [|s srcs IH]; intros durRows distRows r H1 H2.
  { by intros [= <-]. }
  simpl. destruct dsts as [|d0 dsts']; [by intros [= <-] |].
  destruct durRows as [|durs durRows]; [done |].
  destruct distRows as [|dists distRows]; [done |].
  apply nonNegative_cons in H1 as [Hd Hdr].
  apply nonNegative_cons in H2 as [Hs Hsr].
  destruct (Routing.fillRows haversine srcs (d0 :: dsts') durRows distRows)
    as [rest|] eqn:Hrest; [| done].
  intros [= <-]. destruct (IH durRows distRows rest Hdr Hsr Hrest) as [R1 R2].
  destruct (fillRow_nonneg haversine s Hhav (d0 :: dsts') durs dists Hd Hs)
    as [F1 F2].
  cbn [fst snd]. split; apply nonNegative_cons; done.
Qed.

Lemma distancesFrom_nonneg m :
  nonNegative m → nonNegative (Routing.distancesFrom m).
Proof.
  intros H i j x. unfold Routing.cell, Routing.distancesFrom.
  rewrite list_lookup_fmap.
  destruct (m !! i) as [row|] eqn:Hrow; [| done]. simpl.
  rewrite list_lookup_fmap.
  destruct (row !! j) as [[v|]|] eqn:Hv; simpl; [| done | done].
  intros [= <-].
  assert (0 <= v)%Q; [| nra].
  apply (H i j v). unfold Routing.cell. by rewrite Hrow.
Qed.

Lemma haversineTable_nonneg haversine srcs dsts :
  (∀ a b, (0 <= haversine a b)%Q) →
  nonNegative (Routing.tableDurations (Routing.haversineTable haversine srcs dsts))
  ∧ nonNegative
      (Routing.tableDistances (Routing.haversineTable haversine srcs dsts)).
Proof.
  intros Hhav. unfold Routing.haversineTable, nonNegative, Routing.cell. simpl.
  split; intros i j x; rewrite !list_lookup_fmap;
    (destruct (srcs !! i) as [s|]; [| done]); simpl;
    rewrite !list_lookup_fmap;
    (destruct (dsts !! j) as [d|]; [| done]); simpl; intros [= <-].
  - apply estimateDurationMeters_nonneg, Hhav.
  - apply Hhav.
Qed.

Lemma table_nonneg haversine osrm srcs dsts :
  (∀ a b, (0 <= haversine a b)%Q) →
  (∀ data, osrm = Some data →
     nonNegative (Routing.osrmDurations data)
     ∧ ∀ m, Routing.osrmDistances data = Some m → nonNegative m) →
  nonNegative (Routing.tableDurations (Routing.table haversine osrm srcs dsts))
  ∧ nonNegative
      (Routing.tableDistances (Routing.table haversine osrm srcs dsts)).
Proof.
  intros Hhav Hosrm. unfold Routing.table.
  destruct osrm as [data|]; [| by apply haversineTable_nonneg].
  destruct (Hosrm data eq_refl) as [Hd Hm].
  destruct (Routing.fillRows _ _ _ _ _) as [[durs dists]|] eqn:Hfill;
    [| by apply haversineTable_nonneg].
  apply (fillRows_nonneg haversine dsts Hhav srcs _ _ _ Hd) in Hfill; [done |].
  destruct (Routing.osrmDistances data) as [m|]; simpl;
    [by apply Hm | by apply distancesFrom_nonneg].
Qed.

Lemma mathRound_nonneg (x : Q) : (0 <= x)%Q → 0 ≤ mathRound x.
Proof.
  intros H. unfold mathRound.
  assert (Qfloor 0 ≤ Qfloor (x + (1 # 2))) as H0
    by (apply Qfloor_resp_le; lra).
  by change (Qfloor 0) with 0 in H0.
Qed.

Lemma roundedCell_number m x :
  Routing.cell m 0 0 = Some (Some x) → roundedCell m = Some (Some (mathRound x)).
Proof.
  unfold Routing.cell, roundedCell. destruct (m !! 0%nat) as [row|]; [| done].
  simpl. by intros ->.
Qed.

(** X30. From the routing table to the fare: when the maps-service reaches
    the routing-service for a trip (no cached entry), the haversine
    distance is not negative and OSRM, if it answers, returns no negative
    number, then GET /get-distance-time answers 200 with a distance and a
    duration that are numbers and not negative, and GET /get-fare of the
    rides-service, with a surge factor of at least 1, quotes a positive
    fare for every vehicle type. *)
Theorem routed_trip_has_positive_fare
    (haversine : Routing.Point → Routing.Point → Q)
    (osrm : option Routing.OsrmData) (o d : Routing.Point)
    (env : DistanceEnv) (surge : string → option Q)
    (pickup destination : string) :
  (∀ a b, (0 <= haversine a b)%Q) →
  (∀ data, osrm = Some data →
     nonNegative (Routing.osrmDurations data)
     ∧ ∀ m, Routing.osrmDistances data = Some m → nonNegative m) →
  distRoutingBase env = true →
  distResolved env = true →
  distCached env = None →
  distTable env = Some (Routing.table haversine osrm [o] [d]) →
  (1 <= getSurgeFactor (fareEnvVia env surge) pickup)%Q →
  ∃ dist dur t,
    mapsDistanceTime env true true = Reply 200 (Some dist, Some dur)
    ∧ 0 ≤ dist ∧ 0 ≤ dur
    ∧ getFare (fareEnvVia env surge) pickup destination = Reply 200 t
    ∧ 0 < fareAuto t ∧ 0 < fareCar t ∧ 0 < fareMoto t.
Proof.
  intros Hhav Hosrm Hbase Hres Hcache Htable Hsurge.
  destruct (table_cell_number haversine osrm [o] [d] 0 0 o d eq_refl eq_refl)
    as (dur & dist & Hdur & Hdist & _).
  destruct (table_nonneg haversine osrm [o] [d] Hhav Hosrm) as [Nd Ns].
  apply Nd in Hdur as Hdur0. apply Ns in Hdist as Hdist0.
  assert (mapsDistanceTime env true true
          = Reply 200 (Some (mathRound dist), Some (mathRound dur))) as Hmaps.
  { unfold mapsDistanceTime. rewrite Hbase, Hres, Hcache, Htable. simpl.
    by rewrite (roundedCell_number _ _ Hdur), (roundedCell_number _ _ Hdist). }
  pose proof (mathRound_nonneg _ Hdist0) as Hd0.
  pose proof (mathRound_nonneg _ Hdur0) as Ht0.
  eexists _, _, _. split; [exact Hmaps |]. split; [done |]. split; [done |].
  unfold getFare. cbn [distanceTime fareEnvVia]. rewrite Hmaps. simpl.
  split; [reflexivity |]. simpl.
  split_and!; by apply fareFor_pos.
Qed.

Lemma routed_trip_has_positive_fare_witness :
  ∃ dist dur t,
    mapsDistanceTime
      (mkDistanceEnv true true None
         (Some (Routing.table (λ _ _, 4165%Q)
                  (Some (Routing.mkOsrmData [[Some 0%Q]] None))
                  [(1, 2)%Q] [(3, 4)%Q]))
         false GoogleNotOk) true true
    = Reply 200 (Some dist, Some dur)
    ∧ 0 ≤ dist ∧ 0 ≤ dur
    ∧ getFare
        (fareEnvVia
           (mkDistanceEnv true true None
              (Some (Routing.table (λ _ _, 4165%Q)
                       (Some (Routing.mkOsrmData [[Some 0%Q]] None))
                       [(1, 2)%Q] [(3, 4)%Q]))
              false GoogleNotOk)
           (λ _, None))
        "1,2" "3,4" = Reply 200 t
    ∧ 0 < fareAuto t ∧ 0 < fareCar t ∧ 0 < fareMoto t.
Proof.
  apply (routed_trip_has_positive_fare (λ _ _, 4165%Q)
           (Some (Routing.mkOsrmData [[Some 0%Q]] None)) (1, 2)%Q (3, 4)%Q
           (mkDistanceEnv true true None
              (Some (Routing.table (λ _ _, 4165%Q)
                       (Some (Routing.mkOsrmData [[Some 0%Q]] None))
                       [(1, 2)%Q] [(3, 4)%Q]))
              false GoogleNotOk)
           (λ _, None) "1,2" "3,4").
  - intros _ _. vm_compute. discriminate.
  - intros data [= <-]. split.
    + intros [|i] [|j] x; unfold Routing.cell; simpl; try done.
      intros [= <-]. vm_compute. discriminate.
    + intros m [=].
  - reflexivity.
  - reflexivity.
  - reflexivity.
  - reflexivity.
  - vm_compute. discriminate.
Defined.

(** * The invariant of assigned dispatches *)

(** ** What a served step and an await keep *)

Lemma noneAssigned_setCandStatus i s d :
  s ≠ CAssigned → noneAssigned d → noneAssigned (setCandStatus i s d).
Proof.
  intros Hs H. unfold noneAssigned in *. simpl.
  apply Forall_lookup_2. intros j c.
  destruct (decide (i = j)) as [<- | Hne].
  - rewrite list_lookup_alter_eq.
    destruct (candidates d !! i); simpl; [| done]. by intros [= <-].
  - rewrite list_lookup_alter_ne by done. intros Hc.
    by apply (Forall_lookup_1 _ _ _ _ H Hc).
Qed.

(** A write of ack or rejected over a candidate status, in a dispatch of
    any status. *)
Lemma dispatchOk_setCandStatus rs d idx s :
  s ≠ CAssigned → dispatchOk rs d → dispatchOk rs (setCandStatus idx s d).
Proof.
  intros Hs. unfold dispatchOk. simpl. case_decide.
  - intros [Hone Hride]. split; [| done].
    intros j c. simpl. destruct (decide (idx = j)) as [<- | Hne].
    + rewrite list_lookup_alter_eq.
      destruct (candidates d !! idx); simpl; [| done]. by intros [= <-].
    + rewrite list_lookup_alter_ne by done. apply Hone.
  - by apply noneAssigned_setCandStatus.
Qed.

Lemma dispatchOk_cancel rs d :
  dispatchStatus d = DPending → dispatchOk rs d →
  dispatchOk rs (setDispatchStatus DCancelled d).
Proof.
  intros Hp. unfold dispatchOk. simpl. by rewrite decide_False by congruence.
Qed.

Lemma storeOk_update id g w :
  storeOk w →
  (∀ d, dispatches w !! id = Some d → dispatchOk (rides w) d →
     dispatchOk (rides w) (g d)) →
  storeOk (updateDispatch id g w).
Proof.
  intros Hok Hg id' d'. simpl. rewrite lookup_alter.
  destruct (decide (id = id')) as [<- | Hne]; [| apply Hok].
  destruct (dispatches w !! id) as [d|] eqn:Ed; [| done].
  intros [= <-]. apply Hg; [done |]. by apply (Hok id).
Qed.

(** Every step of another client keeps the store well formed: a whole
    /ack-offer, a cancellation, and the write of an /ack-offer that lands
    on a dispatch of any status. *)
Lemma serve_storeOk a w : storeOk w → storeOk (serve a w).
Proof.
  intros Hok.
  destruct (serve_cases a w) as [-> | (id0 & g & Hg & ->)]; [done |].
  apply (storeOk_update id0 g w Hok). intros d Hd.
  destruct Hg as [(d0 & Hd0 & Hp & ->) | (idx & s & Hs & ->)].
  - apply dispatchOk_cancel. congruence.
  - apply dispatchOk_setCandStatus. by destruct Hs as [-> | ->].
Qed.

Lemma await_storeOk w : storeOk w → storeOk (await w).
Proof.
  apply (await_preserves storeOk); try done. intros a w'. apply serve_storeOk.
Qed.

Lemma storeOk_ext w w' :
  dispatches w' = dispatches w → rides w' = rides w → storeOk w → storeOk w'.
Proof. unfold storeOk. by intros -> ->. Qed.

(** ** The loop invariant of the job *)

Lemma jobInv_ext id ident w w' :
  dispatches w' = dispatches w → rides w' = rides w →
  jobInv id ident w → jobInv id ident w'.
Proof.
  intros Hd Hr [Hok Hex]. split; [by apply (storeOk_ext w) |]. by rewrite Hd.
Qed.

Lemma jobInv_await id ident w : jobInv id ident w → jobInv id ident (await w).
Proof.
  intros [Hok Hex]. split; [by apply await_storeOk |].
  apply (await_dispatch
           (λ d, identityOf d = ident ∧ dispatchStatus d ≠ DAssigned) id w).
  - intros d idx s _ [Hi Hs]. by rewrite identityOf_setCandStatus.
  - intros d _ [Hi Hs]. done.
  - done.
Qed.

Lemma jobInv_emit id ident e w :
  jobInv id ident w → jobInv id ident (emit e w).
Proof.
  intros H. apply (jobInv_ext id ident (await w)); [done | done |].
  by apply jobInv_await.
Qed.

Lemma dispatchOk_rewrite rs d g :
  dispatchStatus d ≠ DAssigned →
  dispatchStatus (g d) ≠ DAssigned →
  (noneAssigned d → noneAssigned (g d)) →
  dispatchOk rs d → dispatchOk rs (g d).
Proof.
  intros H1 H2 Hg. unfold dispatchOk. by rewrite !decide_False.
Qed.

Lemma jobInv_markTimeout id ident i w :
  jobInv id ident w → jobInv id ident (markTimeout id i w).
Proof.
  intros H. apply jobInv_await in H as [Hok (d & Hd & Hi & Hs)].
  unfold markTimeout. split.
  - apply storeOk_update; [done |]. intros d' Hd'.
    assert (d' = d) as -> by congruence.
    apply (dispatchOk_rewrite _ d
             (λ d0, setCurrentIndex (S i) (setCandStatus i CTimeout d0)));
      [done | done |].
    intros Hna. by apply (noneAssigned_setCandStatus i CTimeout d).
  - rewrite lookup_updateDispatch, decide_True, Hd by done. simpl.
    eexists. split; [done |]. split; [| done].
    rewrite <- Hi. apply (identityOf_setCandStatus i CTimeout d).
Qed.

Lemma jobInv_noCandidateAccepted id ident w :
  jobInv id ident w → storeOk (noCandidateAccepted id w).
Proof.
  intros H. apply jobInv_await in H as [Hok (d & Hd & Hi & Hs)].
  unfold noCandidateAccepted.
  apply storeOk_update; [done |]. intros d' Hd'.
  assert (d' = d) as -> by congruence.
  by apply (dispatchOk_rewrite _ d (setDispatchStatus DCancelled)).
Qed.

Lemma waitForAck_jobInv ident fuel id i started ackSec w r w' :
  jobInv id ident w →
  waitForAck fuel id i started ackSec w = Some (r, w') → jobInv id ident w'.
Proof.
  apply (waitForAck_preserves (jobInv id ident)).
  - apply jobInv_await.
  - intros ms w0. by apply jobInv_ext.
Qed.

(** ** Requests served whole *)

Lemma concurrent_await w : concurrent (await w) = tail (concurrent w).
Proof.
  unfold await. destruct (concurrent w) as [|t ts] eqn:E; [done |]. simpl.
  assert (concurrent (advance (Z.of_nat (lag t)) (setConcurrent ts w)) = ts)
    as H0 by done.
  revert H0. generalize (advance (Z.of_nat (lag t)) (setConcurrent ts w)).
  induction (served t) as [|a l IH]; intros w0 Hw0; simpl; [done |].
  apply IH. rewrite <- Hw0. serve_frame a w0; done.
Qed.

Lemma noLateWrite_ext id w w' :
  concurrent w' = concurrent w → noLateWrite id w → noLateWrite id w'.
Proof. unfold noLateWrite. by intros ->. Qed.

Lemma noLateWrite_await id w : noLateWrite id w → noLateWrite id (await w).
Proof.
  unfold noLateWrite. rewrite concurrent_await.
  destruct (concurrent w); [done |]. simpl. by intros [_ ?]%Forall_cons.
Qed.

Lemma noLateWrite_waitForAck id0 fuel id i started ackSec w r w' :
  noLateWrite id0 w →
  waitForAck fuel id i started ackSec w = Some (r, w') → noLateWrite id0 w'.
Proof.
  apply (waitForAck_preserves (noLateWrite id0)).
  - apply noLateWrite_await.
  - done.
Qed.

(** An invariant of the steps that are served is an invariant of the
    await. *)
Lemma await_preserves_in (A : ExtAction → Prop) (P : World → Prop) w :
  Forall (λ t, Forall A (served t)) (concurrent w) →
  (∀ a w0, A a → P w0 → P (serve a w0)) →
  (∀ n w0, P w0 → P (advance (Z.of_nat n) w0)) →
  (∀ ts w0, P w0 → P (setConcurrent ts w0)) →
  P w → P (await w).
Proof.
  intros Hall Hserve Hadv Hconc Hw. unfold await.
  destruct (concurrent w) as [|t ts]; [done |].
  apply Forall_cons in Hall as [Ht _].
  assert (P (advance (Z.of_nat (lag t)) (setConcurrent ts w))) as H0 by auto.
  revert H0. generalize (advance (Z.of_nat (lag t)) (setConcurrent ts w)).
  revert Ht. generalize (served t). intros l Hl.
  induction Hl as [|a l Ha Hl IH]; intros w0 Hw0; simpl; [done |].
  apply IH, Hserve; done.
Qed.

(** A request served whole does not touch a dispatch that is no longer
    pending. *)
Lemma serve_settled id d a w :
  ¬ lateWriteTo id a →
  dispatches w !! id = Some d → dispatchStatus d ≠ DPending →
  dispatches (serve a w) !! id = Some d.
Proof.
  intros Ha Hd Hs.
  destruct a as [id0 captain accepted | id0 | id0 idx accepted]; unfold serve.
  - unfold ackOffer.
    destruct (dispatches w !! id0) as [d0|] eqn:E; [| done].
    destruct (decide (dispatchStatus d0 = DPending)); [| done].
    destruct (findIndex captain (candidates d0)); [| done]. simpl.
    rewrite lookup_alter_ne; [done |]. intros ->. congruence.
  - unfold cancelDispatch.
    destruct (dispatches w !! id0) as [d0|] eqn:E; [| done].
    destruct (decide (dispatchStatus d0 = DPending)); [| done]. simpl.
    rewrite lookup_alter_ne; [done |]. intros ->. congruence.
  - simpl in *. rewrite lookup_alter_ne; [done |]. by intros ->.
Qed.

Lemma await_settled_whole id d w :
  noLateWrite id w →
  dispatches w !! id = Some d → dispatchStatus d ≠ DPending →
  dispatches (await w) !! id = Some d.
Proof.
  intros Hno Hd Hs.
  apply (await_preserves_in (λ a, ¬ lateWriteTo id a)
           (λ w', dispatches w' !! id = Some d)); try done.
  intros a w0 Ha Hw0. by apply serve_settled.
Qed.

Lemma committedCandidate_await id i w :
  committedCandidate id i w → committedCandidate id i (await w).
Proof.
  intros (d & c & Hd & Hc & Hs).
  destruct (await_dispatch
              (λ d', ∃ c', candidates d' !! i = Some c'
                           ∧ (candStatus c' = CAssigned ∨ candStatus c' = CAck
                              ∨ candStatus c' = CRejected)) id w)
    as (d' & Hd' & c' & Hc' & Hs').
  - intros d0 idx s Hs0 (c0 & Hc0 & Hst). simpl.
    destruct (decide (idx = i)) as [-> | Hne].
    + rewrite list_lookup_alter_eq, Hc0. simpl. eexists. split; [done |].
      simpl. destruct Hs0 as [-> | ->]; auto.
    + rewrite list_lookup_alter_ne by done. eauto.
  - intros d0 _ H. exact H.
  - exists d. eauto.
  - by exists d', c'.
Qed.

(** ** The commit *)

Lemma assignedOk_insert_ride rs rid ride d :
  rs !! rid = None → assignedOk rs d → assignedOk (<[rid := ride]> rs) d.
Proof.
  intros Hfree (Hone & r & ride0 & H1 & H2 & H3 & H4 & H5).
  split; [done |]. exists r, ride0. split_and!; try done.
  rewrite lookup_insert_ne; [done |]. intros ->. congruence.
Qed.

Lemma storeOk_insert_ride rid ride w :
  rides w !! rid = None → storeOk w → storeOk (setRides (insert rid ride) w).
Proof.
  intros Hfree Hok id d Hd. specialize (Hok id d Hd). simpl in *.
  unfold dispatchOk in *. case_decide; [| done].
  by apply assignedOk_insert_ride.
Qed.

(** The update of line 79 on a dispatch that has no assigned candidate. *)
Lemma assignedOk_commit rs d i rid ride :
  noneAssigned d → rs !! rid = Some ride →
  rideUser ride = dispatchUser d → ridePickup ride = dispatchPickup d →
  rideDestination ride = dispatchDestination d →
  assignedOk rs
    (setCandStatus i CAssigned
       (setRideId rid (setCurrentIndex i (setDispatchStatus DAssigned d)))).
Proof.
  intros Hna Hr Husr Hpick Hdest. split.
  - intros j c. simpl. destruct (decide (i = j)) as [| Hne]; [done |].
    rewrite list_lookup_alter_ne by done. intros Hj Hs.
    by destruct (Forall_lookup_1 _ _ _ _ Hna Hj).
  - by exists rid, ride.
Qed.

(** The acked branch keeps the store well formed, and when it ends by an
    assignment the dispatch is as the commit wrote it, but for the status
    of the candidate when the write of an /ack-offer lands after the
    commit. *)
Lemma commitAssignment_spec env id i ident w exit w' :
  jobInv id ident w →
  commitAssignment env id i w = (exit, w') →
  storeOk w'
  ∧ (exit = Assigned →
     ∃ d' c' rid ride,
       dispatches w' !! id = Some d'
       ∧ dispatchStatus d' = DAssigned
       ∧ currentIndex d' = i
       ∧ candidates d' !! i = Some c'
       ∧ (candStatus c' = CAssigned ∨ candStatus c' = CAck
          ∨ candStatus c' = CRejected)
       ∧ (noLateWrite id w → candStatus c' = CAssigned)
       ∧ rideId d' = Some rid
       ∧ rides w !! rid = None
       ∧ rides w' !! rid = Some ride
       ∧ rideStatus ride = RAccepted
       ∧ rideCaptain ride = Some (captainId c')
       ∧ rideUser ride = dispatchUser d').
Proof.
  intros Hinv. unfold commitAssignment.
  apply jobInv_await in Hinv as H1.
  destruct H1 as [Hok1 (cur & Hcur & Hident & Hns)]. rewrite Hcur.
  apply jobInv_await in Hinv as H1. apply jobInv_await in H1 as H2.
  destruct (candidates cur !! i) as [cand|] eqn:Hcand.
  2: { intros [= <- <-]. split; [apply H2 | done]. }
  set (w3 := await (await (await w))).
  set (w4 := setCaptains _ w3).
  set (w5 := await w4).
  set (ride := mkRide _ _ _ _ _ _ _).
  set (rid := fresh (dom (rides w5))).
  set (w6 := setRides (insert rid ride) w5).
  set (G := λ d, setCandStatus i CAssigned
                   (setRideId rid (setCurrentIndex i
                      (setDispatchStatus DAssigned d)))).
  set (w7 := updateDispatch id G (await w6)).
  assert (jobInv id ident w5) as H5.
  { apply jobInv_await. apply (jobInv_ext id ident w3); [done | done |].
    by apply jobInv_await. }
  assert (rides w5 = rides w) as Hr5.
  { unfold w5. rewrite await_rides. unfold w4. simpl. unfold w3.
    by rewrite !await_rides. }
  assert (rides w5 !! rid = None) as Hfree by apply not_elem_of_dom, is_fresh.
  assert (jobInv id ident w6) as H6.
  { destruct H5 as [Hok5 Hex5]. split; [by apply storeOk_insert_ride | done]. }
  apply jobInv_await in H6 as [Hok6 (d6 & Hd6 & Hid6 & Hns6)].
  assert (rides w7 = <[rid := ride]> (rides w)) as Hr7.
  { unfold w7. simpl. rewrite await_rides. unfold w6. simpl. by rewrite Hr5. }
  assert (identityOf d6 = identityOf cur) as Hsame by congruence.
  destruct (identityOf_lookup cur d6 i cand Hsame Hcand) as (c6 & Hc6 & Hcap6).
  assert (dispatches w7 !! id = Some (G d6)) as Hd7.
  { unfold w7. by rewrite lookup_updateDispatch, decide_True, Hd6. }
  assert (storeOk w7) as Hok7.
  { apply storeOk_update; [done |]. intros d Hd Hdok.
    assert (d = d6) as -> by congruence.
    unfold dispatchOk in *. rewrite decide_False in Hdok by done.
    rewrite decide_True by done.
    apply (assignedOk_commit _ d6 i rid ride); try done.
    - rewrite await_rides. unfold w6. simpl. apply lookup_insert_eq.
    - simpl. by injection Hsame.
    - simpl. by injection Hsame.
    - simpl. by injection Hsame. }
  assert (identityOf (G d6) = ident) as HidG.
  { rewrite <- Hid6. unfold G. by rewrite identityOf_setCandStatus. }
  assert (noLateWrite id w → noLateWrite id w7) as Hno7.
  { intros Hno. apply (noLateWrite_ext id (await w6)); [done |].
    apply noLateWrite_await. apply (noLateWrite_ext id w5); [done |].
    unfold w5. apply noLateWrite_await.
    apply (noLateWrite_ext id w3); [done |].
    unfold w3. by do 3 apply noLateWrite_await. }
  pose (Fin := λ w0 : World,
          storeOk w0 ∧ rides w0 = rides w7
          ∧ committed id i rid ident w0 ∧ committedCandidate id i w0
          ∧ (noLateWrite id w →
             noLateWrite id w0 ∧ dispatches w0 !! id = Some (G d6))).
  assert (Fin w7) as Hfin7.
  { split_and!; [done | done | by exists (G d6) | | by auto].
    exists (G d6), (mkCandidate (captainId c6) (socketId c6) (etaSec c6)
                      CAssigned).
    split_and!; [done | | by left].
    simpl. by rewrite list_lookup_alter_eq, Hc6. }
  assert (∀ w0, Fin w0 → Fin (await w0)) as Hstep.
  { intros w0 (Hok0 & Hr0 & Hm0 & Hc0 & Hw0). split_and!.
    - by apply await_storeOk.
    - by rewrite await_rides.
    - by apply committed_await.
    - by apply committedCandidate_await.
    - intros Hno. destruct (Hw0 Hno) as [Hno0 Hd0].
      split; [by apply noLateWrite_await |].
      by apply await_settled_whole. }
  assert (∀ e w0, Fin w0 → Fin (emit e w0)) as Hemit.
  { intros e w0 H0. exact (Hstep w0 H0). }
  assert (∀ w0, Fin w0 → (exit, w') = (Assigned, w0) →
            storeOk w'
            ∧ (exit = Assigned →
               ∃ d' c' rid ride,
                 dispatches w' !! id = Some d'
                 ∧ dispatchStatus d' = DAssigned
                 ∧ currentIndex d' = i
                 ∧ candidates d' !! i = Some c'
                 ∧ (candStatus c' = CAssigned ∨ candStatus c' = CAck
                    ∨ candStatus c' = CRejected)
                 ∧ (noLateWrite id w → candStatus c' = CAssigned)
                 ∧ rideId d' = Some rid
                 ∧ rides w !! rid = None
                 ∧ rides w' !! rid = Some ride
                 ∧ rideStatus ride = RAccepted
                 ∧ rideCaptain ride = Some (captainId c')
                 ∧ rideUser ride = dispatchUser d')) as Hend.
  { intros w0 (Hok0 & Hr0 & (d1 & Hd1 & Hs1 & Hi1 & Hrid1 & Hident1)
               & (d2 & c2 & Hd2 & Hc2 & Hst2) & Hw0) [= -> ->].
    split; [done |]. intros _.
    assert (d2 = d1) as -> by congruence.
    assert (identityOf d1 = identityOf cur) as Hsame1 by congruence.
    destruct (identityOf_lookup cur d1 i cand Hsame1 Hcand)
      as (c1 & Hc1 & Hcap1).
    assert (c1 = c2) as -> by congruence.
    exists d1, c2, rid, ride. split_and!; try done.
    - intros Hno. destruct (Hw0 Hno) as [_ Hd0].
      assert (d1 = G d6) as -> by congruence.
      simpl in Hc2. rewrite list_lookup_alter_eq, Hc6 in Hc2.
      by injection Hc2 as <-.
    - by rewrite <- Hr5.
    - rewrite Hr0, Hr7. apply lookup_insert_eq.
    - simpl. by rewrite Hcap1.
    - simpl. by injection Hsame1. }
  fold w3 w4 w5 ride rid w6 G w7.
  set (e8 := mkEmit (socketId cand) _ _).
  assert (Fin (await (emit e8 w7))) as Hfin9 by by apply Hstep, Hemit.
  destruct (users _ !! _) as [u|]; [| intros E; by apply (Hend _ Hfin9)].
  destruct (accountSocketId u) as [s|]; [| intros E; by apply (Hend _ Hfin9)].
  destruct (String.eqb s EmptyString); [intros E; by apply (Hend _ Hfin9) |].
  intros E. apply (Hend (emit (mkEmit (Some s) "ride-assigned"
                                  (RideAssignedData rid))
                           (await (emit e8 w7)))); [| done].
  by apply Hemit.
Qed.

(** ** The loop and the job *)

Lemma offerLoop_spec env id d ackSec ident rest : ∀ i w exit w',
  jobInv id ident w →
  offerLoop env id d ackSec rest i w = Some (exit, w') →
  storeOk w'
  ∧ (exit = Assigned →
     ∃ d' c' rid ride,
       dispatches w' !! id = Some d'
       ∧ dispatchStatus d' = DAssigned
       ∧ candidates d' !! currentIndex d' = Some c'
       ∧ (candStatus c' = CAssigned ∨ candStatus c' = CAck
          ∨ candStatus c' = CRejected)
       ∧ (noLateWrite id w → candStatus c' = CAssigned)
       ∧ rideId d' = Some rid
       ∧ rides w !! rid = None
       ∧ rides w' !! rid = Some ride
       ∧ rideStatus ride = RAccepted
       ∧ rideCaptain ride = Some (captainId c')
       ∧ rideUser ride = dispatchUser d').
Proof.
  induction rest as [|c rest IH]; intros i w exit w' Hinv; simpl.
  - intros [= <- <-].
    split; [by apply (jobInv_noCandidateAccepted id ident) | done].
  - destruct (waitForAck _ _ _ _ _ _) as [[r w2]|] eqn:Hwait; [| done].
    apply (waitForAck_jobInv ident) in Hwait as Hinv2;
      [| by apply jobInv_emit].
    assert (rides w2 = rides w) as Hr2.
    { rewrite (waitForAck_rides _ _ _ _ _ _ _ _ Hwait). apply await_rides. }
    assert (noLateWrite id w → noLateWrite id w2) as Hno2.
    { intros Hno. revert Hwait. apply noLateWrite_waitForAck.
      apply (noLateWrite_ext id (await w)); [done |].
      by apply noLateWrite_await. }
    destruct r.
    + intros [= E]. destruct (commitAssignment env id i w2) as [x w3] eqn:Hc.
      injection E as -> ->.
      destruct (commitAssignment_spec _ _ _ _ _ _ _ Hinv2 Hc) as [Hok Ha].
      split; [done |]. intros Hx.
      destruct (Ha Hx)
        as (d' & c' & rid & ride & K1 & K2 & K3 & K4 & K5 & K6 & K7 & K8 & K9).
      exists d', c', rid, ride. rewrite K3.
      split_and!; try done; try apply K9; [by auto | by rewrite <- Hr2].
    + intros Hloop.
      apply IH in Hloop as [Hok Ha]; [| by apply jobInv_markTimeout].
      split; [done |]. intros Hx.
      destruct (Ha Hx)
        as (d' & c' & rid & ride & K1 & K2 & K3 & K4 & K5 & K6 & K7 & K8).
      exists d', c', rid, ride. split_and!; try done; try apply K8.
      * intros Hno. apply K5.
        apply (noLateWrite_ext id (await w2)); [done |].
        by apply noLateWrite_await, Hno2.
      * assert (rides (markTimeout id i w2) = rides w2) as Hrm
          by apply await_rides.
        by rewrite <- Hr2, <- Hrm.
    + intros [= <- <-]. split; [apply Hinv2 | done].
Qed.

(** The job keeps the store well formed, whatever the other clients do
    meanwhile, and an assignment leaves what the commit wrote. *)
Lemma offerJob_spec env job w exit w' :
  storeOk w → offerJob env job w = Some (exit, w') →
  storeOk w'
  ∧ (exit = Assigned →
     ∃ id d' c' rid ride,
       jobDispatchId job = Some id
       ∧ dispatches w' !! id = Some d'
       ∧ dispatchStatus d' = DAssigned
       ∧ candidates d' !! currentIndex d' = Some c'
       ∧ (candStatus c' = CAssigned ∨ candStatus c' = CAck
          ∨ candStatus c' = CRejected)
       ∧ (noLateWrite id w → candStatus c' = CAssigned)
       ∧ rideId d' = Some rid
       ∧ rides w !! rid = None
       ∧ rides w' !! rid = Some ride
       ∧ rideStatus ride = RAccepted
       ∧ rideCaptain ride = Some (captainId c')
       ∧ rideUser ride = dispatchUser d').
Proof.
  intros Hok. unfold offerJob.
  destruct (jobDispatchId job) as [id|]; [| by intros [= <- <-]].
  apply await_storeOk in Hok.
  destruct (dispatches (await w) !! id) as [d|] eqn:Hd;
    [| by intros [= <- <-]].
  destruct (decide _) as [Hp|]; [| by intros [= <- <-]].
  intros Hloop.
  apply (offerLoop_spec _ _ _ _ (identityOf d)) in Hloop as [Hok' Ha].
  2: { split; [done |]. exists d. split_and!; [done | done | congruence]. }
  split; [done |]. intros Hx.
  destruct (Ha Hx)
    as (d' & c' & rid & ride & K1 & K2 & K3 & K4 & K5 & K6 & K7 & K8).
  exists id, d', c', rid, ride. split_and!; try done; try apply K8.
  - intros Hno. by apply K5, noLateWrite_await.
  - by rewrite <- (await_rides w).
Qed.

(** ** The requests of the rides-service *)

Lemma offersStart_storeOk up queueConfigured req w :
  storeOk w → storeOk (offersStart up queueConfigured req w).2.
Proof.
  intros Hok.
  destruct (offersStart up queueConfigured req w) as [r w'] eqn:Hstart.
  simpl. destruct r as [code body | code msg].
  - assert (code = 201) as ->.
    { revert Hstart. unfold offersStart.
      destruct (startAuth req); [| done].
      destruct (computeDispatch _ _ _ _ _ _) as [plan|]; [| done].
      destruct (planCaptains plan); [done |]. by intros [= <- _ _]. }
    apply offersStart_creates
      in Hstart as (Hfree & (doc & Hd & Hs & Hc & _) & _ & Hr & _).
    intros id d. rewrite Hd, Hr. rewrite lookup_insert.
    case_decide as Hid.
    + intros [= <-]. unfold dispatchOk. rewrite decide_False by congruence.
      unfold noneAssigned. eapply Forall_impl; [exact Hc |].
      simpl. intros c ->. done.
    + apply Hok.
  - assert (w' = w) as ->; [| done].
    revert Hstart. unfold offersStart.
    destruct (startAuth req); [| by intros [= _ _ <-]].
    destruct (computeDispatch _ _ _ _ _ _) as [plan|]; [| by intros [= _ _ <-]].
    destruct (planCaptains plan); [by intros [= _ _ <-] | done].
Qed.

Lemma autoAssign_store up queueConfigured req w :
  (autoAssign up queueConfigured req w).2
  = (offersStart up queueConfigured req w).2.
Proof.
  unfold autoAssign, offersStart.
  destruct (startAuth req) as [uid|]; [| done].
  destruct (computeDispatch _ _ _ _ _ _) as [plan|]; [| done].
  by destruct (planCaptains plan).
Qed.

Lemma create_storeOk fingerprint fenv redisConfigured draw req w :
  storeOk w → storeOk (create fingerprint fenv redisConfigured draw req w).2.
Proof.
  intros Hok. unfold create.
  destruct (createAuth req) as [uid|]; [| done].
  destruct (if redisConfigured then _ else _) as [hit|]; [done |].
  destruct (distanceTime fenv _ _) as [[dist dur]|]; [| done].
  destruct (vehicleOf _) as [v|]; [| done]. simpl.
  set (ride := mkRide _ _ _ _ _ _ _).
  assert (storeOk (setRides (insert (fresh (dom (rides w))) ride) w)) as H1.
  { apply storeOk_insert_ride; [apply not_elem_of_dom, is_fresh | done]. }
  by destruct redisConfigured.
Qed.

Lemma serveRide_dispatches q w : dispatches (serveRide q w).2 = dispatches w.
Proof.
  destruct q as [[c|] id | [a|] id given | [c|] id]; simpl; try done.
  - unfold confirm. destruct (findRidePopulated _ _ _); [| done].
    by destruct (userSocket _).
  - unfold startRide. destruct (findRidePopulated _ _ _); [| done].
    destruct (decide _); [| done]. destruct (decide _); [| done].
    by destruct (userSocket _).
  - unfold endRide. destruct (findRideOfCaptain _ _ _); [| done].
    destruct (decide _); [| done]. by destruct (userSocket _).
Qed.

Lemma assignedOk_terms rs rs' d :
  (∀ id, rideTerms <$> rs' !! id = rideTerms <$> rs !! id) →
  assignedOk rs d → assignedOk rs' d.
Proof.
  intros Ht (Hone & r & ride & H1 & H2 & H3 & H4 & H5).
  split; [done |]. specialize (Ht r). rewrite H2 in Ht.
  destruct (rs' !! r) as [ride'|] eqn:E; [| done].
  simpl in Ht. injection Ht as Hu Hp Hd _ _.
  exists r, ride'. split_and!; congruence.
Qed.

(** /confirm, /start-ride and /end-ride write only the status and the
    captain of a ride. *)
Lemma serveRide_storeOk q w : storeOk w → storeOk (serveRide q w).2.
Proof.
  intros Hok id d. rewrite serveRide_dispatches. intros Hd.
  specialize (Hok id d Hd). unfold dispatchOk in *.
  case_decide; [| done].
  apply (assignedOk_terms (rides w)); [| done].
  intros id0. apply serveRide_terms.
Qed.

Lemma storeOk_empty : storeOk emptyWorld.
Proof. apply map_Forall_empty. Qed.

Lemma storeOk_worldWith d ticks :
  dispatchStatus d ≠ DAssigned → noneAssigned d → storeOk (worldWith d ticks).
Proof.
  intros Hs Hna. apply map_Forall_singleton. unfold dispatchOk.
  by rewrite decide_False.
Qed.

(** ** The claim *)

(** C3 (as amended). In every store reached from the empty one through
    POST /offers/start, POST /auto-assign, POST /ack-offer (its read and
    its write served together or apart), cancellation, POST /create,
    POST /confirm, GET /start-ride, POST /end-ride and the jobs of the
    worker, every dispatch whose status is assigned has no candidate with
    status assigned but the one at currentIndex, and a rideId that names a
    ride of the store, for the dispatch's rider, pickup and destination
    (the status of that ride moves on with /start-ride and /end-ride). A
    job always ends, and when it ends by an assignment its dispatch is
    assigned and names a ride that did not exist before, which has the
    status accepted, the captain of the candidate at currentIndex and the
    dispatch's rider; that candidate has the status assigned, so that
    exactly one candidate has it, when no write of an /ack-offer for the
    dispatch is served apart from its read while the job runs. (The steps
    interleaved with a job are those of the requests on dispatches.) *)
Theorem assigned_dispatch_has_one_candidate_and_ride :
  (∀ w id d,
     storeOk w → dispatches w !! id = Some d → dispatchStatus d = DAssigned →
     (∀ j c, candidates d !! j = Some c → candStatus c = CAssigned →
        j = currentIndex d)
     ∧ ∃ r ride,
         rideId d = Some r
         ∧ rides w !! r = Some ride
         ∧ rideUser ride = dispatchUser d
         ∧ ridePickup ride = dispatchPickup d
         ∧ rideDestination ride = dispatchDestination d)
  ∧ storeOk emptyWorld
  ∧ (∀ up queueConfigured req w,
       storeOk w →
       storeOk (offersStart up queueConfigured req w).2
       ∧ storeOk (autoAssign up queueConfigured req w).2)
  ∧ (∀ a w, storeOk w → storeOk (serve a w))
  ∧ (∀ fingerprint fenv redisConfigured draw req w,
       storeOk w →
       storeOk (create fingerprint fenv redisConfigured draw req w).2)
  ∧ (∀ q w, storeOk w → storeOk (serveRide q w).2)
  ∧ (∀ env job w,
       storeOk w →
       ∃ exit w',
         offerJob env job w = Some (exit, w')
         ∧ storeOk w'
         ∧ (exit = Assigned →
            ∃ id d c rid ride,
              jobDispatchId job = Some id
              ∧ dispatches w' !! id = Some d
              ∧ dispatchStatus d = DAssigned
              ∧ candidates d !! currentIndex d = Some c
              ∧ (noLateWrite id w → candStatus c = CAssigned)
              ∧ rideId d = Some rid
              ∧ rides w !! rid = None
              ∧ rides w' !! rid = Some ride
              ∧ rideStatus ride = RAccepted
              ∧ rideCaptain ride = Some (captainId c)
              ∧ rideUser ride = dispatchUser d)).
Proof.
  split_and!.
  - intros w id d Hok Hd Hs. specialize (Hok id d Hd).
    unfold dispatchOk in Hok. by rewrite decide_True in Hok.
  - apply storeOk_empty.
  - intros up queueConfigured req w Hok.
    rewrite autoAssign_store. split; by apply offersStart_storeOk.
  - apply serve_storeOk.
  - intros. by apply create_storeOk.
  - apply serveRide_storeOk.
  - intros env job w Hok.
    destruct (offerJob_total env job w) as [[exit w'] Hjob].
    exists exit, w'. split; [done |].
    destruct (offerJob_spec env job w exit w' Hok Hjob) as [Hok' Ha].
    split; [done |]. intros Hx.
    destruct (Ha Hx)
      as (id & d & c & rid & ride & K1 & K2 & K3 & K4 & K5 & K6 & K7).
    exists id, d, c, rid, ride. split_and!; try done; apply K7.
Qed.

Lemma assigned_dispatch_has_one_candidate_and_ride_witness :
  ∃ d c ride,
    dispatches (runJob workerEnv (jobFor 30) happyPath).2 !! 0%nat = Some d
    ∧ dispatchStatus d = DAssigned
    ∧ candidates d !! currentIndex d = Some c
    ∧ candStatus c = CAssigned
    ∧ rideId d = Some 0%nat
    ∧ rides (runJob workerEnv (jobFor 30) happyPath).2 !! 0%nat = Some ride
    ∧ rideStatus ride = RAccepted
    ∧ rideCaptain ride = Some (captainId c)
    ∧ rideUser ride = dispatchUser d.
Proof.
  destruct assigned_dispatch_has_one_candidate_and_ride
    as (_ & _ & _ & _ & _ & _ & Hjob).
  destruct (Hjob workerEnv (jobFor 30) happyPath)
    as (exit & w' & Hrun & Hok & Ha).
  { apply storeOk_worldWith; [done |]. by repeat constructor. }
  assert (Some (exit, w') = Some (runJob workerEnv (jobFor 30) happyPath))
    as E by (rewrite <- Hrun; vm_compute; reflexivity).
  injection E as -> ->.
  destruct Ha
    as (id & d & c & rid & ride & K1 & K2 & K3 & K4 & K5 & K6 & K7 & K8 & K9);
    [vm_compute; reflexivity |].
  injection K1 as <-.
  assert (rid = 0%nat) as ->.
  { vm_compute in K2. injection K2 as <-. by injection K6. }
  exists d, c, ride. split_and!; try done; try apply K9.
  apply K5. unfold noLateWrite. simpl. repeat constructor; by intros [].
Defined.

(** C3 (counterexample). S1, after which the captain starts the trip with
    the rider's OTP: the dispatch is assigned and its rideId names the
    ride, whose status is now ongoing, not accepted. *)
Lemma assigned_ride_moves_on : ¬ assignedClaim tripStarted.
Proof.
  intros H.
  destruct (H 0%nat happyPathAssigned)
    as (c & r & ride & _ & _ & _ & Hr & Hride & Hs).
  - vm_compute. reflexivity.
  - reflexivity.
  - injection Hr as <-. vm_compute in Hride. injection Hride as <-.
    discriminate Hs.
Qed.

(** [tripStarted] is what a GET /start-ride answered 200 leaves. *)
Lemma tripStarted_is_served :
  match startRide (Some 11%nat) 0 "000042"
          (runJob workerEnv (jobFor 30) happyPath).2 with
  | (Reply code _, w) => code = 200 ∧ w = tripStarted
  | _ => False
  end.
Proof. vm_compute. split; reflexivity. Qed.

(** The write of an /ack-offer that lands after the commit. A declines
    after having accepted; the second request is read while the dispatch
    is pending (the read finds A at index 0) and written after line 79.
    The job ends by the assignment, and the dispatch is left assigned with
    no candidate assigned: the status of A is rejected. *)
Lemma late_ack_write_unassigns :
  ackRead 0 11 lateDecline = Some 0%nat
  ∧ (runJob workerEnv (jobFor 5) lateDecline).1 = Assigned
  ∧ dispatches (runJob workerEnv (jobFor 5) lateDecline).2 !! 0%nat
    = Some (mkDispatch 1 "12.97,77.59" "12.93,77.62" (Some "car"%string)
              [mkCandidate 11 (Some "sA"%string) (Some 240) CRejected; candB]
              0 (Some 0%nat) DAssigned)
  ∧ ¬ assignedClaim (runJob workerEnv (jobFor 5) lateDecline).2.
Proof.
  split_and!; [vm_compute; reflexivity.. |].
  intros H.
  destruct (H 0%nat
              (mkDispatch 1 "12.97,77.59" "12.93,77.62" (Some "car"%string)
                 [mkCandidate 11 (Some "sA"%string) (Some 240) CRejected; candB]
                 0 (Some 0%nat) DAssigned))
    as (c & r & ride & Hc & Hs & _).
  - vm_compute. reflexivity.
  - reflexivity.
  - injection Hc as <-. discriminate Hs.
Qed.
